(** * lsst.ts.observatory.model.target: the [Target] class

    A shallow embedding of [python/lsst/ts/observatory/model/target.py].

    Python objects live in a store and are handled through references, so
    that aliasing is visible: a [Target] instance is a store object holding
    its attribute dictionary ([vars(self)]), and the [exp_times] attribute
    holds a reference to a list object.  Every method is a computation in a
    state-and-exception monad over that store.

    Modelling boundary.
    - Floats are IEEE binary64 ([PrimFloat]); [math.radians] and
      [math.degrees] are CPython's [x * (pi / 180.0)] and [x * (180.0 / pi)].
    - [json.dumps] / [json.loads] are modelled up to the JSON document tree
      ([json]); the text layer of the [json] library is not part of
      target.py.  Dictionaries keep insertion order.
    - A [str] is a [string], one [ascii] per character.
    - The interpreter's recursion limit is not modelled.
    - [__str__] is the text formatting of the attributes ([%.3f], [repr] of
      floats); it is not modelled, and no statement below depends on it. *)

From Stdlib Require Import ZArith Floats Lia String Ascii.
From stdpp Require Import base option list strings.

Local Open Scope string_scope.
Local Open Scope Z_scope.
Local Open Scope list_scope.

(** ** Dictionaries with string keys (insertion ordered, as Python's [dict]) *)

Abbreviation dict V := (list (string * V)).

Fixpoint dict_get {V} (d : dict V) (k : string) : option V :=
  match d with
  | [] => None
  | (k', v) :: d' => if String.eqb k' k then Some v else dict_get d' k
  end.

(** [d[k] = v]: an existing key keeps its position, a new key goes last. *)
Fixpoint dict_set {V} (d : dict V) (k : string) (v : V) : dict V :=
  match d with
  | [] => [(k, v)]
  | (k', v') :: d' =>
      if String.eqb k' k then (k', v) :: d' else (k', v') :: dict_set d' k v
  end.

Definition dict_keys {V} (d : dict V) : list string := map fst d.

Definition dict_has {V} (d : dict V) (k : string) : bool :=
  match dict_get d k with Some _ => true | None => false end.

(** The dictionary built from the members of a JSON object, read in order. *)
Definition dict_of_pairs {V} (ps : list (string * V)) : dict V :=
  fold_left (fun d kv => dict_set d (fst kv) (snd kv)) ps [].

(** ** Values, objects and the store *)

Abbreviation loc := nat (only parsing).

Inductive value : Type :=
| VNone
| VBool (b : bool)
| VInt (z : Z)
| VFloat (f : float)
| VStr (s : string)
| VRef (r : loc).

Inductive object : Type :=
| OList (items : list value)
| ODict (items : dict value)
| OTarget (attrs : dict value).

Abbreviation heap := (list object) (only parsing).

(** ** Exceptions and the monad *)

Inductive exn : Type :=
| KeyError (msg : string)
| TypeError
| AttributeError
| ValueError
| OverflowError
| IndexError
| SystemError.

Inductive result (A : Type) : Type :=
| Ok (a : A)
| Raise (e : exn).
Arguments Ok {A} a.
Arguments Raise {A} e.

(** A computation returns a value or raises, and leaves a store either way. *)
Definition M (A : Type) : Type := heap -> result A * heap.

Definition ret {A} (a : A) : M A := fun h => (Ok a, h).

Definition raise {A} (e : exn) : M A := fun h => (Raise e, h).

Definition bind {A B} (m : M A) (k : A -> M B) : M B :=
  fun h => match m h with
           | (Ok a, h') => k a h'
           | (Raise e, h') => (Raise e, h')
           end.

Definition lift {A} (r : result A) : M A := fun h => (r, h).

#[global] Instance M_ret : MRet M := @ret.
#[global] Instance M_bind : MBind M := fun A B k m => bind m k.

Fixpoint for_each {A} (xs : list A) (body : A -> M unit) : M unit :=
  match xs with
  | [] => ret tt
  | x :: xs' => body x;; for_each xs' body
  end.

Definition rbind {A B} (r : result A) (k : A -> result B) : result B :=
  match r with Ok a => k a | Raise e => Raise e end.

Fixpoint rmap {A B} (f : A -> result B) (xs : list A) : result (list B) :=
  match xs with
  | [] => Ok []
  | x :: xs' => rbind (f x) (fun y => rbind (rmap f xs') (fun ys => Ok (y :: ys)))
  end.

(** ** Store primitives *)

Definition alloc (o : object) : M loc :=
  fun h => (Ok (List.length h), h ++ [o]).

(** [o.name] for a plain instance attribute. *)
Definition load_attr (o : value) (name : string) : M value :=
  fun h => match o with
           | VRef r =>
               match h !! r with
               | Some (OTarget d) =>
                   match dict_get d name with
                   | Some v => (Ok v, h)
                   | None => (Raise AttributeError, h)
                   end
               | Some _ => (Raise AttributeError, h)
               | None => (Raise SystemError, h)
               end
           | _ => (Raise AttributeError, h)
           end.

(** [self.name = v] for a plain instance attribute (no descriptor). *)
Definition store_attr (self : loc) (name : string) (v : value) : M unit :=
  fun h => match h !! self with
           | Some (OTarget d) => (Ok tt, <[self := OTarget (dict_set d name v)]> h)
           | Some _ => (Raise AttributeError, h)
           | None => (Raise SystemError, h)
           end.

(** Iterating a value: a list yields its items, a dict its keys, a str its
    characters; nothing else that the model holds is iterable. *)
Definition py_iter (v : value) : M (list value) :=
  fun h => match v with
           | VRef r =>
               match h !! r with
               | Some (OList xs) => (Ok xs, h)
               | Some (ODict d) => (Ok (map VStr (dict_keys d)), h)
               | Some (OTarget _) => (Raise TypeError, h)
               | None => (Raise SystemError, h)
               end
           | VStr s => (Ok (map (fun c => VStr (String c EmptyString)) (list_ascii_of_string s)), h)
           | _ => (Raise TypeError, h)
           end.

(** [list(x)]: a new list object with the items of [x]. *)
Definition py_list (v : value) : M value :=
  xs ← py_iter v;
  r ← alloc (OList xs);
  ret (VRef r).

(** [l.append(x)] and [l[i] = x] on a list object. *)
Definition list_append (l : value) (x : value) : M unit :=
  fun h => match l with
           | VRef r =>
               match h !! r with
               | Some (OList xs) => (Ok tt, <[r := OList (xs ++ [x])]> h)
               | Some _ => (Raise AttributeError, h)
               | None => (Raise SystemError, h)
               end
           | _ => (Raise AttributeError, h)
           end.

Definition list_setitem (l : value) (i : nat) (x : value) : M unit :=
  fun h => match l with
           | VRef r =>
               match h !! r with
               | Some (OList xs) =>
                   if decide (i < List.length xs)%nat
                   then (Ok tt, <[r := OList (<[i := x]> xs)]> h)
                   else (Raise IndexError, h)
               | Some _ => (Raise TypeError, h)
               | None => (Raise SystemError, h)
               end
           | _ => (Raise TypeError, h)
           end.

(** ** The [math] module: degrees and radians (CPython's mathmodule.c) *)

Definition pi : float := 0x1.921fb54442d18p+1%float.
Definition degToRad : float := (pi / 180)%float.
Definition radToDeg : float := (180 / pi)%float.

(** [float(z)] for an int: round to nearest even, [OverflowError] beyond the
    binary64 range. *)
Definition float_of_int (z : Z) : result float :=
  let f := SF2Prim (binary_normalize prec emax z 0 false) in
  if is_infinity f then Raise OverflowError else Ok f.

(** The argument conversion of [math.radians] / [math.degrees]. *)
Definition as_double (v : value) : result float :=
  match v with
  | VFloat f => Ok f
  | VInt z => float_of_int z
  | VBool b => Ok (if b then 1%float else 0%float)
  | _ => Raise TypeError
  end.

Definition radians (x : float) : float := (x * degToRad)%float.
Definition degrees (x : float) : float := (x * radToDeg)%float.

Definition math_radians (v : value) : M value :=
  x ← lift (as_double v); ret (VFloat (radians x)).

Definition math_degrees (v : value) : M value :=
  x ← lift (as_double v); ret (VFloat (degrees x)).

(** ** [sum]: a left fold of [+] from the int [0] *)

Definition is_int (v : value) : option Z :=
  match v with
  | VInt z => Some z
  | VBool b => Some (Z.b2z b)
  | _ => None
  end.

(** [a + b] for numbers; the accumulator of [sum] is always a number, and a
    number plus anything else is a [TypeError]. *)
Definition num_add (a b : value) : result value :=
  match is_int a, is_int b with
  | Some x, Some y => Ok (VInt (x + y))
  | _, _ =>
      rbind (as_double a) (fun x =>
      rbind (as_double b) (fun y => Ok (VFloat (x + y)%float)))
  end.

Fixpoint sum_from (acc : value) (xs : list value) : result value :=
  match xs with
  | [] => Ok acc
  | x :: xs' => rbind (num_add acc x) (fun acc' => sum_from acc' xs')
  end.

Definition py_sum (v : value) : M value :=
  xs ← py_iter v; lift (sum_from (VInt 0) xs).

(** Python's [==] between an int and a float compares the exact values. *)
Definition int_eq_float (z : Z) (f : float) : bool :=
  match Prim2SF f with
  | S754_zero _ => Z.eqb z 0
  | S754_finite s m e =>
      let n := if s then Z.neg m else Z.pos m in
      if (0 <=? e)%Z then Z.eqb z (n * 2 ^ e)
      else Z.eqb (z * 2 ^ (- e)) n
  | _ => false
  end.

(** ** The [json] module, up to the document tree *)

#[local] Unset Elimination Schemes.
Inductive json : Type :=
| JNull
| JBool (b : bool)
| JInt (z : Z)
| JFloat (f : float)
| JStr (s : string)
| JArr (items : list json)
| JObj (members : list (string * json)).
#[local] Set Elimination Schemes.

(** [json.loads]: scalars become values, every array a new list object and
    every object a new dict object (a repeated key keeps its last value). *)
Fixpoint loads (j : json) (h : heap) : value * heap :=
  match j with
  | JNull => (VNone, h)
  | JBool b => (VBool b, h)
  | JInt z => (VInt z, h)
  | JFloat f => (VFloat f, h)
  | JStr s => (VStr s, h)
  | JArr js =>
      let '(vs, h1) :=
        (fix items (js : list json) (h : heap) : list value * heap :=
           match js with
           | [] => ([], h)
           | j :: js' =>
               let '(v, h1) := loads j h in
               let '(vs, h2) := items js' h1 in
               (v :: vs, h2)
           end) js h in
      (VRef (List.length h1), h1 ++ [OList vs])
  | JObj ms =>
      let '(kvs, h1) :=
        (fix members (ms : list (string * json)) (h : heap)
           : list (string * value) * heap :=
           match ms with
           | [] => ([], h)
           | (k, j) :: ms' =>
               let '(v, h1) := loads j h in
               let '(kvs, h2) := members ms' h1 in
               ((k, v) :: kvs, h2)
           end) ms h in
      (VRef (List.length h1), h1 ++ [ODict (dict_of_pairs kvs)])
  end.

Definition json_loads (s : json) : M value :=
  fun h => let '(v, h') := loads s h in (Ok v, h').

(** [json.dumps]: [depth] bounds the nesting of containers, so a circular
    structure ends in the [ValueError] of the encoder's circularity check;
    an instance of a class is not serializable. *)
Fixpoint dumps (depth : nat) (h : heap) (v : value) : result json :=
  match v with
  | VNone => Ok JNull
  | VBool b => Ok (JBool b)
  | VInt z => Ok (JInt z)
  | VFloat f => Ok (JFloat f)
  | VStr s => Ok (JStr s)
  | VRef r =>
      match depth with
      | O => Raise ValueError
      | S depth' =>
          match h !! r with
          | Some (OList xs) =>
              rbind (rmap (dumps depth' h) xs) (fun js => Ok (JArr js))
          | Some (ODict d) =>
              rbind (rmap (fun kv => rbind (dumps depth' h (snd kv))
                                       (fun j => Ok (fst kv, j))) d)
                    (fun ms => Ok (JObj ms))
          | Some (OTarget _) => Raise TypeError
          | None => Raise SystemError
          end
      end
  end.

(** [json.dumps(d)] for a dictionary [d] given by its items. *)
Definition dumps_dict (depth : nat) (h : heap) (d : dict value) : result json :=
  rbind (rmap (fun kv => rbind (dumps depth h (snd kv)) (fun j => Ok (fst kv, j))) d)
        (fun ms => Ok (JObj ms)).

Definition json_dumps_dict (d : dict value) : M json :=
  fun h => (dumps_dict (List.length h) h d, h).

(** ** Builtins on instances *)

(** [vars(self)]: the attribute dictionary of an instance. *)
Definition vars (self : loc) : M (dict value) :=
  fun h => match h !! self with
           | Some (OTarget d) => (Ok d, h)
           | Some _ => (Raise TypeError, h)
           | None => (Raise SystemError, h)
           end.

(** The items of a dict object; anything else has no [keys()]. *)
Definition dict_items (v : value) : M (dict value) :=
  fun h => match v with
           | VRef r =>
               match h !! r with
               | Some (ODict d) => (Ok d, h)
               | Some _ => (Raise AttributeError, h)
               | None => (Raise SystemError, h)
               end
           | _ => (Raise AttributeError, h)
           end.

(** [self.__dict__ = v]: only a dict is accepted; the instance then has
    that dictionary's items as its attributes. *)
Definition store_dict (self : loc) (v : value) : M unit :=
  fun h => match v with
           | VRef r =>
               match h !! r, h !! self with
               | Some (ODict d), Some (OTarget _) => (Ok tt, <[self := OTarget d]> h)
               | Some _, Some _ => (Raise TypeError, h)
               | _, _ => (Raise SystemError, h)
               end
           | _ => (Raise TypeError, h)
           end.

(** ** The scheduler topic *)

Module SALPY_scheduler.

(** [SALPY_scheduler.targetC], as far as [Target.from_topic] reads it. *)
Record targetC : Type := {
  targetId : value;
  filter : value;
  ra : value;
  decl : value;
  skyAngle : value;
  numExposures : value;
  exposureTimes : value
}.

End SALPY_scheduler.

(** ** class Target *)

Module Target.

(** [def __init__(self, targetid=0, fieldid=0, band_filter="", ra_rad=0.0,
    dec_rad=0.0, ang_rad=0.0, num_exp=0, exp_times=[])]: an argument that is
    not supplied is [None] here and takes the default of the signature.  The
    default [[]] of [exp_times] is only ever iterated by [list(exp_times)]:
    it is modelled by its (empty) contents. *)
Definition __init__ (self : loc)
    (targetid fieldid band_filter ra_rad dec_rad ang_rad num_exp : option value)
    (exp_times : option value) : M unit :=
  store_attr self "targetid" (default (VInt 0) targetid);;
  store_attr self "fieldid" (default (VInt 0) fieldid);;
  store_attr self "filter" (default (VStr "") band_filter);;
  store_attr self "ra_rad" (default (VFloat 0) ra_rad);;
  store_attr self "dec_rad" (default (VFloat 0) dec_rad);;
  store_attr self "ang_rad" (default (VFloat 0) ang_rad);;
  store_attr self "num_exp" (default (VInt 0) num_exp);;
  l ← match exp_times with
      | Some v => py_list v
      | None => r ← alloc (OList []); ret (VRef r)
      end;
  store_attr self "exp_times" l;;
  store_attr self "_exp_time" VNone;;
  (* conditions *)
  store_attr self "time" (VFloat 0);;
  store_attr self "airmass" (VFloat 0);;
  store_attr self "sky_brightness" (VFloat 0);;
  store_attr self "cloud" (VFloat 0);;
  store_attr self "seeing" (VFloat 0);;
  (* computed at driver *)
  store_attr self "alt_rad" (VFloat 0);;
  store_attr self "az_rad" (VFloat 0);;
  store_attr self "rot_rad" (VFloat 0);;
  store_attr self "telalt_rad" (VFloat 0);;
  store_attr self "telaz_rad" (VFloat 0);;
  store_attr self "telrot_rad" (VFloat 0);;
  store_attr self "slewtime" (VFloat 0);;
  store_attr self "note" (VStr "").

(** [Target(...)]: a new instance with an empty [__dict__], then [__init__]. *)
Definition new
    (targetid fieldid band_filter ra_rad dec_rad ang_rad num_exp : option value)
    (exp_times : option value) : M loc :=
  self ← alloc (OTarget []);
  __init__ self targetid fieldid band_filter ra_rad dec_rad ang_rad num_exp exp_times;;
  ret self.

(** *** The degree properties *)

Definition alt (self : loc) : M value :=
  x ← load_attr (VRef self) "alt_rad"; math_degrees x.
Definition alt_setter (self : loc) (alt : value) : M unit :=
  x ← math_radians alt; store_attr self "alt_rad" x.

Definition ang (self : loc) : M value :=
  x ← load_attr (VRef self) "ang_rad"; math_degrees x.
Definition ang_setter (self : loc) (ang : value) : M unit :=
  x ← math_radians ang; store_attr self "ang_rad" x.

Definition az (self : loc) : M value :=
  x ← load_attr (VRef self) "az_rad"; math_degrees x.
Definition az_setter (self : loc) (az : value) : M unit :=
  x ← math_radians az; store_attr self "az_rad" x.

Definition dec (self : loc) : M value :=
  x ← load_attr (VRef self) "dec_rad"; math_degrees x.
Definition dec_setter (self : loc) (dec : value) : M unit :=
  x ← math_radians dec; store_attr self "dec_rad" x.

Definition ra (self : loc) : M value :=
  x ← load_attr (VRef self) "ra_rad"; math_degrees x.
Definition ra_setter (self : loc) (ra : value) : M unit :=
  x ← math_radians ra; store_attr self "ra_rad" x.

Definition rot (self : loc) : M value :=
  x ← load_attr (VRef self) "rot_rad"; math_degrees x.
Definition rot_setter (self : loc) (rot : value) : M unit :=
  x ← math_radians rot; store_attr self "rot_rad" x.

Definition telalt (self : loc) : M value :=
  x ← load_attr (VRef self) "telalt_rad"; math_degrees x.
Definition telalt_setter (self : loc) (telalt : value) : M unit :=
  x ← math_radians telalt; store_attr self "telalt_rad" x.

Definition telaz (self : loc) : M value :=
  x ← load_attr (VRef self) "telaz_rad"; math_degrees x.
Definition telaz_setter (self : loc) (telaz : value) : M unit :=
  x ← math_radians telaz; store_attr self "telaz_rad" x.

Definition telrot (self : loc) : M value :=
  x ← load_attr (VRef self) "telrot_rad"; math_degrees x.
Definition telrot_setter (self : loc) (telrot : value) : M unit :=
  x ← math_radians telrot; store_attr self "telrot_rad" x.

(** *** The total exposure time *)

Definition exp_time (self : loc) : M value :=
  t ← load_attr (VRef self) "_exp_time";
  match t with
  | VNone => xs ← load_attr (VRef self) "exp_times"; py_sum xs
  | _ => ret t
  end.

Definition exp_time_setter (self : loc) (exp_time : value) : M unit :=
  store_attr self "_exp_time" exp_time.

(** *** Copies *)

Definition copy_driver_state (self : loc) (target : value) : M unit :=
  v ← load_attr target "alt_rad"; store_attr self "alt_rad" v;;
  v ← load_attr target "az_rad"; store_attr self "az_rad" v;;
  v ← load_attr target "rot_rad"; store_attr self "rot_rad" v;;
  v ← load_attr target "telalt_rad"; store_attr self "telalt_rad" v;;
  v ← load_attr target "telaz_rad"; store_attr self "telaz_rad" v;;
  v ← load_attr target "telrot_rad"; store_attr self "telrot_rad" v;;
  v ← load_attr target "ang_rad"; store_attr self "ang_rad" v.

Definition get_copy (self : loc) : M loc :=
  newtarget ← new None None None None None None None None;
  v ← load_attr (VRef self) "targetid"; store_attr newtarget "targetid" v;;
  v ← load_attr (VRef self) "fieldid"; store_attr newtarget "fieldid" v;;
  v ← load_attr (VRef self) "filter"; store_attr newtarget "filter" v;;
  v ← load_attr (VRef self) "ra_rad"; store_attr newtarget "ra_rad" v;;
  v ← load_attr (VRef self) "dec_rad"; store_attr newtarget "dec_rad" v;;
  v ← load_attr (VRef self) "ang_rad"; store_attr newtarget "ang_rad" v;;
  v ← load_attr (VRef self) "num_exp"; store_attr newtarget "num_exp" v;;
  v ← load_attr (VRef self) "exp_times"; l ← py_list v;
  store_attr newtarget "exp_times" l;;

  v ← load_attr (VRef self) "time"; store_attr newtarget "time" v;;
  v ← load_attr (VRef self) "airmass"; store_attr newtarget "airmass" v;;
  v ← load_attr (VRef self) "sky_brightness"; store_attr newtarget "sky_brightness" v;;
  v ← load_attr (VRef self) "cloud"; store_attr newtarget "cloud" v;;
  v ← load_attr (VRef self) "seeing"; store_attr newtarget "seeing" v;;

  v ← load_attr (VRef self) "alt_rad"; store_attr newtarget "alt_rad" v;;
  v ← load_attr (VRef self) "az_rad"; store_attr newtarget "az_rad" v;;
  v ← load_attr (VRef self) "rot_rad"; store_attr newtarget "rot_rad" v;;
  v ← load_attr (VRef self) "telalt_rad"; store_attr newtarget "telalt_rad" v;;
  v ← load_attr (VRef self) "telaz_rad"; store_attr newtarget "telaz_rad" v;;
  v ← load_attr (VRef self) "telrot_rad"; store_attr newtarget "telrot_rad" v;;
  v ← load_attr (VRef self) "slewtime"; store_attr newtarget "slewtime" v;;

  v ← load_attr (VRef self) "note"; store_attr newtarget "note" v;;

  ret newtarget.

(** *** JSON *)

Definition to_json (self : loc) : M json :=
  d ← vars self; json_dumps_dict d.

(** The data descriptors that [setattr] finds on the class before it
    reaches the instance dictionary: the ten properties defined above, and
    the three of every plain Python class. *)
Definition descriptors : dict (loc -> value -> M unit) :=
  [ ("alt", alt_setter); ("ang", ang_setter); ("az", az_setter);
    ("dec", dec_setter); ("ra", ra_setter); ("rot", rot_setter);
    ("telalt", telalt_setter); ("telaz", telaz_setter);
    ("telrot", telrot_setter); ("exp_time", exp_time_setter);
    ("__dict__", store_dict);
    ("__class__", fun _ _ => raise TypeError);
    ("__weakref__", fun _ _ => raise AttributeError) ].

(** [setattr(self, name, v)] *)
Definition setattr (self : loc) (name : string) (v : value) : M unit :=
  match dict_get descriptors name with
  | Some setter => setter self v
  | None => store_attr self name v
  end.

Definition mandatory_fields : list string :=
  ["targetid"; "fieldid"; "filter"; "ra_rad"; "dec_rad";
   "ang_rad"; "num_exp"; "exp_times"].

Definition missing_msg : string :=
  "json blob passed to Target()'s json constructor is missing required attribute: ".

Definition from_json (self : loc) (jsonstr : json) : M unit :=
  jsondict ← json_loads jsonstr;
  for_each mandatory_fields (fun f =>
    keys ← dict_items jsondict;
    if dict_has keys f then ret tt
    else raise (KeyError (String.append missing_msg f)));;
  items ← dict_items jsondict;
  for_each items (fun kv => setattr self (fst kv) (snd kv)).

(** *** The scheduler topic *)

Definition from_topic (topic : SALPY_scheduler.targetC) : M loc :=
  ra_rad ← math_radians (SALPY_scheduler.ra topic);
  dec_rad ← math_radians (SALPY_scheduler.decl topic);
  ang_rad ← math_radians (SALPY_scheduler.skyAngle topic);
  new (Some (SALPY_scheduler.targetId topic)) (Some (VInt (-1)))
      (Some (SALPY_scheduler.filter topic))
      (Some ra_rad) (Some dec_rad) (Some ang_rad)
      (Some (SALPY_scheduler.numExposures topic))
      (Some (SALPY_scheduler.exposureTimes topic)).

End Target.

(** ** Reading the store *)

(** The attribute [name] of the instance at [t], if any. *)
Definition attr (h : heap) (t : loc) (name : string) : option value :=
  match h !! t with
  | Some (OTarget d) => dict_get d name
  | _ => None
  end.

(** The items of the list a value refers to. *)
Definition list_items (h : heap) (v : option value) : option (list value) :=
  match v with
  | Some (VRef r) =>
      match h !! r with
      | Some (OList xs) => Some xs
      | _ => None
      end
  | _ => None
  end.

(** The attributes that [__init__] creates, in its order. *)
Definition field_names : list string :=
  ["targetid"; "fieldid"; "filter"; "ra_rad"; "dec_rad"; "ang_rad";
   "num_exp"; "exp_times"; "_exp_time";
   "time"; "airmass"; "sky_brightness"; "cloud"; "seeing";
   "alt_rad"; "az_rad"; "rot_rad"; "telalt_rad"; "telaz_rad"; "telrot_rad";
   "slewtime"; "note"].

Definition is_some {A} (o : option A) : bool :=
  match o with Some _ => true | None => false end.

(** [t] is a Target instance of the store: it has every attribute of
    [__init__], and [exp_times] refers to a list. *)
Definition is_target (h : heap) (t : loc) : bool :=
  forallb (fun name => is_some (attr h t name)) field_names
  && is_some (list_items h (attr h t "exp_times")).

(** ** Dictionaries: lookups after updates *)

Section Dict.
Context {V : Type}.
Implicit Types (d : dict V) (k : string) (v : V).

Lemma dict_get_set d k v k' :
  dict_get (dict_set d k v) k' =
  if String.eqb k k' then Some v else dict_get d k'.
Proof.
  induction d as [|[k0 v0] d IH]; simpl.
  - reflexivity.
  - destruct (String.eqb k0 k) eqn:E0; simpl.
    + apply String.eqb_eq in E0; subst k0.
      destruct (String.eqb k k'); reflexivity.
    + destruct (String.eqb k0 k') eqn:E1; [|exact IH].
      apply String.eqb_eq in E1; subst k0.
      rewrite String.eqb_sym in E0. now rewrite E0.
Qed.

Lemma dict_get_set_eq d k v : dict_get (dict_set d k v) k = Some v.
Proof. now rewrite dict_get_set, String.eqb_refl. Qed.

Lemma dict_get_set_ne d k v k' :
  k <> k' -> dict_get (dict_set d k v) k' = dict_get d k'.
Proof.
  intros Hne. rewrite dict_get_set.
  destruct (String.eqb k k') eqn:E; [|reflexivity].
  now apply String.eqb_eq in E.
Qed.

Lemma dict_set_id d k v : dict_get d k = Some v -> dict_set d k v = d.
Proof.
  induction d as [|[k0 v0] d IH]; simpl; [discriminate|].
  destruct (String.eqb k0 k); intros H.
  - now inversion H.
  - now rewrite IH.
Qed.

Lemma dict_get_in_keys d k v : dict_get d k = Some v -> k ∈ dict_keys d.
Proof.
  unfold dict_keys.
  induction d as [|[k0 v0] d IH]; simpl; [discriminate|].
  destruct (String.eqb k0 k) eqn:E.
  - apply String.eqb_eq in E; subst. intros _. apply list_elem_of_here.
  - intros H. apply list_elem_of_further. auto.
Qed.

Lemma dict_get_not_in_keys d k : k ∉ dict_keys d -> dict_get d k = None.
Proof.
  intros Hk. destruct (dict_get d k) eqn:E; [|reflexivity].
  exfalso. eauto using dict_get_in_keys.
Qed.

Lemma dict_keys_in_get d k : k ∈ dict_keys d -> is_Some (dict_get d k).
Proof.
  unfold dict_keys.
  induction d as [|[k0 v0] d IH]; simpl.
  - intros H. inversion H.
  - destruct (String.eqb k0 k) eqn:E; [eauto|].
    intros H. apply elem_of_cons in H as [->|H]; [|auto].
    now rewrite String.eqb_refl in E.
Qed.
End Dict.

(** ** Running the store primitives *)

Lemma attr_lookup (h : heap) t d name :
  h !! t = Some (OTarget d) -> attr h t name = dict_get d name.
Proof. unfold attr. now intros ->. Qed.

Lemma attr_insert (h : heap) t d name :
  (t < List.length h)%nat -> attr (<[t := OTarget d]> h) t name = dict_get d name.
Proof. intros Hlt. apply attr_lookup. now apply list_lookup_insert_eq. Qed.

Lemma attr_insert_ne (h : heap) t t' o name :
  t <> t' -> attr (<[t := o]> h) t' name = attr h t' name.
Proof. intros Hne. unfold attr. now rewrite list_lookup_insert_ne. Qed.

Lemma attr_is_object (h : heap) t name v :
  attr h t name = Some v -> exists d, h !! t = Some (OTarget d).
Proof.
  unfold attr. destruct (h !! t) as [[]|]; try discriminate. eauto.
Qed.

Lemma load_attr_run (h : heap) t name v :
  attr h t name = Some v -> load_attr (VRef t) name h = (Ok v, h).
Proof.
  unfold attr, load_attr.
  destruct (h !! t) as [[]|]; try discriminate. now intros ->.
Qed.

Lemma load_attr_run_ne (h : heap) t b o name v :
  t <> b -> attr h t name = Some v ->
  load_attr (VRef t) name (<[b := o]> h) = (Ok v, <[b := o]> h).
Proof.
  intros Hne Hv. apply load_attr_run. rewrite attr_insert_ne; auto.
Qed.

Lemma store_attr_run (h : heap) t d name v :
  h !! t = Some (OTarget d) ->
  store_attr t name v h = (Ok tt, <[t := OTarget (dict_set d name v)]> h).
Proof. unfold store_attr. now intros ->. Qed.

Lemma store_attr_run_ins (h : heap) t d name v :
  (t < List.length h)%nat ->
  store_attr t name v (<[t := OTarget d]> h)
  = (Ok tt, <[t := OTarget (dict_set d name v)]> h).
Proof.
  intros Hlt. erewrite store_attr_run by now apply list_lookup_insert_eq.
  now rewrite list_insert_insert_eq.
Qed.

Lemma is_target_attr (h : heap) t name :
  is_target h t = true -> name ∈ field_names ->
  exists v, attr h t name = Some v.
Proof.
  unfold is_target. intros [Hall _]%andb_prop Hin.
  rewrite forallb_forall in Hall.
  apply list_elem_of_In, Hall in Hin.
  destruct (attr h t name); [eauto|discriminate].
Qed.

Lemma is_target_object (h : heap) t :
  is_target h t = true -> exists d, h !! t = Some (OTarget d).
Proof.
  intros Ht. destruct (is_target_attr h t "targetid" Ht) as [v Hv].
  - repeat constructor.
  - eauto using attr_is_object.
Qed.

Lemma is_target_exp_times (h : heap) t :
  is_target h t = true ->
  exists r xs, attr h t "exp_times" = Some (VRef r) /\ h !! r = Some (OList xs).
Proof.
  unfold is_target. intros [_ Hl]%andb_prop.
  unfold list_items in Hl.
  destruct (attr h t "exp_times") as [[]|]; try discriminate.
  destruct (h !! r) as [[]|] eqn:E; try discriminate. eauto.
Qed.

(** An attribute name is one of a list of string literals. *)
Ltac field_in := repeat (first [apply list_elem_of_here | apply list_elem_of_further]).

(** ** copy_driver_state *)

Definition driver_state : list string :=
  ["alt_rad"; "az_rad"; "rot_rad"; "telalt_rad"; "telaz_rad"; "telrot_rad"; "ang_rad"].

Lemma copy_attr_self (h : heap) b name v {A} (k : M A) :
  attr h b name = Some v ->
  (x ← load_attr (VRef b) name; store_attr b name x;; k) h = k h.
Proof.
  intros Hv. destruct (attr_is_object _ _ _ _ Hv) as [d Hd].
  unfold mbind, M_bind, bind.
  rewrite (load_attr_run _ _ _ _ Hv), (store_attr_run _ _ _ _ _ Hd).
  rewrite attr_lookup with (d := d) in Hv by assumption.
  now rewrite dict_set_id, list_insert_id.
Qed.

Lemma copy_attr_other (h : heap) a b d name v {A} (k : M A) :
  a <> b -> (b < List.length h)%nat -> attr h a name = Some v ->
  (x ← load_attr (VRef a) name; store_attr b name x;; k) (<[b := OTarget d]> h)
  = k (<[b := OTarget (dict_set d name v)]> h).
Proof.
  intros Hne Hlt Hv. unfold mbind, M_bind, bind.
  rewrite (load_attr_run_ne _ _ _ _ _ _ Hne Hv).
  now rewrite store_attr_run_ins.
Qed.

Lemma copy_attr_self_last (h : heap) b name v :
  attr h b name = Some v ->
  (x ← load_attr (VRef b) name; store_attr b name x) h = (Ok tt, h).
Proof.
  intros Hv. destruct (attr_is_object _ _ _ _ Hv) as [d Hd].
  unfold mbind, M_bind, bind.
  rewrite (load_attr_run _ _ _ _ Hv), (store_attr_run _ _ _ _ _ Hd).
  rewrite attr_lookup with (d := d) in Hv by assumption.
  now rewrite dict_set_id, list_insert_id.
Qed.

Lemma copy_attr_other_last (h : heap) a b d name v :
  a <> b -> (b < List.length h)%nat -> attr h a name = Some v ->
  (x ← load_attr (VRef a) name; store_attr b name x) (<[b := OTarget d]> h)
  = (Ok tt, <[b := OTarget (dict_set d name v)]> h).
Proof.
  intros Hne Hlt Hv. unfold mbind, M_bind, bind.
  rewrite (load_attr_run_ne _ _ _ _ _ _ Hne Hv).
  now rewrite store_attr_run_ins.
Qed.

Lemma copy_driver_state_self (h : heap) b :
  is_target h b = true ->
  Target.copy_driver_state b (VRef b) h = (Ok tt, h).
Proof.
  intros Hb.
  destruct (is_target_attr h b "alt_rad" Hb) as [v1 H1]; [field_in|].
  destruct (is_target_attr h b "az_rad" Hb) as [v2 H2]; [field_in|].
  destruct (is_target_attr h b "rot_rad" Hb) as [v3 H3]; [field_in|].
  destruct (is_target_attr h b "telalt_rad" Hb) as [v4 H4]; [field_in|].
  destruct (is_target_attr h b "telaz_rad" Hb) as [v5 H5]; [field_in|].
  destruct (is_target_attr h b "telrot_rad" Hb) as [v6 H6]; [field_in|].
  destruct (is_target_attr h b "ang_rad" Hb) as [v7 H7]; [field_in|].
  unfold Target.copy_driver_state.
  rewrite (copy_attr_self _ _ _ _ _ H1), (copy_attr_self _ _ _ _ _ H2),
    (copy_attr_self _ _ _ _ _ H3), (copy_attr_self _ _ _ _ _ H4),
    (copy_attr_self _ _ _ _ _ H5), (copy_attr_self _ _ _ _ _ H6).
  now rewrite (copy_attr_self_last _ _ _ _ H7).
Qed.

Lemma copy_driver_state_other (h : heap) a b d v1 v2 v3 v4 v5 v6 v7 :
  a <> b -> h !! b = Some (OTarget d) ->
  attr h a "alt_rad" = Some v1 -> attr h a "az_rad" = Some v2 ->
  attr h a "rot_rad" = Some v3 -> attr h a "telalt_rad" = Some v4 ->
  attr h a "telaz_rad" = Some v5 -> attr h a "telrot_rad" = Some v6 ->
  attr h a "ang_rad" = Some v7 ->
  Target.copy_driver_state b (VRef a) h
  = (Ok tt, <[b := OTarget
        (dict_set (dict_set (dict_set (dict_set (dict_set (dict_set (dict_set d
           "alt_rad" v1) "az_rad" v2) "rot_rad" v3) "telalt_rad" v4)
           "telaz_rad" v5) "telrot_rad" v6) "ang_rad" v7)]> h).
Proof.
  intros Hne Hd H1 H2 H3 H4 H5 H6 H7.
  pose proof (lookup_lt_Some _ _ _ Hd) as Hlt.
  rewrite <- (list_insert_id _ _ _ Hd) at 1.
  unfold Target.copy_driver_state.
  rewrite (copy_attr_other _ _ _ _ _ _ _ Hne Hlt H1),
    (copy_attr_other _ _ _ _ _ _ _ Hne Hlt H2),
    (copy_attr_other _ _ _ _ _ _ _ Hne Hlt H3),
    (copy_attr_other _ _ _ _ _ _ _ Hne Hlt H4),
    (copy_attr_other _ _ _ _ _ _ _ Hne Hlt H5),
    (copy_attr_other _ _ _ _ _ _ _ Hne Hlt H6).
  now rewrite (copy_attr_other_last _ _ _ _ _ _ Hne Hlt H7).
Qed.

Lemma list_items_insert_target (h : heap) b d d' v :
  h !! b = Some (OTarget d) ->
  list_items (<[b := OTarget d']> h) v = list_items h v.
Proof.
  intros Hb. unfold list_items.
  destruct v as [[| | | | |r]|]; try reflexivity.
  destruct (decide (b = r)) as [->|Hne].
  - rewrite list_lookup_insert_eq by eauto using lookup_lt_Some. now rewrite Hb.
  - now rewrite list_lookup_insert_ne.
Qed.

(** C5. [b.copy_driver_state(a)] succeeds on Target instances; afterwards the
    seven driver attributes of [b] are those of [a], every other attribute
    of [b] (and the list behind its [exp_times]) is as before, no other
    object of the store has changed, and [a] itself is unmodified, also when
    [a] and [b] are the same instance. *)
Theorem copy_driver_state_frame (h : heap) (a b : loc) :
  is_target h a = true -> is_target h b = true ->
  exists h',
    Target.copy_driver_state b (VRef a) h = (Ok tt, h')
    /\ (forall name, name ∈ driver_state -> attr h' b name = attr h a name)
    /\ (forall name, name ∉ driver_state -> attr h' b name = attr h b name)
    /\ list_items h' (attr h' b "exp_times") = list_items h (attr h b "exp_times")
    /\ (forall l, l <> b -> h' !! l = h !! l)
    /\ h' !! a = h !! a.
Proof.
  intros Ha Hb. destruct (decide (a = b)) as [->|Hne].
  - exists h. rewrite copy_driver_state_self by assumption. repeat split; auto.
  - destruct (is_target_object _ _ Hb) as [d Hd].
    destruct (is_target_attr h a "alt_rad" Ha) as [v1 H1]; [field_in|].
    destruct (is_target_attr h a "az_rad" Ha) as [v2 H2]; [field_in|].
    destruct (is_target_attr h a "rot_rad" Ha) as [v3 H3]; [field_in|].
    destruct (is_target_attr h a "telalt_rad" Ha) as [v4 H4]; [field_in|].
    destruct (is_target_attr h a "telaz_rad" Ha) as [v5 H5]; [field_in|].
    destruct (is_target_attr h a "telrot_rad" Ha) as [v6 H6]; [field_in|].
    destruct (is_target_attr h a "ang_rad" Ha) as [v7 H7]; [field_in|].
    pose proof (lookup_lt_Some _ _ _ Hd) as Hlt.
    eexists. split.
    { eapply copy_driver_state_other; eauto. }
    split; [|split; [|split; [|split]]].
    + intros name Hin. rewrite attr_insert by assumption.
      unfold driver_state in Hin.
      repeat (apply elem_of_cons in Hin as [->|Hin];
              [rewrite !dict_get_set; simpl; congruence|]).
      inversion Hin.
    + intros name Hout. rewrite attr_insert by assumption.
      unfold driver_state in Hout.
      repeat (apply not_elem_of_cons in Hout as [? Hout]).
      rewrite !dict_get_set_ne by congruence.
      symmetry. now apply attr_lookup.
    + rewrite attr_insert by assumption.
      rewrite !dict_get_set_ne by discriminate.
      rewrite (attr_lookup _ _ _ _ Hd).
      eapply list_items_insert_target; eauto.
    + intros l Hl. now rewrite list_lookup_insert_ne.
    + now rewrite list_lookup_insert_ne.
Qed.

Definition store0 : heap :=
  [ OTarget [("targetid", VInt 7); ("fieldid", VInt 3); ("filter", VStr "r");
             ("ra_rad", VFloat 0.5); ("dec_rad", VFloat (-0.25));
             ("ang_rad", VFloat 1); ("num_exp", VInt 2);
             ("exp_times", VRef 1%nat); ("_exp_time", VFloat 40);
             ("time", VFloat 100); ("airmass", VFloat 1.5);
             ("sky_brightness", VFloat 21); ("cloud", VFloat 0);
             ("seeing", VFloat 0.75);
             ("alt_rad", VFloat 1.25); ("az_rad", VFloat 2);
             ("rot_rad", VFloat 0.125); ("telalt_rad", VFloat 1.25);
             ("telaz_rad", VFloat 2); ("telrot_rad", VFloat 0.125);
             ("slewtime", VFloat 4.5); ("note", VStr "deep")];
    OList [VFloat 15; VFloat 15];
    OTarget [("targetid", VInt 8); ("fieldid", VInt 0); ("filter", VStr "g");
             ("ra_rad", VFloat 0); ("dec_rad", VFloat 0);
             ("ang_rad", VFloat 0); ("num_exp", VInt 0);
             ("exp_times", VRef 3%nat); ("_exp_time", VNone);
             ("time", VFloat 0); ("airmass", VFloat 0);
             ("sky_brightness", VFloat 0); ("cloud", VFloat 0);
             ("seeing", VFloat 0);
             ("alt_rad", VFloat 0); ("az_rad", VFloat 0);
             ("rot_rad", VFloat 0); ("telalt_rad", VFloat 0);
             ("telaz_rad", VFloat 0); ("telrot_rad", VFloat 0);
             ("slewtime", VFloat 0); ("note", VStr "")];
    OList [] ].

Lemma copy_driver_state_frame_witness :
  exists h',
    Target.copy_driver_state 2%nat (VRef 0%nat) store0 = (Ok tt, h')
    /\ (forall name, name ∈ driver_state -> attr h' 2%nat name = attr store0 0%nat name)
    /\ (forall name, name ∉ driver_state -> attr h' 2%nat name = attr store0 2%nat name)
    /\ list_items h' (attr h' 2%nat "exp_times")
       = list_items store0 (attr store0 2%nat "exp_times")
    /\ (forall l, l <> 2%nat -> h' !! l = store0 !! l)
    /\ h' !! 0%nat = store0 !! 0%nat.
Proof.
  apply (copy_driver_state_frame store0 0%nat 2%nat); reflexivity.
Defined.

(** ** Running the primitives on a store that has grown *)

Lemma lookup_new (h : heap) o rest : (h ++ o :: rest) !! List.length h = Some o.
Proof. apply list_lookup_middle. reflexivity. Qed.

Lemma lookup_new2 (h : heap) o1 o2 :
  (h ++ [o1; o2]) !! S (List.length h) = Some o2.
Proof.
  rewrite lookup_app_r by lia.
  now replace (S (List.length h) - List.length h)%nat with 1%nat by lia.
Qed.

Lemma insert_new (h : heap) o o' rest :
  <[List.length h := o']> (h ++ o :: rest) = h ++ o' :: rest.
Proof.
  rewrite <- (Nat.add_0_r (List.length h)) at 1. now rewrite insert_app_r.
Qed.

Lemma store_attr_new (h : heap) d rest name v :
  store_attr (List.length h) name v (h ++ OTarget d :: rest)
  = (Ok tt, h ++ OTarget (dict_set d name v) :: rest).
Proof. unfold store_attr. now rewrite lookup_new, insert_new. Qed.

Lemma attr_new (h : heap) d rest name :
  attr (h ++ OTarget d :: rest) (List.length h) name = dict_get d name.
Proof. apply attr_lookup, lookup_new. Qed.

Lemma attr_old (h ext : heap) t name :
  (t < List.length h)%nat -> attr (h ++ ext) t name = attr h t name.
Proof. intros Hlt. unfold attr. now rewrite lookup_app_l. Qed.

Lemma attr_lt (h : heap) t name v : attr h t name = Some v -> (t < List.length h)%nat.
Proof.
  intros Hv. destruct (attr_is_object _ _ _ _ Hv) as [d Hd].
  eauto using lookup_lt_Some.
Qed.

Lemma load_attr_old (h ext : heap) t name v :
  attr h t name = Some v ->
  load_attr (VRef t) name (h ++ ext) = (Ok v, h ++ ext).
Proof.
  intros Hv. apply load_attr_run. rewrite attr_old; eauto using attr_lt.
Qed.

Lemma alloc_ext (h ext : heap) o :
  alloc o (h ++ ext) = (Ok ((List.length h + List.length ext)%nat), h ++ (ext ++ [o])).
Proof. unfold alloc. now rewrite length_app, app_assoc. Qed.

Lemma py_iter_pure v (h h' : heap) xs : py_iter v h = (Ok xs, h') -> h' = h.
Proof.
  unfold py_iter. destruct v; try discriminate.
  - now intros [= _ <-].
  - destruct (h !! r) as [[]|]; try discriminate; now intros [= _ <-].
Qed.

Lemma py_iter_ext v (h ext : heap) xs :
  py_iter v h = (Ok xs, h) -> py_iter v (h ++ ext) = (Ok xs, h ++ ext).
Proof.
  unfold py_iter. destruct v; try discriminate.
  - now intros [= <-].
  - destruct (h !! r) as [o|] eqn:E; [|discriminate].
    rewrite (lookup_app_l_Some _ _ _ _ E).
    destruct o; try discriminate; now intros [= <-].
Qed.

Lemma py_list_ext v (h ext : heap) xs :
  py_iter v h = (Ok xs, h) ->
  py_list v (h ++ ext)
  = (Ok (VRef (List.length h + List.length ext)%nat), h ++ (ext ++ [OList xs])).
Proof.
  intros Hv. unfold py_list, mbind, M_bind, bind.
  rewrite (py_iter_ext _ _ _ _ Hv), alloc_ext. reflexivity.
Qed.

(** ** The constructor *)

(** The attribute dictionary that [__init__] leaves, given the list object
    it stored under [exp_times]. *)
Definition init_attrs
    (targetid fieldid band_filter ra_rad dec_rad ang_rad num_exp : option value)
    (l : value) : dict value :=
  [ ("targetid", default (VInt 0) targetid);
    ("fieldid", default (VInt 0) fieldid);
    ("filter", default (VStr "") band_filter);
    ("ra_rad", default (VFloat 0) ra_rad);
    ("dec_rad", default (VFloat 0) dec_rad);
    ("ang_rad", default (VFloat 0) ang_rad);
    ("num_exp", default (VInt 0) num_exp);
    ("exp_times", l); ("_exp_time", VNone);
    ("time", VFloat 0); ("airmass", VFloat 0); ("sky_brightness", VFloat 0);
    ("cloud", VFloat 0); ("seeing", VFloat 0);
    ("alt_rad", VFloat 0); ("az_rad", VFloat 0); ("rot_rad", VFloat 0);
    ("telalt_rad", VFloat 0); ("telaz_rad", VFloat 0); ("telrot_rad", VFloat 0);
    ("slewtime", VFloat 0); ("note", VStr "") ].

(** The items that [list(exp_times)] copies: those of the argument, or none
    when the argument is left to its default. *)
Definition arg_items (h : heap) (exp_times : option value) : result (list value) :=
  match exp_times with
  | Some v => fst (py_iter v h)
  | None => Ok []
  end.

Ltac dict_simpl := cbn [dict_set String.eqb Ascii.eqb Bool.eqb].

Lemma bind_run {A B} (m : M A) (k : A -> M B) (h h' : heap) a :
  m h = (Ok a, h') -> (m ≫= k) h = k a h'.
Proof. unfold mbind, M_bind, bind. now intros ->. Qed.

Ltac run_store :=
  erewrite bind_run by apply store_attr_new; cbv beta; dict_simpl.

Lemma init_list_run (h : heap) d a8 xs :
  arg_items h a8 = Ok xs ->
  match a8 with
  | Some v => py_list v
  | None => r ← alloc (OList []); ret (VRef r)
  end (h ++ [OTarget d])
  = (Ok (VRef (S (List.length h))), h ++ [OTarget d; OList xs]).
Proof.
  intros Hxs. unfold arg_items in Hxs. destruct a8 as [v|].
  - destruct (py_iter v h) as [res h'] eqn:E. simpl in Hxs. subst res.
    pose proof (py_iter_pure _ _ _ _ E) as ->.
    rewrite (py_list_ext _ _ _ _ E). simpl. now rewrite Nat.add_1_r.
  - injection Hxs as <-. unfold mbind, M_bind, bind. rewrite alloc_ext.
    simpl. now rewrite Nat.add_1_r.
Qed.

Lemma init_run (h : heap) a1 a2 a3 a4 a5 a6 a7 a8 xs :
  arg_items h a8 = Ok xs ->
  Target.__init__ (List.length h) a1 a2 a3 a4 a5 a6 a7 a8 (h ++ [OTarget []])
  = (Ok tt,
        h ++ [OTarget (init_attrs a1 a2 a3 a4 a5 a6 a7 (VRef (S (List.length h))));
              OList xs]).
Proof.
  intros Hxs. unfold Target.__init__.
  do 7 run_store.
  erewrite bind_run by (apply init_list_run; eassumption). cbv beta.
  do 14 run_store.
  rewrite store_attr_new. dict_simpl. reflexivity.
Qed.

Lemma new_run (h : heap) a1 a2 a3 a4 a5 a6 a7 a8 xs :
  arg_items h a8 = Ok xs ->
  Target.new a1 a2 a3 a4 a5 a6 a7 a8 h
  = (Ok (List.length h),
        h ++ [OTarget (init_attrs a1 a2 a3 a4 a5 a6 a7 (VRef (S (List.length h))));
              OList xs]).
Proof.
  intros Hxs. unfold Target.new.
  erewrite bind_run by reflexivity.
  erewrite bind_run by (apply init_run; eassumption).
  reflexivity.
Qed.

(** The attributes that [__init__] sets to [0.0] whatever its arguments. *)
Definition zero_fields : list string :=
  ["time"; "airmass"; "sky_brightness"; "cloud"; "seeing";
   "alt_rad"; "az_rad"; "rot_rad"; "telalt_rad"; "telaz_rad"; "telrot_rad";
   "slewtime"].

Lemma init_attrs_zero a1 a2 a3 a4 a5 a6 a7 l name :
  name ∈ zero_fields ->
  dict_get (init_attrs a1 a2 a3 a4 a5 a6 a7 l) name = Some (VFloat 0).
Proof.
  unfold zero_fields. intros Hin.
  repeat (apply elem_of_cons in Hin as [->|Hin]; [reflexivity|]).
  inversion Hin.
Qed.

Lemma init_attrs_fields a1 a2 a3 a4 a5 a6 a7 l name :
  name ∈ field_names ->
  is_some (dict_get (init_attrs a1 a2 a3 a4 a5 a6 a7 l) name) = true.
Proof.
  unfold field_names. intros Hin.
  repeat (apply elem_of_cons in Hin as [->|Hin]; [reflexivity|]).
  inversion Hin.
Qed.

Lemma is_target_intro (h : heap) t d r xs :
  h !! t = Some (OTarget d) ->
  (forall name, name ∈ field_names -> is_some (dict_get d name) = true) ->
  dict_get d "exp_times" = Some (VRef r) ->
  h !! r = Some (OList xs) ->
  is_target h t = true.
Proof.
  intros Ht Hall He Hr. unfold is_target. apply andb_true_intro. split.
  - apply forallb_forall. intros name Hin.
    rewrite (attr_lookup _ _ _ _ Ht). apply Hall. now apply list_elem_of_In.
  - rewrite (attr_lookup _ _ _ _ Ht), He. simpl. now rewrite Hr.
Qed.

(** C8. [Target(...)] with an iterable [exp_times] argument whose items are
    [xs] (or with the argument omitted, [xs = []]) returns a new instance
    whose [exp_times] is a new list object holding [xs]: it is none of the
    objects that existed before the call, so whatever is later written to
    the caller's sequence, the instance still reads [xs].  The seven other
    parameters are stored as given, or as [0], [0.0] and the empty string when
    omitted; the override [_exp_time] is [None], the conditions and
    driver results are [0.0] and the note is empty. *)
Theorem constructor_copies_exp_times (h : heap)
    (targetid fieldid band_filter ra_rad dec_rad ang_rad num_exp exp_times : option value)
    (xs : list value) :
  arg_items h exp_times = Ok xs ->
  exists t r' h',
    Target.new targetid fieldid band_filter ra_rad dec_rad ang_rad num_exp exp_times h
      = (Ok t, h')
    /\ is_target h' t = true
    /\ attr h' t "exp_times" = Some (VRef r')
    /\ h' !! r' = Some (OList xs)
    /\ (List.length h <= t)%nat /\ (List.length h <= r')%nat
    /\ (forall l, (l < List.length h)%nat -> h' !! l = h !! l)
    /\ (forall l o, (l < List.length h)%nat ->
          list_items (<[l := o]> h') (attr (<[l := o]> h') t "exp_times") = Some xs)
    /\ attr h' t "targetid" = Some (default (VInt 0) targetid)
    /\ attr h' t "fieldid" = Some (default (VInt 0) fieldid)
    /\ attr h' t "filter" = Some (default (VStr "") band_filter)
    /\ attr h' t "ra_rad" = Some (default (VFloat 0) ra_rad)
    /\ attr h' t "dec_rad" = Some (default (VFloat 0) dec_rad)
    /\ attr h' t "ang_rad" = Some (default (VFloat 0) ang_rad)
    /\ attr h' t "num_exp" = Some (default (VInt 0) num_exp)
    /\ attr h' t "_exp_time" = Some VNone
    /\ (forall name, name ∈ zero_fields -> attr h' t name = Some (VFloat 0))
    /\ attr h' t "note" = Some (VStr "").
Proof.
  intros Hxs.
  exists (List.length h), (S (List.length h)). eexists.
  split; [apply new_run; eassumption|].
  pose proof (fun d => lookup_new2 h (OTarget d) (OList xs)) as Hr.
  split.
  { eapply is_target_intro.
    - apply lookup_new.
    - apply init_attrs_fields.
    - reflexivity.
    - apply Hr. }
  rewrite !attr_new.
  split; [reflexivity|]. split; [apply Hr|].
  split; [lia|]. split; [lia|].
  split; [intros l Hl; now apply lookup_app_l|].
  split.
  { intros l o Hl.
    rewrite insert_app_l by assumption.
    rewrite <- (length_insert h l o).
    rewrite attr_new. simpl. now rewrite lookup_new2. }
  repeat (split; [reflexivity|]).
  split; [|reflexivity].
  intros name Hin. rewrite attr_new. now apply init_attrs_zero.
Qed.

Lemma constructor_copies_exp_times_witness :
  exists t r' h',
    Target.new (Some (VInt 9)) None (Some (VStr "i")) None None None
               (Some (VInt 2)) (Some (VRef 1%nat)) store0 = (Ok t, h')
    /\ is_target h' t = true
    /\ attr h' t "exp_times" = Some (VRef r')
    /\ h' !! r' = Some (OList [VFloat 15; VFloat 15])
    /\ (List.length store0 <= t)%nat /\ (List.length store0 <= r')%nat
    /\ (forall l, (l < List.length store0)%nat -> h' !! l = store0 !! l)
    /\ (forall l o, (l < List.length store0)%nat ->
          list_items (<[l := o]> h') (attr (<[l := o]> h') t "exp_times")
          = Some [VFloat 15; VFloat 15])
    /\ attr h' t "targetid" = Some (VInt 9)
    /\ attr h' t "fieldid" = Some (VInt 0)
    /\ attr h' t "filter" = Some (VStr "i")
    /\ attr h' t "ra_rad" = Some (VFloat 0)
    /\ attr h' t "dec_rad" = Some (VFloat 0)
    /\ attr h' t "ang_rad" = Some (VFloat 0)
    /\ attr h' t "num_exp" = Some (VInt 2)
    /\ attr h' t "_exp_time" = Some VNone
    /\ (forall name, name ∈ zero_fields -> attr h' t name = Some (VFloat 0))
    /\ attr h' t "note" = Some (VStr "").
Proof.
  apply (constructor_copies_exp_times store0 (Some (VInt 9)) None (Some (VStr "i"))
           None None None (Some (VInt 2)) (Some (VRef 1%nat))).
  reflexivity.
Defined.

(** ** from_topic *)

Lemma math_radians_run v x (h : heap) :
  as_double v = Ok x -> math_radians v h = (Ok (VFloat (radians x)), h).
Proof. intros Hx. unfold math_radians, mbind, M_bind, bind, lift. now rewrite Hx. Qed.

Lemma math_degrees_run v x (h : heap) :
  as_double v = Ok x -> math_degrees v h = (Ok (VFloat (degrees x)), h).
Proof. intros Hx. unfold math_degrees, mbind, M_bind, bind, lift. now rewrite Hx. Qed.

Lemma from_topic_run (h : heap) (topic : SALPY_scheduler.targetC) x y z xs :
  as_double (SALPY_scheduler.ra topic) = Ok x ->
  as_double (SALPY_scheduler.decl topic) = Ok y ->
  as_double (SALPY_scheduler.skyAngle topic) = Ok z ->
  py_iter (SALPY_scheduler.exposureTimes topic) h = (Ok xs, h) ->
  Target.from_topic topic h
  = (Ok (List.length h),
        h ++ [OTarget (init_attrs
                (Some (SALPY_scheduler.targetId topic)) (Some (VInt (-1)))
                (Some (SALPY_scheduler.filter topic))
                (Some (VFloat (radians x))) (Some (VFloat (radians y)))
                (Some (VFloat (radians z)))
                (Some (SALPY_scheduler.numExposures topic))
                (VRef (S (List.length h))));
              OList xs]).
Proof.
  intros Hx Hy Hz Hxs. unfold Target.from_topic.
  erewrite bind_run by (apply math_radians_run; eassumption).
  erewrite bind_run by (apply math_radians_run; eassumption).
  erewrite bind_run by (apply math_radians_run; eassumption).
  apply new_run. simpl. now rewrite Hxs.
Qed.

(** C7. For a topic whose [ra], [decl] and [skyAngle] are numbers [x], [y],
    [z] and whose [exposureTimes] iterates over [xs], [from_topic] returns a
    new Target with the topic's [targetId], [filter] and [numExposures],
    [fieldid = -1], the three angles converted to radians and [exp_times] a
    list holding [xs]; 45, -30 and 90 degrees give pi/4, -pi/6 and pi/2. *)
Theorem from_topic_fields (h : heap) (topic : SALPY_scheduler.targetC) x y z xs :
  as_double (SALPY_scheduler.ra topic) = Ok x ->
  as_double (SALPY_scheduler.decl topic) = Ok y ->
  as_double (SALPY_scheduler.skyAngle topic) = Ok z ->
  py_iter (SALPY_scheduler.exposureTimes topic) h = (Ok xs, h) ->
  (exists t h',
    Target.from_topic topic h = (Ok t, h')
    /\ is_target h' t = true
    /\ attr h' t "targetid" = Some (SALPY_scheduler.targetId topic)
    /\ attr h' t "fieldid" = Some (VInt (-1))
    /\ attr h' t "filter" = Some (SALPY_scheduler.filter topic)
    /\ attr h' t "ra_rad" = Some (VFloat (radians x))
    /\ attr h' t "dec_rad" = Some (VFloat (radians y))
    /\ attr h' t "ang_rad" = Some (VFloat (radians z))
    /\ attr h' t "num_exp" = Some (SALPY_scheduler.numExposures topic)
    /\ list_items h' (attr h' t "exp_times") = Some xs)
  /\ radians 45 = (pi / 4)%float
  /\ radians (-30) = (- pi / 6)%float
  /\ radians 90 = (pi / 2)%float.
Proof.
  intros Hx Hy Hz Hxs. split; [|repeat split; reflexivity].
  eexists _, _. split; [eapply from_topic_run; eassumption|].
  split.
  { eapply is_target_intro.
    - apply lookup_new.
    - apply init_attrs_fields.
    - reflexivity.
    - apply lookup_new2. }
  rewrite !attr_new. repeat (split; [reflexivity|]).
  simpl. now rewrite lookup_new2.
Qed.

Definition topic0 : SALPY_scheduler.targetC :=
  {| SALPY_scheduler.targetId := VInt 12;
     SALPY_scheduler.filter := VStr "z";
     SALPY_scheduler.ra := VFloat 45;
     SALPY_scheduler.decl := VFloat (-30);
     SALPY_scheduler.skyAngle := VFloat 90;
     SALPY_scheduler.numExposures := VInt 2;
     SALPY_scheduler.exposureTimes := VRef 1%nat |}.

Lemma from_topic_fields_witness :
  (exists t h',
    Target.from_topic topic0 store0 = (Ok t, h')
    /\ is_target h' t = true
    /\ attr h' t "targetid" = Some (VInt 12)
    /\ attr h' t "fieldid" = Some (VInt (-1))
    /\ attr h' t "filter" = Some (VStr "z")
    /\ attr h' t "ra_rad" = Some (VFloat (radians 45))
    /\ attr h' t "dec_rad" = Some (VFloat (radians (-30)))
    /\ attr h' t "ang_rad" = Some (VFloat (radians 90))
    /\ attr h' t "num_exp" = Some (VInt 2)
    /\ list_items h' (attr h' t "exp_times") = Some [VFloat 15; VFloat 15])
  /\ radians 45 = (pi / 4)%float
  /\ radians (-30) = (- pi / 6)%float
  /\ radians 90 = (pi / 2)%float.
Proof.
  apply (from_topic_fields store0 topic0 45 (-30) 90 [VFloat 15; VFloat 15]);
    reflexivity.
Defined.

(** What a computation returns or raises, whatever the store. *)
Definition outcome {A} (r : result A * heap) : result A := fst r.

Lemma exp_time_unset_run (h : heap) t r xs :
  attr h t "_exp_time" = Some VNone ->
  attr h t "exp_times" = Some (VRef r) ->
  h !! r = Some (OList xs) ->
  Target.exp_time t h = lift (sum_from (VInt 0) xs) h.
Proof.
  intros Ho He Hr. unfold Target.exp_time.
  erewrite bind_run by (apply load_attr_run; eassumption). cbv beta iota.
  erewrite bind_run by (apply load_attr_run; eassumption).
  unfold py_sum. erewrite bind_run; [reflexivity|].
  unfold py_iter. now rewrite Hr.
Qed.

Lemma py_sum_outcome (h : heap) v xs :
  py_iter v h = (Ok xs, h) -> outcome (py_sum v h) = sum_from (VInt 0) xs.
Proof.
  intros Hv. unfold py_sum. erewrite bind_run by eassumption.
  unfold lift. now destruct (sum_from _ _).
Qed.

(** C10. The Target that [from_topic] returns has the conditions, the
    driver results and the slew time at [0.0], an empty note and no override
    of the exposure time, and its [exp_time] is [sum] of the topic's
    exposure times (the same value, or the same exception). *)
Theorem from_topic_defaults (h : heap) (topic : SALPY_scheduler.targetC) x y z xs :
  as_double (SALPY_scheduler.ra topic) = Ok x ->
  as_double (SALPY_scheduler.decl topic) = Ok y ->
  as_double (SALPY_scheduler.skyAngle topic) = Ok z ->
  py_iter (SALPY_scheduler.exposureTimes topic) h = (Ok xs, h) ->
  exists t h',
    Target.from_topic topic h = (Ok t, h')
    /\ (forall name, name ∈ zero_fields -> attr h' t name = Some (VFloat 0))
    /\ attr h' t "note" = Some (VStr "")
    /\ attr h' t "_exp_time" = Some VNone
    /\ outcome (Target.exp_time t h')
       = outcome (py_sum (SALPY_scheduler.exposureTimes topic) h).
Proof.
  intros Hx Hy Hz Hxs.
  eexists _, _. split; [eapply from_topic_run; eassumption|].
  split; [intros name Hin; rewrite attr_new; now apply init_attrs_zero|].
  rewrite !attr_new. split; [reflexivity|]. split; [reflexivity|].
  rewrite (py_sum_outcome _ _ _ Hxs).
  rewrite (exp_time_unset_run _ _ (S (List.length h)) xs).
  - unfold lift. now destruct (sum_from _ _).
  - rewrite attr_new. reflexivity.
  - rewrite attr_new. reflexivity.
  - apply lookup_new2.
Qed.

Lemma from_topic_defaults_witness :
  exists t h',
    Target.from_topic topic0 store0 = (Ok t, h')
    /\ (forall name, name ∈ zero_fields -> attr h' t name = Some (VFloat 0))
    /\ attr h' t "note" = Some (VStr "")
    /\ attr h' t "_exp_time" = Some VNone
    /\ outcome (Target.exp_time t h')
       = outcome (py_sum (VRef 1%nat) store0).
Proof.
  apply (from_topic_defaults store0 topic0 45 (-30) 90 [VFloat 15; VFloat 15]);
    reflexivity.
Defined.

(** ** exp_time *)

Lemma exp_time_set_run (h : heap) t v :
  attr h t "_exp_time" = Some v -> v <> VNone ->
  Target.exp_time t h = (Ok v, h).
Proof.
  intros Ho Hv. unfold Target.exp_time.
  erewrite bind_run by (apply load_attr_run; eassumption).
  destruct v; try reflexivity. congruence.
Qed.

(** The store after [self.name = v] on an instance. *)
Lemma store_attr_spec (h : heap) t name v :
  is_target h t = true ->
  exists h',
    store_attr t name v h = (Ok tt, h')
    /\ attr h' t name = Some v
    /\ (forall name', name' <> name -> attr h' t name' = attr h t name')
    /\ (forall l, l <> t -> h' !! l = h !! l)
    /\ (forall x, list_items h' x = list_items h x)
    /\ List.length h' = List.length h.
Proof.
  intros Ht. destruct (is_target_object _ _ Ht) as [d Hd].
  pose proof (lookup_lt_Some _ _ _ Hd) as Hlt.
  eexists. split; [apply store_attr_run; eassumption|].
  split; [rewrite attr_insert by assumption; apply dict_get_set_eq|].
  split.
  { intros name' Hne. rewrite attr_insert by assumption.
    rewrite dict_get_set_ne by congruence. symmetry. now apply attr_lookup. }
  split; [intros l Hl; now rewrite list_lookup_insert_ne|].
  split; [intros x; eapply list_items_insert_target; eassumption|].
  apply length_insert.
Qed.

(** C2. Reading [exp_time] returns the override [_exp_time] when it is not
    [None], and otherwise [sum(exp_times)], which is [0] (equal to [0.0]) for
    an empty list.  The setter writes the override and nothing else, so that
    after writing [0] the property reads [0], and after writing [None] it
    reads the sum again. *)
Theorem exp_time_override (h : heap) (t : loc) (xs : list value) :
  is_target h t = true ->
  list_items h (attr h t "exp_times") = Some xs ->
  (forall v, attr h t "_exp_time" = Some v -> v <> VNone ->
     Target.exp_time t h = (Ok v, h))
  /\ (attr h t "_exp_time" = Some VNone ->
      Target.exp_time t h = lift (sum_from (VInt 0) xs) h)
  /\ (xs = [] -> sum_from (VInt 0) xs = Ok (VInt 0) /\ int_eq_float 0 0%float = true)
  /\ (forall v, exists h',
        Target.exp_time_setter t v h = (Ok tt, h')
        /\ attr h' t "_exp_time" = Some v
        /\ (forall name, name <> "_exp_time" -> attr h' t name = attr h t name)
        /\ (forall l, l <> t -> h' !! l = h !! l)
        /\ (v <> VNone -> Target.exp_time t h' = (Ok v, h'))
        /\ (v = VInt 0 -> Target.exp_time t h' = (Ok (VInt 0), h'))
        /\ (v = VNone -> Target.exp_time t h' = lift (sum_from (VInt 0) xs) h')).
Proof.
  intros Ht Hxs.
  destruct (is_target_exp_times _ _ Ht) as (r & ys & He & Hr).
  assert (ys = xs) as ->.
  { rewrite He in Hxs. simpl in Hxs. rewrite Hr in Hxs. congruence. }
  split; [intros v Ho Hv; now apply exp_time_set_run|].
  split; [intros Ho; eapply exp_time_unset_run; eassumption|].
  split; [intros ->; split; reflexivity|].
  intros v. unfold Target.exp_time_setter.
  destruct (store_attr_spec h t "_exp_time" v Ht)
    as (h' & Hrun & Hv & Hother & Hframe & Hitems & _).
  exists h'. split; [assumption|]. split; [assumption|].
  split; [assumption|]. split; [assumption|].
  assert (He' : attr h' t "exp_times" = Some (VRef r)).
  { rewrite Hother by discriminate. assumption. }
  assert (Hr' : h' !! r = Some (OList xs)).
  { specialize (Hitems (Some (VRef r))). simpl in Hitems. rewrite Hr in Hitems.
    destruct (h' !! r) as [[]|]; congruence. }
  split; [intros Hne; now apply exp_time_set_run|].
  split; [intros ->; now apply exp_time_set_run|].
  intros ->. eapply exp_time_unset_run; eassumption.
Qed.

Lemma exp_time_override_witness :
  (forall v, attr store0 0%nat "_exp_time" = Some v -> v <> VNone ->
     Target.exp_time 0%nat store0 = (Ok v, store0))
  /\ (attr store0 0%nat "_exp_time" = Some VNone ->
      Target.exp_time 0%nat store0
      = lift (sum_from (VInt 0) [VFloat 15; VFloat 15]) store0)
  /\ ([VFloat 15; VFloat 15] = [] ->
      sum_from (VInt 0) [VFloat 15; VFloat 15] = Ok (VInt 0)
      /\ int_eq_float 0 0%float = true)
  /\ (forall v, exists h',
        Target.exp_time_setter 0%nat v store0 = (Ok tt, h')
        /\ attr h' 0%nat "_exp_time" = Some v
        /\ (forall name, name <> "_exp_time" -> attr h' 0%nat name = attr store0 0%nat name)
        /\ (forall l, l <> 0%nat -> h' !! l = store0 !! l)
        /\ (v <> VNone -> Target.exp_time 0%nat h' = (Ok v, h'))
        /\ (v = VInt 0 -> Target.exp_time 0%nat h' = (Ok (VInt 0), h'))
        /\ (v = VNone -> Target.exp_time 0%nat h'
                         = lift (sum_from (VInt 0) [VFloat 15; VFloat 15]) h')).
Proof.
  apply (exp_time_override store0 0%nat [VFloat 15; VFloat 15]); reflexivity.
Defined.

Example exp_time_sum_example :
  sum_from (VInt 0) [VFloat 15; VFloat 15] = Ok (VFloat 30).
Proof. reflexivity. Qed.

(** ** get_copy *)

(** The attributes that [get_copy] assigns from [self] as they are. *)
Definition copied_fields : list string :=
  ["targetid"; "fieldid"; "filter"; "ra_rad"; "dec_rad"; "ang_rad"; "num_exp";
   "time"; "airmass"; "sky_brightness"; "cloud"; "seeing";
   "alt_rad"; "az_rad"; "rot_rad"; "telalt_rad"; "telaz_rad"; "telrot_rad";
   "slewtime"; "note"].

(** The attribute dictionary of the copy: each copied attribute read from
    the dictionary [d] of [self], [exp_times] the new list [l], and
    [_exp_time] as [__init__] left it. *)
Definition copy_attrs (d : dict value) (l : value) : dict value :=
  map (fun name =>
         (name,
          if String.eqb name "exp_times" then l
          else if String.eqb name "_exp_time" then VNone
          else default VNone (dict_get d name)))
      field_names.

Lemma get_copy_run (h : heap) t d r xs :
  h !! t = Some (OTarget d) ->
  (forall name, name ∈ field_names -> is_some (dict_get d name) = true) ->
  dict_get d "exp_times" = Some (VRef r) ->
  h !! r = Some (OList xs) ->
  Target.get_copy t h
  = (Ok (List.length h),
        h ++ [OTarget (copy_attrs d (VRef (S (S (List.length h)))));
              OList []; OList xs]).
Proof.
  intros Ht Hall He Hr.
  assert (Hget : forall name, name ∈ field_names ->
            attr h t name = Some (default VNone (dict_get d name))).
  { intros name Hin. rewrite (attr_lookup _ _ _ _ Ht).
    specialize (Hall name Hin). now destruct (dict_get d name). }
  unfold Target.get_copy.
  erewrite bind_run by (apply new_run; reflexivity). cbv beta.
  unfold init_attrs.
  do 7 (erewrite bind_run by (apply load_attr_old, Hget; field_in); cbv beta;
        erewrite bind_run by apply store_attr_new; cbv beta; dict_simpl).
  erewrite bind_run by (apply load_attr_old, Hget; field_in). cbv beta.
  rewrite He. simpl default.
  erewrite bind_run.
  2:{ apply py_list_ext. unfold py_iter. now rewrite Hr. }
  cbv beta. simpl List.length. simpl app.
  replace (List.length h + 2)%nat with (S (S (List.length h))) by lia.
  erewrite bind_run by apply store_attr_new. cbv beta. dict_simpl.
  do 13 (erewrite bind_run by (apply load_attr_old, Hget; field_in); cbv beta;
         erewrite bind_run by apply store_attr_new; cbv beta; dict_simpl).
  reflexivity.
Qed.

Lemma copy_attrs_copied d l name :
  name ∈ copied_fields ->
  dict_get (copy_attrs d l) name = Some (default VNone (dict_get d name)).
Proof.
  unfold copied_fields. intros Hin.
  repeat (apply elem_of_cons in Hin as [->|Hin]; [reflexivity|]).
  inversion Hin.
Qed.

Lemma copy_attrs_fields d l name :
  name ∈ field_names -> is_some (dict_get (copy_attrs d l) name) = true.
Proof.
  unfold field_names. intros Hin.
  repeat (apply elem_of_cons in Hin as [->|Hin]; [reflexivity|]).
  inversion Hin.
Qed.

Lemma copied_fields_are_fields name : name ∈ copied_fields -> name ∈ field_names.
Proof.
  unfold copied_fields. intros Hin.
  repeat (apply elem_of_cons in Hin as [->|Hin]; [field_in|]).
  inversion Hin.
Qed.

Lemma lookup_new3 (h : heap) o1 o2 o3 :
  (h ++ [o1; o2; o3]) !! S (S (List.length h)) = Some o3.
Proof.
  rewrite lookup_app_r by lia.
  now replace (S (S (List.length h)) - List.length h)%nat with 2%nat by lia.
Qed.

(** What [get_copy] does on every Target instance: the copy is a new
    instance with the twenty attributes of [copied_fields] equal to those of
    the original and [exp_times] a new list with the same items, sharing no
    list object with the original; the override [_exp_time] is not copied
    and stays [None]. *)
Lemma get_copy_spec (h : heap) (t : loc) :
  is_target h t = true ->
  exists c r' h',
    Target.get_copy t h = (Ok c, h')
    /\ is_target h' c = true
    /\ (List.length h <= c)%nat /\ (List.length h <= r')%nat
    /\ (forall name, name ∈ copied_fields -> attr h' c name = attr h t name)
    /\ attr h' c "exp_times" = Some (VRef r')
    /\ list_items h' (Some (VRef r')) = list_items h (attr h t "exp_times")
    /\ attr h' c "_exp_time" = Some VNone
    /\ (forall l, (l < List.length h)%nat -> h' !! l = h !! l)
    /\ (forall o name, attr (<[r' := o]> h') t name = attr h t name)
    /\ (forall o, list_items (<[r' := o]> h') (attr h t "exp_times")
                  = list_items h (attr h t "exp_times")).
Proof.
  intros Ht.
  destruct (is_target_object _ _ Ht) as [d Hd].
  destruct (is_target_exp_times _ _ Ht) as (r & xs & He & Hr).
  rewrite (attr_lookup _ _ _ _ Hd) in He.
  assert (Hall : forall name, name ∈ field_names -> is_some (dict_get d name) = true).
  { intros name Hin. destruct (is_target_attr _ _ _ Ht Hin) as [v Hv].
    rewrite (attr_lookup _ _ _ _ Hd) in Hv. now rewrite Hv. }
  pose proof (lookup_lt_Some _ _ _ Hd) as Hlt.
  pose proof (lookup_lt_Some _ _ _ Hr) as Hltr.
  exists (List.length h), (S (S (List.length h))). eexists.
  split; [eapply get_copy_run; eassumption|].
  split.
  { eapply is_target_intro.
    - apply lookup_new.
    - apply copy_attrs_fields.
    - reflexivity.
    - apply lookup_new3. }
  split; [lia|]. split; [lia|].
  split.
  { intros name Hin. rewrite attr_new, copy_attrs_copied by assumption.
    rewrite (attr_lookup _ _ _ _ Hd).
    specialize (Hall name (copied_fields_are_fields _ Hin)).
    now destruct (dict_get d name). }
  rewrite !attr_new. split; [reflexivity|].
  split.
  { simpl. rewrite lookup_new3, (attr_lookup _ _ _ _ Hd), He. simpl. now rewrite Hr. }
  split; [reflexivity|].
  split; [intros l Hl; now apply lookup_app_l|].
  split.
  { intros o name. unfold attr.
    rewrite list_lookup_insert_ne by lia. now rewrite lookup_app_l. }
  intros o. rewrite (attr_lookup _ _ _ _ Hd), He. simpl.
  rewrite list_lookup_insert_ne by lia. now rewrite lookup_app_l.
Qed.

Lemma list_append_run (h : heap) r xs x :
  h !! r = Some (OList xs) ->
  list_append (VRef r) x h = (Ok tt, <[r := OList (xs ++ [x])]> h).
Proof. unfold list_append. now intros ->. Qed.

Lemma list_setitem_run (h : heap) r xs i x :
  h !! r = Some (OList xs) -> (i < List.length xs)%nat ->
  list_setitem (VRef r) i x h = (Ok tt, <[r := OList (<[i := x]> xs)]> h).
Proof.
  unfold list_setitem. intros -> Hi. now destruct (decide (i < List.length xs)%nat).
Qed.

(** Appending to the [exp_times] of a copy: the copy's list grows, the
    original's list is as it was. *)
Lemma get_copy_then_append (h : heap) (t : loc) (x : value) :
  is_target h t = true ->
  exists c r' h1 h2 xs,
    Target.get_copy t h = (Ok c, h1)
    /\ attr h1 c "exp_times" = Some (VRef r')
    /\ list_append (VRef r') x h1 = (Ok tt, h2)
    /\ list_items h (attr h t "exp_times") = Some xs
    /\ list_items h2 (attr h2 t "exp_times") = Some xs
    /\ list_items h2 (attr h2 c "exp_times") = Some (xs ++ [x]).
Proof.
  intros Ht.
  destruct (get_copy_spec h t Ht)
    as (c & r' & h1 & Hrun & Hc & Hlc & Hlr & Hcopied & He & Hitems & _ & _ & Hattr & Hlist).
  destruct (is_target_exp_times _ _ Ht) as (r & xs & Her & Hr).
  assert (Hxs : list_items h (attr h t "exp_times") = Some xs).
  { rewrite Her. simpl. now rewrite Hr. }
  rewrite Hxs in Hitems, Hlist.
  assert (Hr' : h1 !! r' = Some (OList xs)).
  { simpl in Hitems. destruct (h1 !! r') as [[]|]; congruence. }
  exists c, r', h1, (<[r' := OList (xs ++ [x])]> h1), xs.
  split; [assumption|]. split; [assumption|].
  split; [now apply list_append_run|]. split; [assumption|].
  split.
  - rewrite Hattr. apply Hlist.
  - assert (Hne : r' <> c).
    { intros ->. destruct (attr_is_object _ _ _ _ He) as [d Hd]. congruence. }
    rewrite attr_insert_ne by assumption. rewrite He. simpl.
    rewrite list_lookup_insert_eq by eauto using lookup_lt_Some. reflexivity.
Qed.

(** C1. [get_copy] does not copy the override of the exposure time: the
    Target of [store0] has [exp_times = [15.0, 15.0]] and the override
    [40.0]; its copy has the same [exp_times] in a new list, but no
    override, so the original's [exp_time] is [40.0] and the copy's is
    [30.0]. *)
Theorem get_copy_drops_override :
  exists c h',
    Target.get_copy 0%nat store0 = (Ok c, h')
    /\ attr store0 0%nat "_exp_time" = Some (VFloat 40)
    /\ attr h' c "_exp_time" = Some VNone
    /\ list_items h' (attr h' c "exp_times") = Some [VFloat 15; VFloat 15]
    /\ Target.exp_time 0%nat store0 = (Ok (VFloat 40), store0)
    /\ Target.exp_time c h' = (Ok (VFloat 30), h').
Proof.
  eexists _, _. split; [vm_compute; reflexivity|].
  repeat split; vm_compute; reflexivity.
Qed.

(** ** json.loads: what it allocates *)

(** Induction on a JSON document, with the hypothesis for every item of an
    array and every member of an object. *)
Fixpoint json_ind (P : json -> Prop)
    (Hnull : P JNull) (Hbool : forall b, P (JBool b)) (Hint : forall z, P (JInt z))
    (Hfloat : forall f, P (JFloat f)) (Hstr : forall s, P (JStr s))
    (Harr : forall js, Forall P js -> P (JArr js))
    (Hobj : forall ms, Forall (fun kv => P (snd kv)) ms -> P (JObj ms))
    (j : json) : P j :=
  match j with
  | JNull => Hnull
  | JBool b => Hbool b
  | JInt z => Hint z
  | JFloat f => Hfloat f
  | JStr s => Hstr s
  | JArr js =>
      Harr js ((fix go (js : list json) : Forall P js :=
                  match js with
                  | [] => @List.Forall_nil _ P
                  | j :: js' =>
                      @List.Forall_cons _ P j js'
                        (json_ind P Hnull Hbool Hint Hfloat Hstr Harr Hobj j) (go js')
                  end) js)
  | JObj ms =>
      Hobj ms ((fix go (ms : list (string * json)) : Forall (fun kv => P (snd kv)) ms :=
                  match ms with
                  | [] => @List.Forall_nil _ _
                  | kv :: ms' =>
                      @List.Forall_cons _ (fun kv => P (snd kv)) kv ms'
                        (json_ind P Hnull Hbool Hint Hfloat Hstr Harr Hobj (snd kv)) (go ms')
                  end) ms)
  end.

(** The items of an array and the members of an object, loaded in order. *)
Fixpoint loads_items (js : list json) (h : heap) : list value * heap :=
  match js with
  | [] => ([], h)
  | j :: js' =>
      let '(v, h1) := loads j h in
      let '(vs, h2) := loads_items js' h1 in
      (v :: vs, h2)
  end.

Fixpoint loads_members (ms : list (string * json)) (h : heap)
  : list (string * value) * heap :=
  match ms with
  | [] => ([], h)
  | (k, j) :: ms' =>
      let '(v, h1) := loads j h in
      let '(kvs, h2) := loads_members ms' h1 in
      ((k, v) :: kvs, h2)
  end.

Lemma loads_arr js (h : heap) :
  loads (JArr js) h
  = let '(vs, h1) := loads_items js h in
    (VRef (List.length h1), h1 ++ [OList vs]).
Proof. reflexivity. Qed.

Lemma loads_obj ms (h : heap) :
  loads (JObj ms) h
  = let '(kvs, h1) := loads_members ms h in
    (VRef (List.length h1), h1 ++ [ODict (dict_of_pairs kvs)]).
Proof. reflexivity. Qed.

(** [json.loads] only adds objects to the store. *)
Lemma loads_extends j : forall h : heap, exists ext, snd (loads j h) = h ++ ext.
Proof.
  induction j as [| | | | |js IH|ms IH] using json_ind; intros h;
    try (exists []; simpl; now rewrite app_nil_r).
  - rewrite loads_arr.
    assert (Hitems : forall h : heap, exists ext, snd (loads_items js h) = h ++ ext).
    { clear h. induction IH as [|j js Hj _ IHjs]; intros h.
      - exists []. simpl. now rewrite app_nil_r.
      - simpl. destruct (Hj h) as [e1 He1].
        destruct (loads j h) as [v h1]. simpl in He1. subst h1.
        destruct (IHjs (h ++ e1)) as [e2 He2].
        destruct (loads_items js (h ++ e1)) as [vs h2]. simpl in *. subst h2.
        exists (e1 ++ e2). now rewrite app_assoc. }
    destruct (Hitems h) as [e He].
    destruct (loads_items js h) as [vs h1]. simpl in *. subst h1.
    eexists. now rewrite <- app_assoc.
  - rewrite loads_obj.
    assert (Hmem : forall h : heap, exists ext, snd (loads_members ms h) = h ++ ext).
    { clear h. induction IH as [|[k j] ms Hj _ IHms]; intros h.
      - exists []. simpl. now rewrite app_nil_r.
      - simpl in *. destruct (Hj h) as [e1 He1].
        destruct (loads j h) as [v h1]. simpl in He1. subst h1.
        destruct (IHms (h ++ e1)) as [e2 He2].
        destruct (loads_members ms (h ++ e1)) as [kvs h2]. simpl in *. subst h2.
        exists (e1 ++ e2). now rewrite app_assoc. }
    destruct (Hmem h) as [e He].
    destruct (loads_members ms h) as [kvs h1]. simpl in *. subst h1.
    eexists. now rewrite <- app_assoc.
Qed.

Lemma loads_members_extends ms : forall h : heap,
  exists ext, snd (loads_members ms h) = h ++ ext.
Proof.
  induction ms as [|[k j] ms IH]; intros h.
  - exists []. simpl. now rewrite app_nil_r.
  - simpl. destruct (loads_extends j h) as [e1 He1].
    destruct (loads j h) as [v h1]. simpl in He1. subst h1.
    destruct (IH (h ++ e1)) as [e2 He2].
    destruct (loads_members ms (h ++ e1)) as [kvs h2]. simpl in *. subst h2.
    exists (e1 ++ e2). now rewrite app_assoc.
Qed.

Lemma loads_members_keys ms : forall h : heap,
  map fst (fst (loads_members ms h)) = map fst ms.
Proof.
  induction ms as [|[k j] ms IH]; intros h; [reflexivity|].
  simpl. destruct (loads j h) as [v h1].
  specialize (IH h1). destruct (loads_members ms h1) as [kvs h2].
  simpl in *. now rewrite IH.
Qed.

(** Key presence only depends on the keys. *)
Lemma dict_has_keys {V W} (d : dict V) (d' : dict W) k :
  map fst d = map fst d' -> dict_has d k = dict_has d' k.
Proof.
  unfold dict_has. revert d'.
  induction d as [|[k0 v0] d IH]; intros [|[k1 v1] d'] Heq; try discriminate.
  - reflexivity.
  - simpl in *. injection Heq as -> Heq.
    destruct (String.eqb k1 k); [reflexivity|]. now apply IH.
Qed.

Lemma dict_has_set {V} (d : dict V) k v k' :
  dict_has (dict_set d k v) k' = String.eqb k k' || dict_has d k'.
Proof. unfold dict_has. rewrite dict_get_set. now destruct (String.eqb k k'). Qed.

Lemma dict_has_of_pairs {V} (ps : list (string * V)) k :
  dict_has (dict_of_pairs ps) k = dict_has ps k.
Proof.
  unfold dict_of_pairs.
  assert (H : forall acc : dict V,
             dict_has (fold_left (fun d kv => dict_set d (fst kv) (snd kv)) ps acc) k
             = dict_has acc k || dict_has ps k).
  { induction ps as [|[k0 v0] ps IH]; intros acc; simpl.
    - now rewrite orb_false_r.
    - rewrite IH, dict_has_set.
      assert (Hc : dict_has ((k0, v0) :: ps) k = String.eqb k0 k || dict_has ps k).
      { unfold dict_has. simpl. now destruct (String.eqb k0 k). }
      rewrite Hc.
      destruct (String.eqb k0 k), (dict_has acc k), (dict_has ps k); reflexivity. }
  apply H.
Qed.

(** ** from_json *)

(** The first mandatory field that a payload does not have. *)
Definition first_missing {V} (payload : dict V) : option string :=
  find (fun f => negb (dict_has payload f)) Target.mandatory_fields.

Definition check_field (jsondict : value) (f : string) : M unit :=
  keys ← dict_items jsondict;
  if dict_has keys f then ret tt
  else raise (KeyError (String.append Target.missing_msg f)).

Lemma check_loop (h : heap) jsondict d fields :
  dict_items jsondict h = (Ok d, h) ->
  for_each fields (check_field jsondict) h
  = match find (fun f => negb (dict_has d f)) fields with
    | Some f => (Raise (KeyError (String.append Target.missing_msg f)), h)
    | None => (Ok tt, h)
    end.
Proof.
  intros Hd. induction fields as [|f fields IH]; [reflexivity|].
  assert (Hf : check_field jsondict f h
               = if dict_has d f then (Ok tt, h)
                 else (Raise (KeyError (String.append Target.missing_msg f)), h)).
  { unfold check_field. erewrite bind_run by eassumption.
    now destruct (dict_has d f). }
  cbn [for_each find]. unfold mbind, M_bind, bind. rewrite Hf.
  destruct (dict_has d f); simpl; [exact IH|reflexivity].
Qed.

Lemma json_loads_obj (h : heap) ms :
  exists r d ext,
    json_loads (JObj ms) h = (Ok (VRef r), h ++ ext)
    /\ (h ++ ext) !! r = Some (ODict d)
    /\ d = dict_of_pairs (fst (loads_members ms h))
    /\ (List.length h <= r)%nat.
Proof.
  unfold json_loads. rewrite loads_obj.
  destruct (loads_members_extends ms h) as [e He].
  destruct (loads_members ms h) as [kvs h1]. simpl in He. subst h1.
  exists (List.length (h ++ e)), (dict_of_pairs kvs), (e ++ [ODict (dict_of_pairs kvs)]).
  rewrite app_assoc. split; [reflexivity|].
  split; [apply lookup_new|]. split; [reflexivity|].
  rewrite length_app. lia.
Qed.

Lemma loaded_dict_has (h : heap) ms k :
  dict_has (dict_of_pairs (fst (loads_members ms h))) k = dict_has ms k.
Proof.
  rewrite dict_has_of_pairs. apply dict_has_keys, loads_members_keys.
Qed.

Lemma find_pointwise {A} (p q : A -> bool) (l : list A) :
  (forall x, p x = q x) -> find p l = find q l.
Proof.
  intros Hpq. induction l as [|x l IH]; [reflexivity|].
  simpl. now rewrite Hpq, IH.
Qed.

Lemma from_json_unfold self jsonstr :
  Target.from_json self jsonstr
  = (jsondict ← json_loads jsonstr;
     for_each Target.mandatory_fields (check_field jsondict);;
     items ← dict_items jsondict;
     for_each items (fun kv => Target.setattr self (fst kv) (snd kv))).
Proof. reflexivity. Qed.

(** A payload that lacks a mandatory field: [KeyError] naming the first one
    missing, raised before anything is assigned. *)
Lemma from_json_missing_run (h : heap) t ms f :
  first_missing ms = Some f ->
  exists ext,
    Target.from_json t (JObj ms) h
    = (Raise (KeyError (String.append Target.missing_msg f)), h ++ ext).
Proof.
  intros Hf. destruct (json_loads_obj h ms) as (r & d & ext & Hl & Hr & Hd & Hle).
  exists ext. rewrite from_json_unfold.
  erewrite bind_run by eassumption.
  unfold mbind at 1, M_bind at 1, bind at 1.
  erewrite check_loop by (unfold dict_items; rewrite Hr; reflexivity).
  unfold first_missing in Hf.
  rewrite (find_pointwise _ (fun f => negb (dict_has ms f))), Hf; [reflexivity|].
  intros f'. subst d. now rewrite loaded_dict_has.
Qed.

Lemma dict_has_false {V} (d : dict V) k : k ∉ dict_keys d -> dict_has d k = false.
Proof. intros Hk. unfold dict_has. now rewrite dict_get_not_in_keys. Qed.

Lemma dict_has_true {V} (d : dict V) k : k ∈ dict_keys d <-> dict_has d k = true.
Proof.
  unfold dict_has. split.
  - intros [v ->]%dict_keys_in_get. reflexivity.
  - destruct (dict_get d k) eqn:E; [|discriminate].
    intros _. eauto using dict_get_in_keys.
Qed.

Lemma first_missing_exists {V} (payload : dict V) f :
  f ∈ Target.mandatory_fields -> f ∉ dict_keys payload ->
  exists f0, first_missing payload = Some f0.
Proof.
  intros Hin Hout. unfold first_missing.
  destruct (find _ _) as [f0|] eqn:E; [eauto|].
  apply find_none with (x := f) in E; [|now apply list_elem_of_In].
  rewrite dict_has_false in E by assumption. discriminate.
Qed.

Lemma first_missing_spec {V} (payload : dict V) f :
  first_missing payload = Some f ->
  f ∈ Target.mandatory_fields /\ f ∉ dict_keys payload.
Proof.
  unfold first_missing. intros [Hin Hf]%find_some.
  split; [now apply list_elem_of_In|].
  intros Hk%dict_has_true. rewrite Hk in Hf. discriminate.
Qed.

(** C9. When the payload (a JSON object) lacks a mandatory key, [from_json]
    raises the [KeyError] naming the first missing one and the Target is
    exactly as before: the same object with the same attributes, like every
    other object that existed before the call. *)
Theorem from_json_missing_is_atomic (h : heap) (t : loc) (ms : list (string * json)) :
  is_target h t = true ->
  (exists f, f ∈ Target.mandatory_fields /\ f ∉ dict_keys ms) ->
  exists f h',
    Target.from_json t (JObj ms) h
      = (Raise (KeyError (String.append Target.missing_msg f)), h')
    /\ first_missing ms = Some f
    /\ h' !! t = h !! t
    /\ (forall name, attr h' t name = attr h t name)
    /\ (forall l, (l < List.length h)%nat -> h' !! l = h !! l).
Proof.
  intros Ht (f & Hin & Hout).
  destruct (first_missing_exists ms f Hin Hout) as [f0 Hf0].
  destruct (from_json_missing_run h t ms f0 Hf0) as [ext Hrun].
  destruct (is_target_object _ _ Ht) as [d Hd].
  pose proof (lookup_lt_Some _ _ _ Hd) as Hlt.
  exists f0, (h ++ ext). split; [assumption|]. split; [assumption|].
  split; [now apply lookup_app_l|].
  split; [intros name; now apply attr_old|].
  intros l Hl. now apply lookup_app_l.
Qed.

Definition payload_no_ra : list (string * json) :=
  [ ("targetid", JInt 1); ("fieldid", JInt 2); ("filter", JStr "r");
    ("dec_rad", JFloat 0.25); ("ang_rad", JFloat 0);
    ("num_exp", JInt 2); ("exp_times", JArr [JFloat 15; JFloat 15]) ].

Lemma from_json_missing_is_atomic_witness :
  exists f h',
    Target.from_json 0%nat (JObj payload_no_ra) store0
      = (Raise (KeyError (String.append Target.missing_msg f)), h')
    /\ first_missing payload_no_ra = Some f
    /\ h' !! 0%nat = store0 !! 0%nat
    /\ (forall name, attr h' 0%nat name = attr store0 0%nat name)
    /\ (forall l, (l < List.length store0)%nat -> h' !! l = store0 !! l).
Proof.
  apply (from_json_missing_is_atomic store0 0%nat payload_no_ra).
  - reflexivity.
  - exists "ra_rad". split; [field_in|].
    unfold payload_no_ra, dict_keys. simpl.
    repeat (apply not_elem_of_cons; split; [discriminate|]).
    apply not_elem_of_nil.
Defined.

Example from_json_missing_ra_rad :
  fst (Target.from_json 0%nat (JObj payload_no_ra) store0)
  = Raise (KeyError
      "json blob passed to Target()'s json constructor is missing required attribute: ra_rad").
Proof. reflexivity. Qed.

(** ** json.dumps after json.loads *)

(** The nesting depth of a document, and the document that [json.loads]
    keeps of it: in every object a repeated key has its last value, at the
    place of its first occurrence. *)
Fixpoint depth (j : json) : nat :=
  match j with
  | JArr js => S (foldr (fun j n => Nat.max (depth j) n) O js)
  | JObj ms => S (foldr (fun kv n => Nat.max (depth (snd kv)) n) O ms)
  | _ => O
  end.

Fixpoint norm (j : json) : json :=
  match j with
  | JArr js => JArr (map norm js)
  | JObj ms => JObj (dict_of_pairs (map (fun kv => (fst kv, norm (snd kv))) ms))
  | _ => j
  end.

(** Two stores hold the same objects at the locations from [lo] up to [hi]. *)
Definition agree (lo hi : nat) (h1 h2 : heap) : Prop :=
  forall l, (lo <= l < hi)%nat -> h2 !! l = h1 !! l.

Lemma loads_items_extends js : forall h : heap,
  exists ext, snd (loads_items js h) = h ++ ext.
Proof.
  induction js as [|j js IH]; intros h.
  - exists []. simpl. now rewrite app_nil_r.
  - simpl. destruct (loads_extends j h) as [e1 He1].
    destruct (loads j h) as [v h1]. simpl in He1. subst h1.
    destruct (IH (h ++ e1)) as [e2 He2].
    destruct (loads_items js (h ++ e1)) as [vs h2]. simpl in *. subst h2.
    exists (e1 ++ e2). now rewrite app_assoc.
Qed.

Lemma agree_shrink (lo : nat) (h1 h2 : heap) ext lo' :
  agree lo (List.length (h1 ++ ext)) (h1 ++ ext) h2 -> (lo <= lo')%nat ->
  agree lo' (List.length h1) h1 h2.
Proof.
  intros Hag Hle l Hl. rewrite Hag.
  - now rewrite lookup_app_l by lia.
  - rewrite length_app. lia.
Qed.

Lemma agree_suffix (lo : nat) (h1 h2 : heap) ext lo' :
  agree lo (List.length (h1 ++ ext)) (h1 ++ ext) h2 -> (lo <= lo')%nat ->
  agree lo' (List.length (h1 ++ ext)) (h1 ++ ext) h2.
Proof. intros Hag Hle l Hl. apply Hag. lia. Qed.

Lemma rmap_Forall2 {A B} (f : A -> result B) (xs : list A) (ys : list B) :
  Forall2 (fun x y => f x = Ok y) xs ys -> rmap f xs = Ok ys.
Proof.
  induction 1 as [|x y xs ys Hxy _ IH]; [reflexivity|].
  simpl. now rewrite Hxy, IH.
Qed.

(** Related dictionaries stay related when a key is set on both sides. *)
Lemma Forall2_dict_set {V W} (R : V -> W -> Prop) (d : dict V) (d' : dict W) k v w :
  Forall2 (fun a b => fst a = fst b /\ R (snd a) (snd b)) d d' -> R v w ->
  Forall2 (fun a b => fst a = fst b /\ R (snd a) (snd b)) (dict_set d k v) (dict_set d' k w).
Proof.
  intros Hd Hvw. induction Hd as [|[k1 v1] [k2 w1] d d' [Hk Hr] Hd IH]; simpl in *.
  - constructor; [split; [reflexivity|assumption]|constructor].
  - subst k2. destruct (String.eqb k1 k).
    + constructor; [split; [reflexivity|assumption]|assumption].
    + constructor; [split; [reflexivity|assumption]|assumption].
Qed.

Lemma Forall2_dict_of_pairs {V W} (R : V -> W -> Prop) (ps : dict V) (qs : dict W) :
  Forall2 (fun a b => fst a = fst b /\ R (snd a) (snd b)) ps qs ->
  Forall2 (fun a b => fst a = fst b /\ R (snd a) (snd b))
          (dict_of_pairs ps) (dict_of_pairs qs).
Proof.
  unfold dict_of_pairs. intros H.
  assert (Hacc : Forall2 (fun (a : string * V) (b : string * W) =>
                   fst a = fst b /\ R (snd a) (snd b)) [] []) by constructor.
  revert Hacc. generalize (@nil (string * V)) (@nil (string * W)).
  induction H as [|[k1 v1] [k2 w1] ps qs [Hk Hr] _ IH]; intros a b Hab; simpl in *.
  - assumption.
  - subst k2. apply IH. now apply Forall2_dict_set.
Qed.

Definition dumps_loads_at (j : json) : Prop :=
  forall (h h2 : heap) n,
    (depth j <= n)%nat ->
    agree (List.length h) (List.length (snd (loads j h))) (snd (loads j h)) h2 ->
    dumps n h2 (fst (loads j h)) = Ok (norm j).

Lemma dumps_loads_items js :
  Forall dumps_loads_at js ->
  forall (h h2 : heap) n,
    (foldr (fun j n => Nat.max (depth j) n) O js <= n)%nat ->
    agree (List.length h) (List.length (snd (loads_items js h)))
          (snd (loads_items js h)) h2 ->
    Forall2 (fun v j' => dumps n h2 v = Ok j') (fst (loads_items js h)) (map norm js).
Proof.
  induction 1 as [|j js Hj _ IH]; intros h h2 n Hn Hag; [constructor|].
  simpl in *.
  destruct (loads_extends j h) as [e1 He1].
  specialize (Hj h h2 n).
  destruct (loads j h) as [v ha]. simpl in He1, Hj.
  destruct (loads_items_extends js ha) as [e2 He2].
  specialize (IH ha h2 n).
  destruct (loads_items js ha) as [vs hb]. simpl in *.
  subst hb. constructor.
  - apply Hj; [lia|]. eapply agree_shrink; [exact Hag|lia].
  - apply IH; [lia|]. subst ha. eapply agree_suffix; [exact Hag|].
    rewrite length_app. lia.
Qed.

Lemma dumps_loads_members ms :
  Forall (fun kv => dumps_loads_at (snd kv)) ms ->
  forall (h h2 : heap) n,
    (foldr (fun kv n => Nat.max (depth (snd kv)) n) O ms <= n)%nat ->
    agree (List.length h) (List.length (snd (loads_members ms h)))
          (snd (loads_members ms h)) h2 ->
    Forall2 (fun a b => fst a = fst b /\ dumps n h2 (snd a) = Ok (snd b))
            (fst (loads_members ms h))
            (map (fun kv => (fst kv, norm (snd kv))) ms).
Proof.
  induction 1 as [|[k j] ms Hj _ IH]; intros h h2 n Hn Hag; [constructor|].
  simpl in *.
  destruct (loads_extends j h) as [e1 He1].
  specialize (Hj h h2 n).
  destruct (loads j h) as [v ha]. simpl in He1, Hj.
  destruct (loads_members_extends ms ha) as [e2 He2].
  specialize (IH ha h2 n).
  destruct (loads_members ms ha) as [kvs hb]. simpl in *.
  subst hb. constructor.
  - split; [reflexivity|]. simpl.
    apply Hj; [lia|]. eapply agree_shrink; [exact Hag|lia].
  - apply IH; [lia|]. subst ha. eapply agree_suffix; [exact Hag|].
    rewrite length_app. lia.
Qed.

(** What [json.loads] builds serializes back to the (normalized) document,
    in every store that still holds the objects it allocated. *)
Lemma dumps_loads j : dumps_loads_at j.
Proof.
  induction j as [| | | | |js IH|ms IH] using json_ind;
    try (intros h h2 [|n] _ _; reflexivity).
  - intros h h2 n Hn Hag. rewrite loads_arr in *.
    pose proof (dumps_loads_items js IH h h2) as Hitems.
    destruct (loads_items_extends js h) as [e He].
    destruct (loads_items js h) as [vs h1]. simpl in *. subst h1.
    destruct n as [|n]; [lia|].
    assert (Hl : h2 !! List.length (h ++ e) = Some (OList vs)).
    { rewrite Hag; [apply lookup_new|]. rewrite !length_app. simpl. lia. }
    cbn [dumps fst]. rewrite Hl. erewrite rmap_Forall2; [reflexivity|].
    apply Hitems; [lia|].
    eapply agree_shrink; [exact Hag|lia].
  - intros h h2 n Hn Hag. rewrite loads_obj in *.
    pose proof (dumps_loads_members ms IH h h2) as Hmem.
    destruct (loads_members_extends ms h) as [e He].
    destruct (loads_members ms h) as [kvs h1]. simpl in *. subst h1.
    destruct n as [|n]; [lia|].
    assert (Hl : h2 !! List.length (h ++ e) = Some (ODict (dict_of_pairs kvs))).
    { rewrite Hag; [apply lookup_new|]. rewrite !length_app. simpl. lia. }
    cbn [dumps fst]. rewrite Hl. erewrite rmap_Forall2; [reflexivity|].
    specialize (Hmem n ltac:(lia)
                  ltac:(eapply agree_shrink; [exact Hag|lia])).
    apply (Forall2_dict_of_pairs (fun v j' => dumps n h2 v = Ok j')) in Hmem.
    eapply Forall2_impl; [exact Hmem|].
    intros [k v] [k' j'] [Hk Hd]. simpl in *. subst k'. now rewrite Hd.
Qed.

(** ** from_json: the assignments *)

(** A name that [setattr] stores in the instance dictionary: no property of
    the class, and none of [__dict__], [__class__], [__weakref__]. *)
Definition plain_key (k : string) : bool := negb (dict_has Target.descriptors k).

Lemma setattr_plain t k v :
  plain_key k = true -> Target.setattr t k v = store_attr t k v.
Proof.
  unfold plain_key, dict_has, Target.setattr.
  now destruct (dict_get Target.descriptors k).
Qed.

Definition set_all (d : dict value) (items : dict value) : dict value :=
  fold_left (fun d kv => dict_set d (fst kv) (snd kv)) items d.

Lemma assign_loop (items : dict value) : forall (h : heap) t d,
  (t < List.length h)%nat ->
  forallb plain_key (dict_keys items) = true ->
  for_each items (fun kv => Target.setattr t (fst kv) (snd kv)) (<[t := OTarget d]> h)
  = (Ok tt, <[t := OTarget (set_all d items)]> h).
Proof.
  induction items as [|[k v] items IH]; intros h t d Hlt Hplain; [reflexivity|].
  simpl in Hplain. apply andb_prop in Hplain as [Hk Hplain].
  cbn [for_each]. erewrite bind_run.
  2:{ simpl. rewrite setattr_plain by assumption. now apply store_attr_run_ins. }
  now apply IH.
Qed.

Lemma dict_get_app {V} (d1 d2 : dict V) k :
  dict_get (d1 ++ d2) k
  = match dict_get d1 k with Some v => Some v | None => dict_get d2 k end.
Proof.
  induction d1 as [|[k0 v0] d1 IH]; [reflexivity|].
  simpl. now destruct (String.eqb k0 k).
Qed.

(** After a run of assignments a key holds its last assigned value. *)
Lemma dict_get_fold_set {V} (items : dict V) : forall (d : dict V) k,
  dict_get (fold_left (fun d kv => dict_set d (fst kv) (snd kv)) items d) k
  = match dict_get (rev items) k with Some v => Some v | None => dict_get d k end.
Proof.
  induction items as [|[k0 v0] items IH]; intros d k; [reflexivity|].
  simpl. rewrite IH, dict_get_app, dict_get_set. simpl.
  destruct (dict_get (rev items) k); [reflexivity|].
  now destruct (String.eqb k0 k).
Qed.

Lemma dict_get_of_pairs {V} (ps : dict V) k :
  dict_get (dict_of_pairs ps) k = dict_get (rev ps) k.
Proof.
  unfold dict_of_pairs. rewrite dict_get_fold_set.
  now destruct (dict_get (rev ps) k).
Qed.

Lemma dict_keys_set {V} (d : dict V) k v :
  dict_keys (dict_set d k v)
  = if dict_has d k then dict_keys d else dict_keys d ++ [k].
Proof.
  unfold dict_keys, dict_has.
  induction d as [|[k0 v0] d IH]; [reflexivity|].
  simpl. destruct (String.eqb k0 k); [reflexivity|].
  simpl. rewrite IH. now destruct (dict_get d k).
Qed.

Lemma dict_set_NoDup {V} (d : dict V) k v :
  NoDup (dict_keys d) -> NoDup (dict_keys (dict_set d k v)).
Proof.
  intros Hd. rewrite dict_keys_set.
  destruct (dict_has d k) eqn:E; [assumption|].
  apply NoDup_app. split; [assumption|]. split.
  - intros x Hx Hk. apply list_elem_of_singleton in Hk as ->.
    apply dict_has_true in Hx. congruence.
  - apply NoDup_singleton.
Qed.

Lemma dict_of_pairs_NoDup {V} (ps : dict V) : NoDup (dict_keys (dict_of_pairs ps)).
Proof.
  unfold dict_of_pairs.
  assert (H : forall acc : dict V, NoDup (dict_keys acc) ->
            NoDup (dict_keys (fold_left (fun d kv => dict_set d (fst kv) (snd kv)) ps acc))).
  { induction ps as [|[k v] ps IH]; intros acc Hacc; [assumption|].
    simpl. apply IH. now apply dict_set_NoDup. }
  apply H. constructor.
Qed.

Lemma dict_get_rev {V} (d : dict V) k :
  NoDup (dict_keys d) -> dict_get (rev d) k = dict_get d k.
Proof.
  induction d as [|[k0 v0] d IH]; [reflexivity|].
  intros Hd. apply NoDup_cons in Hd as [Hk0 Hd].
  simpl. rewrite dict_get_app, IH by assumption. simpl.
  destruct (String.eqb k0 k) eqn:E.
  - apply String.eqb_eq in E. subst k0.
    now rewrite (dict_get_not_in_keys d k).
  - now destruct (dict_get d k).
Qed.

Lemma Forall2_dict_get {V W} (R : V -> W -> Prop) (d : dict V) (d' : dict W) k w :
  Forall2 (fun a b => fst a = fst b /\ R (snd a) (snd b)) d d' ->
  dict_get d' k = Some w ->
  exists v, dict_get d k = Some v /\ R v w.
Proof.
  induction 1 as [|[k1 v1] [k2 w1] d d' [Hk Hr] _ IH]; simpl in *; [discriminate|].
  subst k2. destruct (String.eqb k1 k); [|exact IH].
  intros [= <-]. eauto.
Qed.

Lemma find_first {A} (p : A -> bool) (l : list A) x :
  find p l = Some x ->
  exists pre post, l = pre ++ x :: post /\ forall y, y ∈ pre -> p y = false.
Proof.
  induction l as [|a l IH]; [discriminate|].
  simpl. destruct (p a) eqn:E.
  - intros [= ->]. exists [], l. split; [reflexivity|].
    intros y Hy. inversion Hy.
  - intros Hx. destruct (IH Hx) as (pre & post & -> & Hpre).
    exists (a :: pre), post. split; [reflexivity|].
    intros y Hy. apply elem_of_cons in Hy as [->|Hy]; auto.
Qed.

Lemma assign_loop_run (items : dict value) (h : heap) t d :
  h !! t = Some (OTarget d) ->
  forallb plain_key (dict_keys items) = true ->
  for_each items (fun kv => Target.setattr t (fst kv) (snd kv)) h
  = (Ok tt, <[t := OTarget (set_all d items)]> h).
Proof.
  intros Hd Hplain.
  pose proof (assign_loop items h t d (lookup_lt_Some _ _ _ Hd) Hplain) as H.
  now rewrite (list_insert_id h t (OTarget d) Hd) in H.
Qed.

Lemma dict_of_pairs_keys_plain {V} (ps : dict V) :
  forallb plain_key (dict_keys ps) = true ->
  forallb plain_key (dict_keys (dict_of_pairs ps)) = true.
Proof.
  rewrite !forallb_forall. intros Hps k Hk.
  apply Hps. apply list_elem_of_In. apply list_elem_of_In in Hk.
  apply dict_has_true. apply dict_has_true in Hk.
  now rewrite dict_has_of_pairs in Hk.
Qed.

(** A payload with every mandatory field and only plain keys: each member
    is assigned, in the order of the payload. *)
Lemma from_json_ok_run (h : heap) t dt ms :
  h !! t = Some (OTarget dt) ->
  first_missing ms = None ->
  forallb plain_key (dict_keys ms) = true ->
  exists ext,
    snd (loads (JObj ms) h) = h ++ ext
    /\ Target.from_json t (JObj ms) h
       = (Ok tt, <[t := OTarget
                   (set_all dt (dict_of_pairs (fst (loads_members ms h))))]> (h ++ ext)).
Proof.
  intros Ht Hf Hplain.
  destruct (json_loads_obj h ms) as (r & d & ext & Hl & Hr & Hd & Hle).
  exists ext. split.
  { unfold json_loads in Hl. destruct (loads (JObj ms) h). now injection Hl. }
  assert (Hitems : dict_items (VRef r) (h ++ ext) = (Ok d, h ++ ext)).
  { unfold dict_items. now rewrite Hr. }
  rewrite from_json_unfold.
  erewrite bind_run by eassumption.
  erewrite bind_run.
  2:{ erewrite check_loop by eassumption.
      rewrite (find_pointwise _ (fun f => negb (dict_has ms f))).
      - unfold first_missing in Hf. rewrite Hf. reflexivity.
      - intros f'. subst d. now rewrite loaded_dict_has. }
  erewrite bind_run by eassumption.
  subst d. apply assign_loop_run.
  - now apply lookup_app_l_Some.
  - apply dict_of_pairs_keys_plain.
    unfold dict_keys in *. now rewrite loads_members_keys.
Qed.

Lemma dict_get_map {V W} (g : V -> W) (d : dict V) k :
  dict_get (map (fun kv => (fst kv, g (snd kv))) d) k = (g <$> dict_get d k).
Proof.
  induction d as [|[k0 v0] d IH]; [reflexivity|].
  simpl. now destruct (String.eqb k0 k).
Qed.

Lemma Forall2_rev {A B} (R : A -> B -> Prop) (l : list A) (k : list B) :
  Forall2 R l k -> Forall2 R (rev l) (rev k).
Proof.
  induction 1 as [|x y l k Hxy _ IH]; [constructor|].
  simpl. apply Forall2_app; [assumption|]. now constructor.
Qed.

Definition payload_with_ra : list (string * json) :=
  [ ("targetid", JInt 1); ("fieldid", JInt 2); ("filter", JStr "r");
    ("ra_rad", JFloat 0.5); ("dec_rad", JFloat 0.25); ("ang_rad", JFloat 0);
    ("num_exp", JInt 2); ("exp_times", JArr [JFloat 15; JFloat 15]);
    ("ra", JStr "north") ].

(** C3, as stated, fails: this payload has every mandatory key, and an
    extra key [ra] that names a property of the class; [setattr] runs the
    property's setter, [math.radians("north")] raises [TypeError], and
    [from_json] does not succeed. *)
Lemma from_json_property_key_fails :
  first_missing payload_with_ra = None
  /\ fst (Target.from_json 2%nat (JObj payload_with_ra) store0) = Raise TypeError.
Proof. split; reflexivity. Qed.

(** What a successful [from_json] leaves on the instance. *)
Lemma from_json_ok_spec (h : heap) (t : loc) (ms : list (string * json)) :
  is_target h t = true ->
  first_missing ms = None -> forallb plain_key (dict_keys ms) = true ->
  exists h',
    Target.from_json t (JObj ms) h = (Ok tt, h')
    /\ (forall k j, dict_get (rev ms) k = Some j ->
          exists v, attr h' t k = Some v
                    /\ dumps (depth (JObj ms)) h' v = Ok (norm j))
    /\ (forall k, k ∉ dict_keys ms -> attr h' t k = attr h t k)
    /\ (forall l, (l < List.length h)%nat -> l <> t -> h' !! l = h !! l).
Proof.
  intros Ht. destruct (is_target_object _ _ Ht) as [dt Hdt].
  pose proof (lookup_lt_Some _ _ _ Hdt) as Hlt.
  intros Hf Hplain.
  destruct (from_json_ok_run h t dt ms Hdt Hf Hplain) as (ext & Hext & Hrun).
  eexists. split; [exact Hrun|].
  rewrite loads_obj in Hext.
  pose proof (dumps_loads_members ms) as Hmem.
  destruct (loads_members_extends ms h) as [e He].
  destruct (loads_members ms h) as [kvs hm] eqn:Elm. simpl in Hext, He |- *.
  subst hm.
  assert (Hlen : (t < List.length (h ++ ext))%nat) by (rewrite length_app; lia).
  assert (Hget : forall k, attr (<[t := OTarget (set_all dt (dict_of_pairs kvs))]> (h ++ ext)) t k
                 = match dict_get (rev kvs) k with
                   | Some v => Some v
                   | None => dict_get dt k
                   end).
  { intros k. rewrite attr_insert by assumption. unfold set_all.
    rewrite dict_get_fold_set, dict_get_rev by apply dict_of_pairs_NoDup.
    now rewrite dict_get_of_pairs. }
  split; [|split].
  + intros k j Hj. rewrite Hget.
    set (h' := <[t := OTarget (set_all dt (dict_of_pairs kvs))]> (h ++ ext)).
    specialize (Hmem ltac:(apply Forall_forall; intros; apply dumps_loads)
                  h h' (depth (JObj ms))).
    rewrite Elm in Hmem. simpl in Hmem.
    assert (Hag : agree (List.length h) (List.length (h ++ e)) (h ++ e) h').
    { intros l Hl. unfold h'. rewrite list_lookup_insert_ne by lia.
      rewrite <- Hext. now rewrite lookup_app_l by lia. }
    specialize (Hmem ltac:(lia) Hag).
    apply Forall2_rev in Hmem. rewrite <- map_rev in Hmem.
    eapply (Forall2_dict_get (fun v j' => dumps (depth (JObj ms)) h' v = Ok j'))
      with (k := k) (w := norm j) in Hmem.
    * destruct Hmem as (v & Hv & Hd). exists v. now rewrite Hv.
    * rewrite dict_get_map, Hj. reflexivity.
  + intros k Hk. rewrite Hget, (attr_lookup _ _ _ _ Hdt).
    rewrite (dict_get_not_in_keys (rev kvs)); [reflexivity|].
    intros Hin. apply Hk. unfold dict_keys in *.
    rewrite map_rev in Hin. apply list_elem_of_In, in_rev, list_elem_of_In in Hin.
    pose proof (loads_members_keys ms h) as Hkeys. rewrite Elm in Hkeys.
    simpl in Hkeys. now rewrite <- Hkeys.
  + intros l Hl Hne. rewrite list_lookup_insert_ne by congruence.
    now apply lookup_app_l.
Qed.

(** C3, amended. For a payload that is a JSON object: if a mandatory key is
    absent, [from_json] raises the [KeyError] naming the first absent one in
    the order of [mandatory_fields]; if none is absent and no key of the
    payload names a property or special attribute of the class, it succeeds
    and every key of the payload is an attribute of the instance whose
    value serializes to the payload's (last) member for that key, the
    attributes that the payload does not name being unchanged. *)
Theorem from_json_assigns (h : heap) (t : loc) (ms : list (string * json)) :
  is_target h t = true ->
  (forall f, first_missing ms = Some f ->
     (exists pre post, Target.mandatory_fields = pre ++ f :: post
                       /\ forall g, g ∈ pre -> g ∈ dict_keys ms)
     /\ (f ∉ dict_keys ms)
     /\ exists h', Target.from_json t (JObj ms) h
                   = (Raise (KeyError (String.append Target.missing_msg f)), h'))
  /\ (first_missing ms = None -> forallb plain_key (dict_keys ms) = true ->
      exists h',
        Target.from_json t (JObj ms) h = (Ok tt, h')
        /\ (forall k j, dict_get (rev ms) k = Some j ->
              exists v, attr h' t k = Some v
                        /\ dumps (depth (JObj ms)) h' v = Ok (norm j))
        /\ (forall k, k ∉ dict_keys ms -> attr h' t k = attr h t k)
        /\ (forall l, (l < List.length h)%nat -> l <> t -> h' !! l = h !! l)).
Proof.
  intros Ht. split.
  - intros f Hf. split; [|split].
    + unfold first_missing in Hf.
      destruct (find_first _ _ _ Hf) as (pre & post & Heq & Hpre).
      exists pre, post. split; [assumption|].
      intros g Hg. apply dict_has_true.
      specialize (Hpre g Hg). now destruct (dict_has ms g).
    + now apply first_missing_spec in Hf.
    + destruct (from_json_missing_run h t ms f Hf) as [ext Hrun]. eauto.
  - now apply from_json_ok_spec.
Qed.

Definition payload_extra : list (string * json) :=
  [ ("targetid", JInt 1); ("fieldid", JInt 2); ("filter", JStr "r");
    ("ra_rad", JFloat 0.5); ("dec_rad", JFloat 0.25); ("ang_rad", JFloat 0);
    ("num_exp", JInt 2); ("exp_times", JArr [JFloat 15; JFloat 15]);
    ("observer", JObj [("name", JStr "ops"); ("priority", JInt 3)]) ].

Lemma from_json_assigns_witness :
  (forall f, first_missing payload_extra = Some f ->
     (exists pre post, Target.mandatory_fields = pre ++ f :: post
                       /\ forall g, g ∈ pre -> g ∈ dict_keys payload_extra)
     /\ (f ∉ dict_keys payload_extra)
     /\ exists h', Target.from_json 2%nat (JObj payload_extra) store0
                   = (Raise (KeyError (String.append Target.missing_msg f)), h'))
  /\ (first_missing payload_extra = None ->
      forallb plain_key (dict_keys payload_extra) = true ->
      exists h',
        Target.from_json 2%nat (JObj payload_extra) store0 = (Ok tt, h')
        /\ (forall k j, dict_get (rev payload_extra) k = Some j ->
              exists v, attr h' 2%nat k = Some v
                        /\ dumps (depth (JObj payload_extra)) h' v = Ok (norm j))
        /\ (forall k, k ∉ dict_keys payload_extra ->
              attr h' 2%nat k = attr store0 2%nat k)
        /\ (forall l, (l < List.length store0)%nat -> l <> 2%nat ->
              h' !! l = store0 !! l)).
Proof.
  apply (from_json_assigns store0 2%nat payload_extra). reflexivity.
Defined.

Example from_json_extra_key :
  first_missing payload_extra = None
  /\ forallb plain_key (dict_keys payload_extra) = true
  /\ exists h', Target.from_json 2%nat (JObj payload_extra) store0 = (Ok tt, h')
       /\ attr h' 2%nat "targetid" = Some (VInt 1)
       /\ list_items h' (attr h' 2%nat "exp_times") = Some [VFloat 15; VFloat 15]
       /\ attr h' 2%nat "observer" = Some (VRef 5%nat)
       /\ h' !! 5%nat = Some (ODict [("name", VStr "ops"); ("priority", VInt 3)])
       /\ attr h' 2%nat "note" = Some (VStr "").
Proof.
  split; [reflexivity|]. split; [reflexivity|].
  eexists. split; [reflexivity|]. repeat split; reflexivity.
Qed.

(** ** to_json, then from_json *)

(** Values that are no references, and their JSON form. *)
Definition scalar (v : value) : bool :=
  match v with VRef _ => false | _ => true end.

Definition json_of_scalar (v : value) : json :=
  match v with
  | VBool b => JBool b
  | VInt z => JInt z
  | VFloat f => JFloat f
  | VStr s => JStr s
  | _ => JNull
  end.

(** An attribute value of the declared data model: a scalar ([None], bool,
    int, float, str) or a list of scalars. *)
Definition flat_value (h : heap) (v : value) : bool :=
  match v with
  | VRef r =>
      match h !! r with
      | Some (OList xs) => forallb scalar xs
      | _ => false
      end
  | _ => true
  end.

Definition json_of (h : heap) (v : value) : json :=
  match v with
  | VRef r =>
      match h !! r with
      | Some (OList xs) => JArr (map json_of_scalar xs)
      | _ => JNull
      end
  | _ => json_of_scalar v
  end.

Fixpoint nodupb (l : list string) : bool :=
  match l with
  | [] => true
  | x :: l' => negb (existsb (String.eqb x) l') && nodupb l'
  end.

(** A Target whose attribute dictionary is a proper dictionary (distinct
    keys, none of them the name of a descriptor of the class) and holds
    values of the declared data model. *)
Definition is_plain_target (h : heap) (t : loc) : bool :=
  is_target h t
  && match h !! t with
     | Some (OTarget d) =>
         nodupb (dict_keys d) && forallb plain_key (dict_keys d)
         && forallb (fun kv => flat_value h (snd kv)) d
     | _ => false
     end.

(** Two attribute values are the same: equal scalars, or lists with equal
    items. *)
Definition same_value (h : heap) (v : option value) (h' : heap) (v' : option value)
  : Prop :=
  match v with
  | Some (VRef _) =>
      match v' with
      | Some (VRef _) => is_Some (list_items h v) /\ list_items h' v' = list_items h v
      | _ => False
      end
  | _ => v' = v
  end.

Lemma nodupb_NoDup l : nodupb l = true -> NoDup l.
Proof.
  induction l as [|x l IH]; [constructor|].
  simpl. intros [Hx Hl]%andb_prop. constructor; [|auto].
  intros Hin. apply negb_true_iff in Hx.
  assert (existsb (String.eqb x) l = true); [|congruence].
  apply existsb_exists. exists x. split; [now apply list_elem_of_In|].
  apply String.eqb_refl.
Qed.

Lemma dumps_scalar n (h : heap) v :
  scalar v = true -> dumps n h v = Ok (json_of_scalar v).
Proof. destruct n, v; simpl; congruence. Qed.

Lemma dumps_scalars n (h : heap) xs :
  forallb scalar xs = true -> rmap (dumps n h) xs = Ok (map json_of_scalar xs).
Proof.
  induction xs as [|x xs IH]; [reflexivity|].
  simpl. intros [Hx Hxs]%andb_prop.
  now rewrite dumps_scalar, IH.
Qed.

Lemma dumps_flat n (h : heap) v :
  flat_value h v = true -> dumps (S n) h v = Ok (json_of h v).
Proof.
  destruct v; try reflexivity.
  simpl. destruct (h !! r) as [[xs| |]|]; try discriminate.
  intros Hxs. now rewrite dumps_scalars.
Qed.

Lemma rmap_ok {A B} (f : A -> result B) (g : A -> B) (xs : list A) :
  Forall (fun x => f x = Ok (g x)) xs -> rmap f xs = Ok (map g xs).
Proof.
  induction 1 as [|x xs Hx _ IH]; [reflexivity|].
  simpl. now rewrite Hx, IH.
Qed.

Lemma dumps_dict_flat n (h : heap) d :
  forallb (fun kv => flat_value h (snd kv)) d = true ->
  dumps_dict (S n) h d = Ok (JObj (map (fun kv => (fst kv, json_of h (snd kv))) d)).
Proof.
  intros Hd. unfold dumps_dict.
  rewrite (rmap_ok _ (fun kv => (fst kv, json_of h (snd kv)))); [reflexivity|].
  apply Forall_forall. intros kv Hkv.
  rewrite forallb_forall in Hd. apply list_elem_of_In, Hd in Hkv.
  now rewrite dumps_flat.
Qed.

Lemma norm_scalar v : norm (json_of_scalar v) = json_of_scalar v.
Proof. now destruct v. Qed.

Lemma norm_flat (h : heap) v : norm (json_of h v) = json_of h v.
Proof.
  destruct v; try reflexivity.
  simpl. destruct (h !! r) as [[xs| |]|]; try reflexivity.
  simpl. f_equal. rewrite map_map. apply map_ext. intros x. apply norm_scalar.
Qed.

Lemma dumps_scalar_inv n (h : heap) v x :
  scalar x = true -> dumps n h v = Ok (json_of_scalar x) -> v = x.
Proof.
  intros Hx. destruct v.
  1-5: destruct n, x; simpl in *; congruence.
  destruct n; simpl; [discriminate|].
  destruct (h !! r) as [[xs|d|d]|]; try discriminate.
  - destruct (rmap _ xs); simpl; [|discriminate]. destruct x; discriminate.
  - destruct (rmap _ d); simpl; [|discriminate]. destruct x; discriminate.
Qed.

Lemma dumps_scalars_inv n (h : heap) vs xs :
  forallb scalar xs = true ->
  rmap (dumps n h) vs = Ok (map json_of_scalar xs) -> vs = xs.
Proof.
  revert xs. induction vs as [|v vs IH]; intros [|x xs] Hxs; simpl; try congruence.
  - destruct (dumps n h v); simpl; [|discriminate].
    destruct (rmap (dumps n h) vs); simpl; discriminate.
  - simpl in Hxs. apply andb_prop in Hxs as [Hx Hxs].
    destruct (dumps n h v) as [j|] eqn:Ev; simpl; [|discriminate].
    destruct (rmap (dumps n h) vs) as [js|] eqn:Evs; simpl; [|discriminate].
    intros [= -> ->]. f_equal.
    + eapply dumps_scalar_inv; eassumption.
    + now apply IH.
Qed.

Lemma dumps_flat_inv n (h h' : heap) v v' :
  flat_value h v = true ->
  dumps n h' v' = Ok (json_of h v) ->
  same_value h (Some v) h' (Some v').
Proof.
  intros Hv Hd. destruct v as [| | | | |r].
  1-5: simpl; f_equal; eapply dumps_scalar_inv; [|exact Hd]; reflexivity.
  simpl in Hv, Hd |- *.
  destruct (h !! r) as [[xs| |]|]; try discriminate.
  destruct v' as [| | | | |r']; try (destruct n; discriminate).
  destruct n; [discriminate|]. simpl in Hd |- *.
  destruct (h' !! r') as [[ys|d|d]|]; try discriminate.
  - destruct (rmap (dumps n h') ys) as [js|] eqn:E; simpl in Hd; [|discriminate].
    injection Hd as ->. apply dumps_scalars_inv in E; [|assumption].
    subst ys. split; [eauto|reflexivity].
  - destruct (rmap _ d); simpl in Hd; discriminate.
Qed.

Lemma find_none_intro {A} (p : A -> bool) (l : list A) :
  (forall x, x ∈ l -> p x = false) -> find p l = None.
Proof.
  induction l as [|a l IH]; intros H; [reflexivity|].
  simpl. rewrite H by apply list_elem_of_here.
  apply IH. intros x Hx. apply H. now apply list_elem_of_further.
Qed.

Lemma dict_get_In {V} (d : dict V) k v : dict_get d k = Some v -> In (k, v) d.
Proof.
  induction d as [|[k0 v0] d IH]; simpl; [discriminate|].
  destruct (String.eqb k0 k) eqn:E.
  - apply String.eqb_eq in E. subst k0. intros [= ->]. now left.
  - intros H. right. auto.
Qed.

Lemma mandatory_are_fields f : f ∈ Target.mandatory_fields -> f ∈ field_names.
Proof.
  unfold Target.mandatory_fields. intros Hin.
  repeat (apply elem_of_cons in Hin as [->|Hin]; [field_in|]).
  inversion Hin.
Qed.

Lemma to_json_flat_run (h : heap) t d :
  h !! t = Some (OTarget d) ->
  forallb (fun kv => flat_value h (snd kv)) d = true ->
  Target.to_json t h
  = (Ok (JObj (map (fun kv => (fst kv, json_of h (snd kv))) d)), h).
Proof.
  intros Hd Hflat. unfold Target.to_json.
  erewrite bind_run by (unfold vars; rewrite Hd; reflexivity).
  unfold json_dumps_dict.
  pose proof (lookup_lt_Some _ _ _ Hd) as Hlt.
  destruct (List.length h) as [|n] eqn:E; [lia|].
  now rewrite dumps_dict_flat.
Qed.

(** C4. For a Target holding values of the declared data model, [to_json]
    returns (it does not raise) an object whose keys are exactly the names
    of the instance's attributes, among them every field of [__init__];
    [from_json] of that object on a new default Target succeeds, and then
    every attribute of the new instance, the override [_exp_time] included,
    is the same as the original's: equal scalars, and for [exp_times] a list
    with equal items.  Nothing that existed before has changed. *)
Theorem to_json_from_json_roundtrip (h : heap) (t : loc) :
  is_plain_target h t = true ->
  exists ms,
    Target.to_json t h = (Ok (JObj ms), h)
    /\ (exists d, h !! t = Some (OTarget d) /\ dict_keys ms = dict_keys d)
    /\ (forall name, name ∈ field_names -> name ∈ dict_keys ms)
    /\ exists c h1 h2,
         Target.new None None None None None None None None h = (Ok c, h1)
         /\ Target.from_json c (JObj ms) h1 = (Ok tt, h2)
         /\ (forall name, same_value h (attr h t name) h2 (attr h2 c name))
         /\ (forall l, (l < List.length h)%nat -> h2 !! l = h !! l).
Proof.
  unfold is_plain_target. intros [Ht Hrest]%andb_prop.
  destruct (h !! t) as [[| |d]|] eqn:Hd; try discriminate.
  apply andb_prop in Hrest as [[Hnd Hplain]%andb_prop Hflat].
  apply nodupb_NoDup in Hnd.
  set (ms := map (fun kv => (fst kv, json_of h (snd kv))) d).
  assert (Hkeys : dict_keys ms = dict_keys d).
  { unfold ms, dict_keys. rewrite map_map. reflexivity. }
  assert (Hfields : forall name, name ∈ field_names -> name ∈ dict_keys ms).
  { intros name Hin. rewrite Hkeys.
    destruct (is_target_attr _ _ _ Ht Hin) as [v Hv].
    rewrite (attr_lookup _ _ _ _ Hd) in Hv. eauto using dict_get_in_keys. }
  exists ms. split; [now apply to_json_flat_run|].
  split; [eauto|]. split; [assumption|].
  set (init := init_attrs None None None None None None None
                 (VRef (S (List.length h)))).
  exists (List.length h), (h ++ [OTarget init; OList []]).
  assert (Hc : is_target (h ++ [OTarget init; OList []]) (List.length h) = true).
  { eapply is_target_intro.
    - apply lookup_new.
    - apply init_attrs_fields.
    - reflexivity.
    - apply lookup_new2. }
  assert (Hmiss : first_missing ms = None).
  { apply find_none_intro. intros f Hf.
    apply mandatory_are_fields, Hfields, dict_has_true in Hf. now rewrite Hf. }
  assert (Hpl : forallb plain_key (dict_keys ms) = true) by now rewrite Hkeys.
  destruct (from_json_ok_spec _ _ ms Hc Hmiss Hpl) as (h2 & Hrun & Hset & Hkeep & Hframe).
  exists h2. split; [now apply new_run|]. split; [assumption|].
  split.
  - intros name. rewrite (attr_lookup _ _ _ _ Hd).
    destruct (dict_get d name) as [v|] eqn:Ev.
    + assert (Hj : dict_get (rev ms) name = Some (json_of h v)).
      { rewrite dict_get_rev by now rewrite Hkeys.
        unfold ms. now rewrite dict_get_map, Ev. }
      destruct (Hset name _ Hj) as (v' & Hv' & Hdump).
      rewrite Hv'. rewrite norm_flat in Hdump.
      eapply dumps_flat_inv; [|exact Hdump].
      rewrite forallb_forall in Hflat.
      apply (Hflat (name, v)). now apply dict_get_In.
    + assert (Hout : name ∉ dict_keys ms).
      { rewrite Hkeys. intros [v Hv]%dict_keys_in_get. congruence. }
      simpl. rewrite (Hkeep name Hout), attr_new.
      apply dict_get_not_in_keys. intros Hin. apply Hout, Hfields, Hin.
  - intros l Hl. rewrite Hframe.
    + now apply lookup_app_l.
    + rewrite length_app. lia.
    + lia.
Qed.

Lemma to_json_from_json_roundtrip_witness :
  exists ms,
    Target.to_json 0%nat store0 = (Ok (JObj ms), store0)
    /\ (exists d, store0 !! 0%nat = Some (OTarget d) /\ dict_keys ms = dict_keys d)
    /\ (forall name, name ∈ field_names -> name ∈ dict_keys ms)
    /\ exists c h1 h2,
         Target.new None None None None None None None None store0 = (Ok c, h1)
         /\ Target.from_json c (JObj ms) h1 = (Ok tt, h2)
         /\ (forall name, same_value store0 (attr store0 0%nat name) h2 (attr h2 c name))
         /\ (forall l, (l < List.length store0)%nat -> h2 !! l = store0 !! l).
Proof.
  apply (to_json_from_json_roundtrip store0 0%nat). reflexivity.
Defined.

Example to_json_store0 :
  fst (Target.to_json 2%nat store0)
  = Ok (JObj [("targetid", JInt 8); ("fieldid", JInt 0); ("filter", JStr "g");
              ("ra_rad", JFloat 0); ("dec_rad", JFloat 0); ("ang_rad", JFloat 0);
              ("num_exp", JInt 0); ("exp_times", JArr []); ("_exp_time", JNull);
              ("time", JFloat 0); ("airmass", JFloat 0);
              ("sky_brightness", JFloat 0); ("cloud", JFloat 0);
              ("seeing", JFloat 0); ("alt_rad", JFloat 0); ("az_rad", JFloat 0);
              ("rot_rad", JFloat 0); ("telalt_rad", JFloat 0);
              ("telaz_rad", JFloat 0); ("telrot_rad", JFloat 0);
              ("slewtime", JFloat 0); ("note", JStr "")]).
Proof. reflexivity. Qed.

(** ** The degree properties *)

Inductive angle : Type :=
| Ra | Dec | Ang | Alt | Az | Rot | Telalt | Telaz | Telrot.

(** The radian attribute behind each property, its getter and its setter. *)
Definition rad_field (q : angle) : string :=
  match q with
  | Ra => "ra_rad" | Dec => "dec_rad" | Ang => "ang_rad"
  | Alt => "alt_rad" | Az => "az_rad" | Rot => "rot_rad"
  | Telalt => "telalt_rad" | Telaz => "telaz_rad" | Telrot => "telrot_rad"
  end.

Definition degree_getter (q : angle) : loc -> M value :=
  match q with
  | Ra => Target.ra | Dec => Target.dec | Ang => Target.ang
  | Alt => Target.alt | Az => Target.az | Rot => Target.rot
  | Telalt => Target.telalt | Telaz => Target.telaz | Telrot => Target.telrot
  end.

Definition degree_setter (q : angle) : loc -> value -> M unit :=
  match q with
  | Ra => Target.ra_setter | Dec => Target.dec_setter | Ang => Target.ang_setter
  | Alt => Target.alt_setter | Az => Target.az_setter | Rot => Target.rot_setter
  | Telalt => Target.telalt_setter | Telaz => Target.telaz_setter
  | Telrot => Target.telrot_setter
  end.

Lemma degree_getter_unfold q self :
  degree_getter q self = (x ← load_attr (VRef self) (rad_field q); math_degrees x).
Proof. now destruct q. Qed.

Lemma degree_setter_unfold q self v :
  degree_setter q self v = (x ← math_radians v; store_attr self (rad_field q) x).
Proof. now destruct q. Qed.

Lemma degree_getter_run (h : heap) t q y :
  attr h t (rad_field q) = Some (VFloat y) ->
  degree_getter q t h = (Ok (VFloat (degrees y)), h).
Proof.
  intros Hy. rewrite degree_getter_unfold.
  erewrite bind_run by (apply load_attr_run; eassumption).
  now apply math_degrees_run.
Qed.

(** ** Rounding in binary64: degrees to radians and back

    [math.radians] and [math.degrees] are one multiplication each.  The
    specification of the multiplication ([SFmul]) is unfolded down to the
    shift and the rounding to nearest even, to bound the error of the two
    roundings. *)

Lemma digits2_size (p : positive) : digits2_pos p = Pos.size p.
Proof. induction p; simpl; congruence. Qed.

Lemma digits2_bounds (p : positive) :
  2 ^ (Zpos (digits2_pos p) - 1) <= Zpos p < 2 ^ Zpos (digits2_pos p).
Proof.
  rewrite digits2_size.
  pose proof (Pos.size_gt p) as Hgt. pose proof (Pos.size_le p) as Hle.
  split.
  - assert (H : 2 ^ Zpos (Pos.size p) <= 2 * Zpos p).
    { rewrite <- Pos2Z.inj_pow. change (2 * Zpos p) with (Zpos p~0). lia. }
    replace (Zpos (Pos.size p)) with (Z.succ (Zpos (Pos.size p) - 1)) in H by lia.
    rewrite Z.pow_succ_r in H by lia. lia.
  - rewrite <- Pos2Z.inj_pow. lia.
Qed.

Lemma iter_pos_nat {A} (f : A -> A) (p : positive) (x : A) :
  SpecFloat.iter_pos f p x = Nat.iter (Pos.to_nat p) f x.
Proof.
  revert x. induction p as [p IH|p IH|]; intros x; cbn [SpecFloat.iter_pos].
  - rewrite !IH, Pos2Nat.inj_xI.
    rewrite <- Nat.iter_succ_r, <- Nat.iter_add. f_equal. lia.
  - rewrite !IH, Pos2Nat.inj_xO. rewrite <- Nat.iter_add. f_equal. lia.
  - reflexivity.
Qed.

(** The state of the shift after [n] steps from [(M, false, false)]. *)
Definition shifted (M : Z) (n : Z) (mrs : shr_record) : Prop :=
  let rem := M mod 2 ^ n in
  shr_m mrs = M / 2 ^ n
  /\ (shr_r mrs = true <-> 2 ^ n <= 2 * rem)
  /\ (shr_s mrs = true <-> rem <> 0 /\ 2 * rem <> 2 ^ n).

Lemma shr_1_m (mrs : shr_record) :
  0 <= shr_m mrs ->
  shr_m (shr_1 mrs) = shr_m mrs / 2
  /\ shr_r (shr_1 mrs) = Z.odd (shr_m mrs)
  /\ shr_s (shr_1 mrs) = shr_r mrs || shr_s mrs.
Proof.
  destruct mrs as [m r s]. simpl. intros Hm.
  destruct m as [|[p|p|]|p]; try lia; simpl; repeat split; try reflexivity.
  - rewrite Pos2Z.inj_xI. apply Z.div_unique with (r := 1); lia.
  - rewrite Pos2Z.inj_xO. apply Z.div_unique with (r := 0); lia.
Qed.

Lemma shifted_step (M n : Z) (mrs : shr_record) :
  0 <= M -> 0 <= n -> shifted M n mrs -> shifted M (n + 1) (shr_1 mrs).
Proof.
  intros HM Hn (Hm & Hr & Hs).
  assert (Hpos : 0 < 2 ^ n) by (apply Z.pow_pos_nonneg; lia).
  assert (Hm0 : 0 <= shr_m mrs) by (rewrite Hm; apply Z.div_pos; lia).
  destruct (shr_1_m mrs Hm0) as (Hm' & Hr' & Hs').
  assert (Hpow : 2 ^ (n + 1) = 2 * 2 ^ n) by (rewrite Z.pow_add_r; lia).
  pose proof (Z.div_mod M (2 ^ n) ltac:(lia)) as Hdm.
  pose proof (Z.mod_pos_bound M (2 ^ n) Hpos) as Hb.
  set (q := M / 2 ^ n) in *. set (rem := M mod 2 ^ n) in *.
  pose proof (Z.div_mod q 2 ltac:(lia)) as Hq.
  pose proof (Z.mod_pos_bound q 2 ltac:(lia)) as Hqb.
  assert (Hdiv : M / 2 ^ (n + 1) = q / 2).
  { rewrite Hpow. symmetry.
    apply Z.div_unique with (r := (q mod 2) * 2 ^ n + rem); nia. }
  assert (Hmod : M mod 2 ^ (n + 1) = (q mod 2) * 2 ^ n + rem).
  { rewrite Hpow. symmetry.
    apply Z.mod_unique with (q := q / 2); nia. }
  assert (Hodd : Z.odd q = true <-> q mod 2 = 1).
  { rewrite Zmod_odd. destruct (Z.odd q); split; intros; try lia; congruence. }
  unfold shifted. cbv zeta. rewrite Hm', Hr', Hs', Hm, Hdiv, Hmod, Hpow.
  split; [reflexivity|]. rewrite Hodd, orb_true_iff, Hr, Hs.
  assert (Hcase : q mod 2 = 0 \/ q mod 2 = 1) by lia.
  destruct Hcase as [Hc|Hc]; rewrite Hc; split; nia.
Qed.

Lemma shifted_iter (M : Z) (n : nat) :
  0 <= M ->
  shifted M (Z.of_nat n) (Nat.iter n shr_1 (Build_shr_record M false false)).
Proof.
  intros HM. induction n as [|n IH].
  - simpl. unfold shifted. simpl. rewrite Z.div_1_r, Z.mod_1_r.
    repeat split; intros; try lia; try congruence.
  - rewrite Nat2Z.inj_succ, <- Z.add_1_r. simpl.
    apply shifted_step; [assumption|lia|assumption].
Qed.

Lemma shr_nonpos (mrs : shr_record) (e n : Z) : n <= 0 -> shr mrs e n = (mrs, e).
Proof. destruct n; [reflexivity|lia|reflexivity]. Qed.

Lemma shr_pos (M e k : Z) :
  0 <= M -> 0 < k ->
  exists mrs, shr (Build_shr_record M false false) e k = (mrs, e + k)
              /\ shifted M k mrs.
Proof.
  intros HM Hk. destruct k as [|p|p]; try lia.
  eexists. split; [reflexivity|].
  rewrite iter_pos_nat. rewrite <- (positive_nat_Z p) at 1.
  now apply shifted_iter.
Qed.

(** Rounding to nearest even after a shift by [k]: the result is within
    half a unit of [M / 2 ^ k]. *)
Lemma round_nearest_even_shifted (M k : Z) (mrs : shr_record) :
  0 <= M -> 0 < k -> shifted M k mrs ->
  let m1 := round_nearest_even (shr_m mrs) (loc_of_shr_record mrs) in
  M / 2 ^ k <= m1 <= M / 2 ^ k + 1
  /\ 2 ^ k * (2 * m1 - 1) <= 2 * M <= 2 ^ k * (2 * m1 + 1).
Proof.
  intros HM Hk (Hm & Hr & Hs). cbv zeta.
  assert (Hpos : 0 < 2 ^ k) by (apply Z.pow_pos_nonneg; lia).
  pose proof (Z.div_mod M (2 ^ k) ltac:(lia)) as Hdm.
  pose proof (Z.mod_pos_bound M (2 ^ k) Hpos) as Hb.
  destruct mrs as [m r s]. simpl in *. subst m.
  set (q := M / 2 ^ k) in *. set (rem := M mod 2 ^ k) in *.
  destruct r, s; simpl.
  - assert (2 ^ k <= 2 * rem) by (now apply Hr).
    assert (rem <> 0 /\ 2 * rem <> 2 ^ k) by (now apply Hs). nia.
  - assert (2 ^ k <= 2 * rem) by (now apply Hr).
    assert (~ (rem <> 0 /\ 2 * rem <> 2 ^ k)) by (rewrite <- Hs; congruence).
    destruct (Z.even q); nia.
  - assert (~ 2 ^ k <= 2 * rem) by (rewrite <- Hr; congruence).
    nia.
  - assert (~ 2 ^ k <= 2 * rem) by (rewrite <- Hr; congruence).
    assert (~ (rem <> 0 /\ 2 * rem <> 2 ^ k)) by (rewrite <- Hs; congruence).
    nia.
Qed.

Lemma fexp_64 (e : Z) : fexp prec emax e = Z.max (e - 53) (-1074).
Proof. reflexivity. Qed.

Lemma Zdigits2_bound (m : Z) (n : Z) :
  0 < m -> 0 <= n -> m < 2 ^ n -> Zdigits2 m <= n.
Proof.
  intros Hm Hn Hlt. destruct m as [|p|p]; try lia. simpl.
  pose proof (digits2_bounds p) as [Hlo _].
  destruct (Z_le_gt_dec (Zpos (digits2_pos p)) n) as [|Hgt]; [assumption|].
  exfalso. assert (2 ^ n <= 2 ^ (Zpos (digits2_pos p) - 1))
    by (apply Z.pow_le_mono_r; lia). lia.
Qed.

Lemma Zdigits2_pow (n : Z) : 0 <= n -> Zdigits2 (2 ^ n) = n + 1.
Proof.
  intros Hn. assert (Hpos : 0 < 2 ^ n) by (apply Z.pow_pos_nonneg; lia).
  destruct (2 ^ n) as [|p|p] eqn:E; try lia. simpl.
  pose proof (digits2_bounds p) as [Hlo Hhi]. rewrite <- E in Hlo, Hhi.
  assert (Zpos (digits2_pos p) - 1 <= n).
  { apply (Z.pow_le_mono_r_iff 2); lia. }
  assert (n < Zpos (digits2_pos p)).
  { apply (Z.pow_lt_mono_r_iff 2); lia. }
  lia.
Qed.

(** The result of rounding the positive number [P * 2 ^ E] to binary64,
    when at least one bit is shifted out. *)
Lemma round_pos_spec (s : bool) (P : positive) (E : Z) :
  let d := Zpos (digits2_pos P) in
  let k := Z.max (d + E - 53) (-1074) - E in
  0 < k ->
  exists m1,
    0 <= m1 <= 2 ^ 53
    /\ 2 ^ k * (2 * m1 - 1) <= 2 * Zpos P <= 2 ^ k * (2 * m1 + 1)
    /\ (k = d - 53 -> 2 ^ 52 <= m1)
    /\ binary_round_aux prec emax s (Zpos P) E loc_Exact
       = if m1 =? 0 then S754_zero s
         else if m1 =? 2 ^ 53
              then (if E + k + 1 <=? 971
                    then S754_finite s (Z.to_pos (2 ^ 52)) (E + k + 1)
                    else S754_infinity s)
              else (if E + k <=? 971
                    then S754_finite s (Z.to_pos m1) (E + k)
                    else S754_infinity s).
Proof.
  intros d k Hk.
  pose proof (digits2_bounds P) as [Hlo Hhi]. fold d in Hlo, Hhi.
  destruct (shr_pos (Zpos P) E k ltac:(lia) Hk) as (mrs & Hshr & Hsh).
  pose proof (round_nearest_even_shifted (Zpos P) k mrs ltac:(lia) Hk Hsh) as Hrne.
  cbv zeta in Hrne.
  set (m1 := round_nearest_even (shr_m mrs) (loc_of_shr_record mrs)) in *.
  destruct Hrne as [Hq Herr].
  assert (Hpos : 0 < 2 ^ k) by (apply Z.pow_pos_nonneg; lia).
  assert (Hq0 : 0 <= Zpos P / 2 ^ k) by (apply Z.div_pos; lia).
  assert (Hq53 : Zpos P / 2 ^ k < 2 ^ 53).
  { apply Z.div_lt_upper_bound; [lia|].
    rewrite <- Z.pow_add_r by lia.
    eapply Z.lt_le_trans; [exact Hhi|]. apply Z.pow_le_mono_r; lia. }
  exists m1. split; [lia|]. split; [assumption|]. split.
  { intros Hkd. assert (2 ^ 52 <= Zpos P / 2 ^ k); [|lia].
    apply Z.div_le_lower_bound; [lia|].
    rewrite <- Z.pow_add_r by lia.
    eapply Z.le_trans; [|exact Hlo]. apply Z.pow_le_mono_r; lia. }
  unfold binary_round_aux, shr_fexp. rewrite !fexp_64.
  change (shr_record_of_loc (Zpos P) loc_Exact)
    with (Build_shr_record (Zpos P) false false).
  change (Zdigits2 (Zpos P)) with d. fold k. rewrite Hshr. fold m1.
  change (shr_record_of_loc m1 loc_Exact) with (Build_shr_record m1 false false).
  rewrite fexp_64. change (emax - prec) with 971.
  assert (He' : -1074 <= E + k) by lia.
  destruct (Z.eqb_spec m1 0) as [H0|H0].
  { rewrite H0. simpl Zdigits2. rewrite shr_nonpos by lia. reflexivity. }
  destruct (Z.eqb_spec m1 (2 ^ 53)) as [H53|H53].
  { rewrite H53, (Zdigits2_pow 53) by lia.
    replace (Z.max (53 + 1 + (E + k) - 53) (-1074) - (E + k)) with 1 by lia.
    simpl shr. cbv iota beta. reflexivity. }
  assert (Hd1 : Zdigits2 m1 <= 53) by (apply Zdigits2_bound; lia).
  rewrite shr_nonpos by lia. simpl shr_m.
  destruct m1 as [|p1|p1]; try lia. reflexivity.
Qed.

(** A valid finite binary64 number is normal (53 digits) or has the least
    exponent. *)
Lemma bounded_canonical (m : positive) (e : Z) :
  bounded prec emax m e = true ->
  -1074 <= e <= 971
  /\ Zpos (digits2_pos m) <= 53
  /\ (Zpos (digits2_pos m) = 53 \/ e = -1074).
Proof.
  unfold bounded, canonical_mantissa. rewrite fexp_64.
  change (emax - prec) with 971.
  intros [Hc He]%andb_prop. apply Z.eqb_eq in Hc. apply Z.leb_le in He. lia.
Qed.

Lemma digits_mul (m c : positive) :
  2 ^ 52 <= Zpos c < 2 ^ 53 ->
  Zpos (digits2_pos m) + 52 <= Zpos (digits2_pos (m * c))
  <= Zpos (digits2_pos m) + 53.
Proof.
  intros [Hclo Hchi].
  pose proof (digits2_bounds m) as [Hlo Hhi].
  pose proof (digits2_bounds (m * c)) as [Hlo' Hhi'].
  set (d := Zpos (digits2_pos m)) in *.
  set (d' := Zpos (digits2_pos (m * c))) in *.
  assert (Hd : 0 < d) by (unfold d; lia).
  assert (Hd' : 0 < d') by (unfold d'; lia).
  rewrite Pos2Z.inj_mul in Hlo', Hhi'.
  assert (Hp1 : 0 < 2 ^ (d - 1)) by (apply Z.pow_pos_nonneg; lia).
  assert (H1 : 2 ^ (d - 1 + 52) <= Zpos m * Zpos c).
  { rewrite Z.pow_add_r by lia. nia. }
  assert (H2 : Zpos m * Zpos c < 2 ^ (d + 53)).
  { rewrite Z.pow_add_r by lia. nia. }
  assert (d - 1 + 52 < d') by (apply (Z.pow_lt_mono_r_iff 2); lia).
  assert (d' - 1 < d + 53) by (apply (Z.pow_lt_mono_r_iff 2); lia).
  lia.
Qed.

Lemma SF64mul_finite (s : bool) (m c : positive) (e ec : Z) :
  SF64mul (S754_finite s m e) (S754_finite false c ec)
  = binary_round_aux prec emax s (Zpos (m * c)) (e + ec) loc_Exact.
Proof. unfold SF64mul, SFmul. now destruct s. Qed.

Lemma half_unit_bound (M a k EK : Z) :
  0 < k -> 0 <= EK ->
  2 ^ k * (2 * a - 1) <= 2 * M <= 2 ^ k * (2 * a + 1) ->
  Z.abs (a * 2 ^ (k + EK) - M * 2 ^ EK) <= 2 ^ (k - 1 + EK).
Proof.
  intros Hk HEK Herr.
  replace (k + EK) with (1 + (k - 1) + EK) by lia.
  replace k with (1 + (k - 1)) in Herr by lia.
  rewrite !Z.pow_add_r by lia. rewrite Z.pow_add_r in Herr by lia.
  change (2 ^ 1) with 2 in *.
  assert (Hp : 0 < 2 ^ (k - 1)) by (apply Z.pow_pos_nonneg; lia).
  assert (HA : 0 < 2 ^ EK) by (apply Z.pow_pos_nonneg; lia).
  set (p := 2 ^ (k - 1)) in *. set (A := 2 ^ EK) in *.
  assert (H1 : p * (2 * a - 1) <= M <= p * (2 * a + 1)) by lia.
  apply Z.abs_le. split; nia.
Qed.

Lemma normal_unit_bound (M d k EK : Z) :
  2 ^ (d - 1) <= M -> k = d - 53 -> 0 < k -> 0 <= EK ->
  2 ^ (k - 1 + EK) * 2 ^ 53 <= M * 2 ^ EK.
Proof.
  intros HM -> Hk HEK.
  rewrite Z.pow_add_r by lia.
  assert (HA : 0 < 2 ^ EK) by (apply Z.pow_pos_nonneg; lia).
  replace (d - 1) with (d - 53 - 1 + 53) in HM by lia.
  rewrite Z.pow_add_r in HM by lia. nia.
Qed.

(** The two constants of [math.radians] and [math.degrees]. *)
Definition c_rad : positive := 5030569068109113.
Definition c_deg : positive := 8063664102031864.

Lemma degToRad_SF : Prim2SF degToRad = S754_finite false c_rad (-58).
Proof. reflexivity. Qed.

Lemma radToDeg_SF : Prim2SF radToDeg = S754_finite false c_deg (-47).
Proof. reflexivity. Qed.

(** One multiplication of a valid finite number by a 53-bit constant of
    negative exponent: the integer [a] next to the exact product shifted by
    [k] bits, and the result according to [a]. *)
Lemma mul_const_stage (s : bool) (m c : positive) (e ec : Z) :
  bounded prec emax m e = true ->
  2 ^ 52 <= Zpos c < 2 ^ 53 -> ec < 0 ->
  let M := Zpos m * Zpos c in
  let E := e + ec in
  let d := Zpos (digits2_pos (m * c)) in
  let k := Z.max (d + E - 53) (-1074) - E in
  let r := SF64mul (S754_finite s m e) (S754_finite false c ec) in
  0 < k /\ (k = d - 53 \/ k = -1074 - E) /\ 2 ^ (d - 1) <= M
  /\ exists a,
       0 <= a <= 2 ^ 53
       /\ 2 ^ k * (2 * a - 1) <= 2 * M <= 2 ^ k * (2 * a + 1)
       /\ (k = d - 53 -> 2 ^ 52 <= a)
       /\ ((a = 0 /\ r = S754_zero s)
           \/ (0 < a < 2 ^ 53
               /\ ((E + k <= 971 /\ r = S754_finite s (Z.to_pos a) (E + k))
                   \/ (971 < E + k /\ r = S754_infinity s)))
           \/ (a = 2 ^ 53
               /\ ((E + k + 1 <= 971
                    /\ r = S754_finite s (Z.to_pos (2 ^ 52)) (E + k + 1))
                   \/ (971 < E + k + 1 /\ r = S754_infinity s)))).
Proof.
  intros Hb Hc Hec M E d k r.
  destruct (bounded_canonical m e Hb) as (He & Hdm & Hcan).
  pose proof (digits_mul m c Hc) as Hd. fold d in Hd.
  pose proof (digits2_bounds (m * c)) as [Hlo _]. fold d in Hlo.
  rewrite Pos2Z.inj_mul in Hlo. fold M in Hlo.
  assert (Hk : 0 < k) by (unfold k, E; lia).
  split; [assumption|]. split; [unfold k; lia|]. split; [assumption|].
  destruct (round_pos_spec s (m * c) E Hk) as (a & Ha & Herr & Hn & Hr).
  fold d k in Herr, Hn, Hr. rewrite Pos2Z.inj_mul in Herr. fold M in Herr.
  exists a. split; [assumption|]. split; [assumption|]. split; [assumption|].
  unfold r. rewrite SF64mul_finite. fold E. rewrite Hr.
  destruct (Z.eqb_spec a 0) as [H0|H0]; [left; now split|].
  destruct (Z.eqb_spec a (2 ^ 53)) as [H53|H53].
  - right. right. split; [assumption|].
    destruct (Z.leb_spec (E + k + 1) 971); [left|right]; split; auto; lia.
  - right. left. split; [lia|].
    destruct (Z.leb_spec (E + k) 971); [left|right]; split; auto; lia.
Qed.

(** The same stage in values scaled by [2 ^ K]: the result [V] is within
    the half unit [B] of the exact product, and [B] is at most [2 ^ -53] of
    the product, or half the least subnormal. *)
Lemma mul_const_values (s : bool) (m c : positive) (e ec K : Z) :
  bounded prec emax m e = true ->
  2 ^ 52 <= Zpos c < 2 ^ 53 -> ec < 0 -> 1074 - ec <= K ->
  let X := Zpos c * (Zpos m * 2 ^ (e + ec + K)) in
  let r := SF64mul (S754_finite s m e) (S754_finite false c ec) in
  exists V B : Z,
    0 < B /\ Z.abs (V - X) <= B
    /\ (B * 2 ^ 53 <= X \/ B = 2 ^ (K - 1075))
    /\ ((V = 0 /\ r = S754_zero s)
        \/ (exists m' e', r = S754_finite s m' e' /\ V = Zpos m' * 2 ^ (e' + K))
        \/ (r = S754_infinity s /\ 2 ^ (1024 + K) <= V)).
Proof.
  intros Hb Hc Hec HK X r.
  destruct (bounded_canonical m e Hb) as (He & Hdm & Hcan).
  destruct (mul_const_stage s m c e ec Hb Hc Hec)
    as (Hk & Hkk & Hlo & a & Ha & Herr & Hn & Hr).
  fold r in Hr.
  set (k := Z.max (Zpos (digits2_pos (m * c)) + (e + ec) - 53) (-1074) - (e + ec)) in *.
  set (d := Zpos (digits2_pos (m * c))) in *.
  set (EK := e + ec + K).
  assert (HEK : 0 <= EK) by (unfold EK; lia).
  assert (HX : X = Zpos m * Zpos c * 2 ^ EK) by (unfold X, EK; ring).
  pose proof (half_unit_bound _ a k EK Hk HEK Herr) as Hhalf.
  exists (a * 2 ^ (k + EK)), (2 ^ (k - 1 + EK)).
  split; [apply Z.pow_pos_nonneg; lia|].
  split; [now rewrite HX|].
  split.
  { destruct Hkk as [Hkd|Hks].
    - left. rewrite HX. eapply normal_unit_bound; eauto.
    - right. f_equal. unfold EK. lia. }
  assert (Hpow : forall n, 0 <= n -> 0 < 2 ^ n) by (intros; apply Z.pow_pos_nonneg; lia).
  destruct Hr as [[H0 Hr]|[[Ha' Hr]|[H53 Hr]]].
  - left. split; [rewrite H0; apply Z.mul_0_l|assumption].
  - destruct Hr as [[Hle Hr]|[Hgt Hr]].
    + right. left. exists (Z.to_pos a), (e + ec + k). split; [assumption|].
      rewrite Z2Pos.id by lia.
      now replace (e + ec + k + K) with (k + EK) by (unfold EK; lia).
    + right. right. split; [assumption|].
      assert (Hkd : k = d - 53) by lia.
      specialize (Hn Hkd).
      assert (2 ^ (1024 + K) <= 2 ^ 52 * 2 ^ (k + EK)).
      { rewrite <- Z.pow_add_r by lia. apply Z.pow_le_mono_r; unfold EK; lia. }
      pose proof (Hpow (k + EK) ltac:(lia)). nia.
  - destruct Hr as [[Hle Hr]|[Hgt Hr]].
    + right. left. exists (Z.to_pos (2 ^ 52)), (e + ec + k + 1).
      split; [assumption|].
      rewrite Z2Pos.id by lia. rewrite H53.
      replace (e + ec + k + 1 + K) with (1 + (k + EK)) by (unfold EK; lia).
      rewrite (Z.pow_add_r 2 1) by lia. change (2 ^ 1) with 2.
      change (2 ^ 53) with (2 ^ 52 * 2). ring.
    + right. right. split; [assumption|]. rewrite H53.
      rewrite <- Z.pow_add_r by lia. apply Z.pow_le_mono_r; unfold EK; lia.
Qed.

(** The value of a finite binary64 number in units of [2 ^ -1074], the
    least positive one. *)
Definition exact_value (f : spec_float) : Z :=
  match f with
  | S754_finite s m e => (if s then -1 else 1) * (Zpos m * 2 ^ (e + 1074))
  | _ => 0
  end.

(** [z] is [x] up to the rounding of a conversion there and back: a
    relative error of at most [2 ^ -51] plus 32 units of [2 ^ -1074] for a
    finite [x], and [x] itself for an infinite one and for NaN. *)
Definition within_tolerance (x z : float) : bool :=
  match Prim2SF x with
  | S754_finite _ _ _ =>
      match Prim2SF z with
      | S754_finite _ _ _ | S754_zero _ =>
          2 ^ 51 * Z.abs (exact_value (Prim2SF z) - exact_value (Prim2SF x))
          <=? Z.abs (exact_value (Prim2SF x)) + 2 ^ 56
      | _ => false
      end
  | _ => Leibniz.eqb z x
  end.

Lemma radians_SF (x : float) :
  Prim2SF (radians x) = SF64mul (Prim2SF x) (S754_finite false c_rad (-58)).
Proof. unfold radians. now rewrite mul_spec, degToRad_SF. Qed.

Lemma degrees_SF (x : float) :
  Prim2SF (degrees x) = SF64mul (Prim2SF x) (S754_finite false c_deg (-47)).
Proof. unfold degrees. now rewrite mul_spec, radToDeg_SF. Qed.

Lemma c_rad_range : 2 ^ 52 <= Zpos c_rad < 2 ^ 53.
Proof. unfold c_rad. lia. Qed.

Lemma c_deg_range : 2 ^ 52 <= Zpos c_deg < 2 ^ 53.
Proof. unfold c_deg. lia. Qed.

Lemma finite_valid (x : float) s m e :
  Prim2SF x = S754_finite s m e -> bounded prec emax m e = true.
Proof. intros Hx. pose proof (Prim2SF_valid x) as Hv. now rewrite Hx in Hv. Qed.

(** The scaled magnitude of a valid finite number is below [2 ^ 1024]. *)
Lemma magnitude_bound (m : positive) (e : Z) :
  bounded prec emax m e = true ->
  0 < Zpos m * 2 ^ (e + 1074) <= (2 ^ 53 - 1) * 2 ^ 2045.
Proof.
  intros Hb. destruct (bounded_canonical m e Hb) as (He & Hdm & _).
  pose proof (digits2_bounds m) as [_ Hhi].
  assert (Zpos m < 2 ^ 53).
  { eapply Z.lt_le_trans; [exact Hhi|]. apply Z.pow_le_mono_r; lia. }
  assert (0 < 2 ^ (e + 1074)) by (apply Z.pow_pos_nonneg; lia).
  assert (2 ^ (e + 1074) <= 2 ^ 2045) by (apply Z.pow_le_mono_r; lia).
  split; [lia|]. apply Z.mul_le_mono_nonneg; lia.
Qed.

(** The error of the two roundings and of the product of the two
    constants, in values scaled by [2 ^ 1179]. *)
Lemma round_trip_arith (X0 Y B1 Sz B2 : Z) :
  0 < X0 -> 0 < B1 -> 0 < B2 ->
  Z.abs (Y - Zpos c_rad * X0) <= B1 ->
  (B1 * 2 ^ 53 <= Zpos c_rad * X0 \/ B1 = 2 ^ 57) ->
  Z.abs (Sz - Zpos c_deg * Y) <= B2 ->
  (B2 * 2 ^ 53 <= Zpos c_deg * Y \/ B2 = 2 ^ 104) ->
  2 ^ 51 * Z.abs (Sz - 2 ^ 105 * X0) <= 2 ^ 105 * X0 + 2 ^ 161.
Proof.
  unfold c_rad, c_deg. intros HX HB1 HB2 H1 H1' H2 H2'.
  destruct H1' as [H1'|H1'], H2' as [H2'|H2']; lia.
Qed.

Lemma round_trip_no_overflow (X0 Y B1 Sz B2 : Z) :
  0 < X0 <= (2 ^ 53 - 3) * 2 ^ 2045 -> 0 < B1 -> 0 < B2 ->
  Z.abs (Y - Zpos c_rad * X0) <= B1 ->
  (B1 * 2 ^ 53 <= Zpos c_rad * X0 \/ B1 = 2 ^ 57) ->
  Z.abs (Sz - Zpos c_deg * Y) <= B2 ->
  (B2 * 2 ^ 53 <= Zpos c_deg * Y \/ B2 = 2 ^ 104) ->
  Sz < 2 ^ (1024 + 1179).
Proof.
  unfold c_rad, c_deg. intros HX HB1 HB2 H1 H1' H2 H2'.
  change (2 ^ (1024 + 1179)) with (2 ^ 2203).
  destruct H1' as [H1'|H1'], H2' as [H2'|H2']; lia.
Qed.

Lemma top_floats (m : positive) (e : Z) :
  bounded prec emax m e = true ->
  Zpos m * 2 ^ (e + 1074) <= (2 ^ 53 - 3) * 2 ^ 2045
  \/ (e = 971 /\ (m = 9007199254740990 \/ m = 9007199254740991)%positive).
Proof.
  intros Hb. destruct (bounded_canonical m e Hb) as (He & Hdm & _).
  pose proof (digits2_bounds m) as [_ Hhi].
  assert (Hm : Zpos m < 2 ^ 53).
  { eapply Z.lt_le_trans; [exact Hhi|]. apply Z.pow_le_mono_r; lia. }
  assert (Hp : 0 < 2 ^ (e + 1074)) by (apply Z.pow_pos_nonneg; lia).
  destruct (Z_le_gt_dec e 970) as [Hle|Hgt].
  - left. assert (2 ^ (e + 1074) <= 2 ^ 2044) by (apply Z.pow_le_mono_r; lia).
    apply Z.le_trans with (2 ^ 53 * 2 ^ 2044).
    + apply Z.mul_le_mono_nonneg; lia.
    + change (2 ^ 2045) with (2 * 2 ^ 2044). lia.
  - assert (e = 971) as -> by lia.
    destruct (Z_le_gt_dec (Zpos m) (2 ^ 53 - 3)) as [Hle|Hgt'].
    + left. change (971 + 1074) with 2045.
      apply Z.mul_le_mono_nonneg_r; lia.
    + right. split; [reflexivity|]. change (2 ^ 53) with 9007199254740992 in *. lia.
Qed.

Lemma top_floats_finite (x : float) s m :
  Prim2SF x = S754_finite s m 971 ->
  (m = 9007199254740990 \/ m = 9007199254740991)%positive ->
  Prim2SF (degrees (radians x)) <> S754_infinity s.
Proof.
  intros Hx Hm. rewrite <- (SF2Prim_Prim2SF x), Hx.
  destruct Hm as [-> | ->]; destruct s; vm_compute; discriminate.
Qed.

Lemma exact_value_scaled (s : bool) (m : positive) (e : Z) :
  -1074 <= e ->
  Zpos m * 2 ^ (e + 1179) = 2 ^ 105 * (Zpos m * 2 ^ (e + 1074)).
Proof.
  intros He. replace (e + 1179) with (105 + (e + 1074)) by lia.
  rewrite Z.pow_add_r by lia. ring.
Qed.

(** Degrees to radians and back returns the number within the tolerance,
    for every binary64 number. *)
Theorem degrees_radians_within_tolerance (x : float) :
  within_tolerance x (degrees (radians x)) = true.
Proof.
  unfold within_tolerance.
  destruct (Prim2SF x) as [s|s| |s m e] eqn:Ex.
  1-3: apply Leibniz.eqb_spec, Prim2SF_inj;
       rewrite degrees_SF, radians_SF, Ex; try destruct s; reflexivity.
  pose proof (finite_valid x s m e Ex) as Hb.
  destruct (bounded_canonical m e Hb) as (He & _ & _).
  pose proof (magnitude_bound m e Hb) as HX0.
  destruct (mul_const_values s m c_rad e (-58) 1132 Hb c_rad_range
              ltac:(lia) ltac:(lia)) as (Y & B1 & HB1 & Herr1 & Hunit1 & Hres1).
  replace (e + -58 + 1132) with (e + 1074) in * by lia.
  change (2 ^ (1132 - 1075)) with (2 ^ 57) in Hunit1.
  set (X0 := Zpos m * 2 ^ (e + 1074)) in *.
  assert (Hy : Prim2SF (radians x) = SF64mul (S754_finite s m e) (S754_finite false c_rad (-58)))
    by (now rewrite radians_SF, Ex).
  rewrite <- Hy in Hres1.
  destruct Hres1 as [[HY0 Hr1]|[(a' & ey & Hr1 & HY)|[Hr1 Hover]]].
  - (* the radians underflow to zero *)
    rewrite degrees_SF, Hr1.
    replace (SF64mul (S754_zero s) (S754_finite false c_deg (-47)))
      with (S754_zero s) by (now destruct s).
    apply Z.leb_le. simpl exact_value. fold X0.
    subst Y. unfold c_rad in *.
    destruct Hunit1 as [Hu|Hu]; destruct s; lia.
  - pose proof (finite_valid _ s a' ey Hr1) as Hby.
    destruct (bounded_canonical a' ey Hby) as (Hey & _ & _).
    destruct (mul_const_values s a' c_deg ey (-47) 1179 Hby c_deg_range
                ltac:(lia) ltac:(lia)) as (Sz & B2 & HB2 & Herr2 & Hunit2 & Hres2).
    replace (ey + -47 + 1179) with (ey + 1132) in * by lia.
    change (2 ^ (1179 - 1075)) with (2 ^ 104) in Hunit2.
    rewrite <- HY in Herr2, Hunit2.
    assert (Hz : Prim2SF (degrees (radians x))
                 = SF64mul (S754_finite s a' ey) (S754_finite false c_deg (-47)))
      by (now rewrite degrees_SF, Hr1).
    rewrite <- Hz in Hres2.
    pose proof (round_trip_arith X0 Y B1 Sz B2 ltac:(lia) HB1 HB2
                  Herr1 Hunit1 Herr2 Hunit2) as Harith.
    destruct Hres2 as [[HS0 Hr2]|[(b' & ez & Hr2 & HS)|[Hr2 Hover]]].
    + rewrite Hr2. apply Z.leb_le. simpl exact_value. fold X0.
      subst Sz. destruct s; lia.
    + rewrite Hr2. apply Z.leb_le.
      pose proof (finite_valid _ s b' ez Hr2) as Hbz.
      destruct (bounded_canonical b' ez Hbz) as (Hez & _ & _).
      rewrite (exact_value_scaled s b' ez) in HS by lia.
      simpl exact_value. fold X0.
      set (Z0 := Zpos b' * 2 ^ (ez + 1074)) in *.
      subst Sz. destruct s; lia.
    + exfalso. destruct (top_floats m e Hb) as [Hsmall|[-> Htop]].
      * fold X0 in Hsmall.
        pose proof (round_trip_no_overflow X0 Y B1 Sz B2 ltac:(lia) HB1 HB2
                      Herr1 Hunit1 Herr2 Hunit2). lia.
      * now apply (top_floats_finite x s m Ex Htop).
  - (* the radians do not overflow *)
    exfalso. change (2 ^ (1024 + 1132)) with (2 ^ 2156) in Hover.
    unfold c_rad in *.
    destruct Hunit1 as [Hu|Hu]; lia.
Qed.

(** ** The degree properties, for every angle *)

(** C6. For each of the nine angles and every number [v] (of value [x] as a
    float): the setter stores [radians x] in the radian attribute and
    changes no other attribute and no other object; the getter returns
    [degrees] of what the radian attribute holds; and reading after writing
    returns [degrees (radians x)], which is [x] within the tolerance of the
    two roundings (a relative error of at most [2 ^ -51] plus 32 units of
    the least subnormal; infinities and NaN come back as they are). *)
Theorem degree_properties (h : heap) (t : loc) (q : angle) (v : value) (x : float) :
  is_target h t = true ->
  as_double v = Ok x ->
  (exists h',
     degree_setter q t v h = (Ok tt, h')
     /\ attr h' t (rad_field q) = Some (VFloat (radians x))
     /\ (forall name, name <> rad_field q -> attr h' t name = attr h t name)
     /\ (forall l, l <> t -> h' !! l = h !! l)
     /\ exists z,
          degree_getter q t h' = (Ok (VFloat z), h')
          /\ z = degrees (radians x)
          /\ within_tolerance x z = true)
  /\ (forall w y, attr h t (rad_field q) = Some w -> as_double w = Ok y ->
        degree_getter q t h = (Ok (VFloat (degrees y)), h)).
Proof.
  intros Ht Hx. split.
  - destruct (store_attr_spec h t (rad_field q) (VFloat (radians x)) Ht)
      as (h' & Hrun & Hv & Hother & Hframe & _).
    exists h'. rewrite degree_setter_unfold.
    erewrite bind_run by (apply math_radians_run; eassumption).
    split; [assumption|]. split; [assumption|]. split; [assumption|].
    split; [assumption|].
    exists (degrees (radians x)).
    split; [now apply degree_getter_run|]. split; [reflexivity|].
    apply degrees_radians_within_tolerance.
  - intros w y Hw Hy. rewrite degree_getter_unfold.
    erewrite bind_run by (apply load_attr_run; eassumption).
    now apply math_degrees_run.
Qed.

Lemma degree_properties_witness :
  (exists h',
     degree_setter Alt 0%nat (VFloat (-30)) store0 = (Ok tt, h')
     /\ attr h' 0%nat (rad_field Alt) = Some (VFloat (radians (-30)))
     /\ (forall name, name <> rad_field Alt -> attr h' 0%nat name = attr store0 0%nat name)
     /\ (forall l, l <> 0%nat -> h' !! l = store0 !! l)
     /\ exists z,
          degree_getter Alt 0%nat h' = (Ok (VFloat z), h')
          /\ z = degrees (radians (-30))
          /\ within_tolerance (-30) z = true)
  /\ (forall w y, attr store0 0%nat (rad_field Alt) = Some w -> as_double w = Ok y ->
        degree_getter Alt 0%nat store0 = (Ok (VFloat (degrees y)), store0)).
Proof.
  apply (degree_properties store0 0%nat Alt (VFloat (-30)) (-30)); reflexivity.
Defined.

Example degrees_radians_examples :
  degrees (radians 45) = 45%float
  /\ degrees (radians (-30)) = (-0x1.dffffffffffffp+4)%float
  /\ degrees (radians 90) = 90%float
  /\ degrees (radians nan) = nan
  /\ degrees (radians infinity) = infinity
  /\ degrees (radians 0x1p-1074) = 0%float.
Proof. repeat split; reflexivity. Qed.

(** * Further properties of the class *)

(** ** get_copy: the copy and its original *)

(** What a degree getter returns only depends on the radian attribute. *)
Lemma degree_getter_attr (h : heap) t q w :
  attr h t (rad_field q) = Some w ->
  degree_getter q t h = (outcome (math_degrees w h), h).
Proof.
  intros Hw. rewrite degree_getter_unfold.
  erewrite bind_run by (apply load_attr_run; eassumption).
  unfold math_degrees, mbind, M_bind, bind, lift, outcome.
  now destruct (as_double w).
Qed.

Lemma math_degrees_outcome w (h h' : heap) :
  outcome (math_degrees w h) = outcome (math_degrees w h').
Proof.
  unfold math_degrees, mbind, M_bind, bind, lift, outcome.
  now destruct (as_double w).
Qed.

Lemma rad_field_copied q : rad_field q ∈ copied_fields.
Proof. destruct q; unfold copied_fields; field_in. Qed.

Lemma rad_field_is_field q : rad_field q ∈ field_names.
Proof. apply copied_fields_are_fields, rad_field_copied. Qed.

(** X1. [get_copy] on every Target instance: the result is a new instance (no
    object of the store before the call), itself a Target; the twenty
    attributes of [copied_fields] are those of the original, [exp_times]
    holds the same items, the override [_exp_time] is [None]; each of the nine
    degree properties reads on the copy what it reads on the original; and
    no object that existed before the call has changed. *)
Theorem get_copy_fields (h : heap) (t : loc) :
  is_target h t = true ->
  exists c h',
    Target.get_copy t h = (Ok c, h')
    /\ h !! c = None
    /\ is_target h' c = true
    /\ (forall name, name ∈ copied_fields -> attr h' c name = attr h t name)
    /\ list_items h' (attr h' c "exp_times") = list_items h (attr h t "exp_times")
    /\ attr h' c "_exp_time" = Some VNone
    /\ (forall q, outcome (degree_getter q c h') = outcome (degree_getter q t h))
    /\ (forall l, (l < List.length h)%nat -> h' !! l = h !! l).
Proof.
  intros Ht.
  destruct (get_copy_spec h t Ht)
    as (c & r' & h' & Hrun & Hc & Hlc & Hlr & Hcopied & He & Hitems & Ho & Hold & _).
  exists c, h'. split; [assumption|].
  split; [now apply lookup_ge_None|]. split; [assumption|].
  split; [assumption|]. split; [now rewrite He|]. split; [assumption|].
  split; [|assumption].
  intros q.
  destruct (is_target_attr h t (rad_field q) Ht (rad_field_is_field q)) as [w Hw].
  rewrite (degree_getter_attr h t q w Hw).
  rewrite (degree_getter_attr h' c q w) by (rewrite Hcopied; auto using rad_field_copied).
  apply math_degrees_outcome.
Qed.

Lemma get_copy_fields_witness :
  exists c h',
    Target.get_copy 0%nat store0 = (Ok c, h')
    /\ store0 !! c = None
    /\ is_target h' c = true
    /\ (forall name, name ∈ copied_fields -> attr h' c name = attr store0 0%nat name)
    /\ list_items h' (attr h' c "exp_times")
       = list_items store0 (attr store0 0%nat "exp_times")
    /\ attr h' c "_exp_time" = Some VNone
    /\ (forall q, outcome (degree_getter q c h') = outcome (degree_getter q 0%nat store0))
    /\ (forall l, (l < List.length store0)%nat -> h' !! l = store0 !! l).
Proof. apply (get_copy_fields store0 0%nat). reflexivity. Defined.

(** X2. The copy shares no list with its original: after the copy, appending to
    the copy's [exp_times] leaves the original's items as they were, and
    assigning an item of the original's [exp_times] leaves the copy's. *)
Theorem get_copy_lists_independent (h : heap) (t : loc) (x : value) (i : nat)
    (xs : list value) :
  is_target h t = true ->
  list_items h (attr h t "exp_times") = Some xs ->
  (i < List.length xs)%nat ->
  exists c h1 vt vc,
    Target.get_copy t h = (Ok c, h1)
    /\ attr h1 t "exp_times" = Some vt
    /\ attr h1 c "exp_times" = Some vc
    /\ (exists h2,
          list_append vc x h1 = (Ok tt, h2)
          /\ list_items h2 (attr h2 t "exp_times") = Some xs
          /\ list_items h2 (attr h2 c "exp_times") = Some (xs ++ [x]))
    /\ (exists h2,
          list_setitem vt i x h1 = (Ok tt, h2)
          /\ list_items h2 (attr h2 t "exp_times") = Some (<[i := x]> xs)
          /\ list_items h2 (attr h2 c "exp_times") = Some xs).
Proof.
  intros Ht Hxs Hi.
  destruct (get_copy_spec h t Ht)
    as (c & r' & h1 & Hrun & Hc & Hlc & Hlr & Hcopied & He & Hitems & _ & Hold & Hattr & Hlist).
  destruct (is_target_exp_times _ _ Ht) as (r & ys & Her & Hr).
  assert (ys = xs) as ->.
  { rewrite Her in Hxs. simpl in Hxs. rewrite Hr in Hxs. congruence. }
  pose proof (lookup_lt_Some _ _ _ Hr) as Hltr.
  destruct (is_target_object _ _ Ht) as [d Hd].
  pose proof (lookup_lt_Some _ _ _ Hd) as Hltt.
  assert (Hr' : h1 !! r' = Some (OList xs)).
  { rewrite Hxs in Hitems. simpl in Hitems. destruct (h1 !! r') as [[]|]; congruence. }
  assert (Hr1 : h1 !! r = Some (OList xs)) by (rewrite Hold; assumption).
  assert (Het : attr h1 t "exp_times" = Some (VRef r)).
  { unfold attr. rewrite Hold by assumption. fold (attr h t "exp_times"). assumption. }
  assert (Hne : r' <> c).
  { intros ->. destruct (attr_is_object _ _ _ _ He) as [d' Hd']. congruence. }
  assert (Hrt : r <> t) by (intros ->; congruence).
  exists c, h1, (VRef r), (VRef r').
  split; [assumption|]. split; [assumption|]. split; [assumption|]. split.
  - exists (<[r' := OList (xs ++ [x])]> h1).
    split; [now apply list_append_run|]. split.
    + rewrite Hattr, Hlist. assumption.
    + rewrite attr_insert_ne by assumption. rewrite He. simpl.
      rewrite list_lookup_insert_eq by eauto using lookup_lt_Some. reflexivity.
  - exists (<[r := OList (<[i := x]> xs)]> h1).
    split; [now apply list_setitem_run|]. split.
    + rewrite attr_insert_ne by assumption. rewrite Het. simpl.
      rewrite list_lookup_insert_eq by eauto using lookup_lt_Some. reflexivity.
    + rewrite attr_insert_ne by lia. rewrite He. simpl.
      rewrite list_lookup_insert_ne by lia. now rewrite Hr'.
Qed.

Lemma get_copy_lists_independent_witness :
  exists c h1 vt vc,
    Target.get_copy 0%nat store0 = (Ok c, h1)
    /\ attr h1 0%nat "exp_times" = Some vt
    /\ attr h1 c "exp_times" = Some vc
    /\ (exists h2,
          list_append vc (VFloat 20) h1 = (Ok tt, h2)
          /\ list_items h2 (attr h2 0%nat "exp_times") = Some [VFloat 15; VFloat 15]
          /\ list_items h2 (attr h2 c "exp_times")
             = Some ([VFloat 15; VFloat 15] ++ [VFloat 20]))
    /\ (exists h2,
          list_setitem vt 1%nat (VFloat 20) h1 = (Ok tt, h2)
          /\ list_items h2 (attr h2 0%nat "exp_times")
             = Some (<[1%nat := VFloat 20]> [VFloat 15; VFloat 15])
          /\ list_items h2 (attr h2 c "exp_times") = Some [VFloat 15; VFloat 15]).
Proof.
  apply (get_copy_lists_independent store0 0%nat (VFloat 20) 1%nat
           [VFloat 15; VFloat 15]).
  - reflexivity.
  - reflexivity.
  - simpl. lia.
Defined.

(** X3. The copy never carries the override of the exposure time: whatever
    [_exp_time] the original holds, the copy's [exp_time] is [sum] of the
    exposure times, while the original still reads its override. *)
Theorem get_copy_exp_time_is_sum (h : heap) (t : loc) (xs : list value) :
  is_target h t = true ->
  list_items h (attr h t "exp_times") = Some xs ->
  exists c h',
    Target.get_copy t h = (Ok c, h')
    /\ Target.exp_time c h' = lift (sum_from (VInt 0) xs) h'
    /\ (forall v, attr h t "_exp_time" = Some v -> v <> VNone ->
          Target.exp_time t h' = (Ok v, h')).
Proof.
  intros Ht Hxs.
  destruct (get_copy_spec h t Ht)
    as (c & r' & h' & Hrun & Hc & Hlc & Hlr & Hcopied & He & Hitems & Ho & Hold & _).
  destruct (is_target_object _ _ Ht) as [d Hd].
  pose proof (lookup_lt_Some _ _ _ Hd) as Hltt.
  exists c, h'. split; [assumption|]. split.
  - rewrite Hxs in Hitems. simpl in Hitems.
    eapply exp_time_unset_run; [eassumption|eassumption|].
    destruct (h' !! r') as [[]|]; congruence.
  - intros v Hv Hne. apply exp_time_set_run; [|assumption].
    unfold attr. rewrite Hold by assumption. exact Hv.
Qed.

Lemma get_copy_exp_time_is_sum_witness :
  exists c h',
    Target.get_copy 0%nat store0 = (Ok c, h')
    /\ Target.exp_time c h' = lift (sum_from (VInt 0) [VFloat 15; VFloat 15]) h'
    /\ (forall v, attr store0 0%nat "_exp_time" = Some v -> v <> VNone ->
          Target.exp_time 0%nat h' = (Ok v, h')).
Proof.
  apply (get_copy_exp_time_is_sum store0 0%nat [VFloat 15; VFloat 15]); reflexivity.
Defined.

(** ** copy_driver_state: the statements as a loop over the driver attributes *)

(** One statement [self.name = target.name]. *)
Definition copy_one (self : loc) (target : value) (name : string) : M unit :=
  v ← load_attr target name; store_attr self name v.

(** The attribute that [target.name] reads, when [target] is an instance
    that has it. *)
Definition source_attr (h : heap) (target : value) (name : string) : option value :=
  match target with
  | VRef a => attr h a name
  | _ => None
  end.

(** A value that is no reference, or a reference to an object of the store. *)
Definition valid_value (h : heap) (v : value) : bool :=
  match v with
  | VRef r => is_some (h !! r)
  | _ => true
  end.

(** The assignments of the loop on the attribute dictionary [d] of [self],
    up to the first attribute that the source does not have. *)
Fixpoint copy_run (src : string -> option value) (names : list string)
    (d : dict value) : result unit * dict value :=
  match names with
  | [] => (Ok tt, d)
  | n :: names' =>
      match src n with
      | Some v => copy_run src names' (dict_set d n v)
      | None => (Raise AttributeError, d)
      end
  end.

Lemma copy_driver_state_loop self target (h : heap) :
  Target.copy_driver_state self target h
  = for_each driver_state (copy_one self target) h.
Proof.
  unfold Target.copy_driver_state, driver_state, copy_one.
  cbn [for_each]. unfold mbind, M_bind, bind, ret.
  repeat (match goal with
          | |- context [load_attr ?a ?n ?s] =>
              destruct (load_attr a n s) as [[?|?] ?]; [|reflexivity]
          | |- context [store_attr ?a ?n ?v ?s] =>
              destruct (store_attr a n v s) as [[[]|?] ?]; [|reflexivity]
          end).
  reflexivity.
Qed.

Lemma load_attr_source (h : heap) target name :
  valid_value h target = true ->
  load_attr target name h
  = (match source_attr h target name with
     | Some v => Ok v
     | None => Raise AttributeError
     end, h).
Proof.
  unfold valid_value, source_attr, load_attr, attr.
  destruct target; try reflexivity.
  destruct (h !! r) as [[| |d]|]; try reflexivity; try discriminate.
  now destruct (dict_get d name).
Qed.

Lemma source_attr_insert (h : heap) b o target name :
  target <> VRef b ->
  source_attr (<[b := o]> h) target name = source_attr h target name.
Proof.
  intros Hne. destruct target; try reflexivity.
  simpl. apply attr_insert_ne. congruence.
Qed.

Lemma valid_value_insert (h : heap) b o target :
  valid_value h target = true -> valid_value (<[b := o]> h) target = true.
Proof.
  destruct target; try reflexivity. simpl.
  destruct (h !! r) eqn:E; [|discriminate]. intros _.
  destruct (decide (b = r)) as [->|Hne].
  - rewrite list_lookup_insert_eq by eauto using lookup_lt_Some. reflexivity.
  - rewrite list_lookup_insert_ne by assumption. now rewrite E.
Qed.

Lemma copy_loop_run names : forall (h : heap) b d target,
  (b < List.length h)%nat -> target <> VRef b -> valid_value h target = true ->
  for_each names (copy_one b target) (<[b := OTarget d]> h)
  = (fst (copy_run (source_attr h target) names d),
     <[b := OTarget (snd (copy_run (source_attr h target) names d))]> h).
Proof.
  induction names as [|n names IH]; intros h b d target Hlt Hne Hv; [reflexivity|].
  assert (Hstep : copy_one b target n (<[b := OTarget d]> h)
                  = match source_attr h target n with
                    | Some v => (Ok tt, <[b := OTarget (dict_set d n v)]> h)
                    | None => (Raise AttributeError, <[b := OTarget d]> h)
                    end).
  { unfold copy_one, mbind, M_bind, bind.
    rewrite load_attr_source by now apply valid_value_insert.
    rewrite source_attr_insert by assumption.
    destruct (source_attr h target n) as [v|]; [|reflexivity].
    now apply store_attr_run_ins. }
  cbn [for_each copy_run]. unfold mbind, M_bind, bind. rewrite Hstep.
  destruct (source_attr h target n) as [v|]; [|reflexivity].
  now apply IH.
Qed.

Lemma copy_run_app src pre post : forall d,
  (forall n, n ∈ pre -> is_Some (src n)) ->
  copy_run src (pre ++ post) d
  = copy_run src post (snd (copy_run src pre d)).
Proof.
  induction pre as [|n pre IH]; intros d Hpre; [reflexivity|].
  simpl. destruct (Hpre n) as [v Hv]; [apply list_elem_of_here|].
  rewrite Hv. apply IH. intros m Hm. apply Hpre. now apply list_elem_of_further.
Qed.

Lemma copy_run_ok src names : forall d,
  (forall n, n ∈ names -> is_Some (src n)) ->
  fst (copy_run src names d) = Ok tt.
Proof.
  induction names as [|n names IH]; intros d Hall; [reflexivity|].
  simpl. destruct (Hall n) as [v Hv]; [apply list_elem_of_here|].
  rewrite Hv. apply IH. intros m Hm. apply Hall. now apply list_elem_of_further.
Qed.

(** After the assignments an attribute named in the loop holds the source's
    value, and every other attribute is as before. *)
Lemma copy_run_get src names : forall d k,
  (forall n, n ∈ names -> is_Some (src n)) ->
  dict_get (snd (copy_run src names d)) k
  = if decide (k ∈ names) then src k else dict_get d k.
Proof.
  induction names as [|n names IH]; intros d k Hall.
  - simpl. destruct (decide (k ∈ [])) as [Hin|_]; [inversion Hin|reflexivity].
  - simpl. destruct (Hall n) as [v Hv]; [apply list_elem_of_here|].
    rewrite Hv. rewrite IH by (intros m Hm; apply Hall; now apply list_elem_of_further).
    destruct (decide (k ∈ names)) as [Hin|Hout].
    + rewrite decide_True by now apply list_elem_of_further. reflexivity.
    + rewrite dict_get_set. destruct (String.eqb n k) eqn:E.
      * apply String.eqb_eq in E. subst k.
        rewrite decide_True by apply list_elem_of_here. now rewrite Hv.
      * rewrite decide_False; [reflexivity|].
        intros Hin. apply elem_of_cons in Hin as [->|Hin]; [|contradiction].
        now rewrite String.eqb_refl in E.
Qed.

(** Setting again what the dictionary already holds changes nothing. *)
Lemma copy_run_id src names : forall d,
  (forall n, n ∈ names -> is_Some (src n) /\ dict_get d n = src n) ->
  copy_run src names d = (Ok tt, d).
Proof.
  induction names as [|n names IH]; intros d Hall; [reflexivity|].
  simpl. destruct (Hall n) as [[v Hv] Hd]; [apply list_elem_of_here|].
  rewrite Hv. rewrite dict_set_id by congruence.
  apply IH. intros m Hm. apply Hall. now apply list_elem_of_further.
Qed.

Lemma is_target_source (h : heap) a n :
  is_target h a = true -> n ∈ driver_state -> is_Some (source_attr h (VRef a) n).
Proof.
  intros Ha Hin. simpl.
  destruct (is_target_attr h a n Ha) as [v Hv]; [|eauto].
  unfold driver_state in Hin.
  repeat (apply elem_of_cons in Hin as [->|Hin]; [field_in|]).
  inversion Hin.
Qed.

(** The store after [b.copy_driver_state(a)] on two different instances. *)
Lemma copy_driver_state_run (h : heap) a b db :
  is_target h a = true -> h !! b = Some (OTarget db) -> a <> b ->
  Target.copy_driver_state b (VRef a) h
  = (Ok tt, <[b := OTarget (snd (copy_run (source_attr h (VRef a)) driver_state db))]> h).
Proof.
  intros Ha Hb Hne. rewrite copy_driver_state_loop.
  rewrite <- (list_insert_id h b (OTarget db) Hb) at 1.
  rewrite copy_loop_run.
  - rewrite copy_run_ok; [reflexivity|]. intros n Hn. now apply is_target_source.
  - eauto using lookup_lt_Some.
  - congruence.
  - destruct (is_target_object _ _ Ha) as [da Hda]. simpl. now rewrite Hda.
Qed.

(** ** copy_driver_state: composition, repetition, failure *)

(** The angles whose radian attribute belongs to the driver state. *)
Definition driver_angle (q : angle) : bool :=
  match q with
  | Ra | Dec => false
  | _ => true
  end.

Lemma driver_angle_spec q : driver_angle q = true <-> rad_field q ∈ driver_state.
Proof.
  unfold driver_state. destruct q; simpl; split; intros H; try field_in;
    try discriminate; try reflexivity;
    repeat (apply elem_of_cons in H as [H|H]; [discriminate|]); inversion H.
Qed.

(** X4. After [b.copy_driver_state(a)] the seven degree properties of the driver
    state ([alt], [az], [rot], [telalt], [telaz], [telrot], [ang]) read on [b]
    what they read on [a], value or exception, while [ra] and [dec] of [b]
    read as before. *)
Theorem copy_driver_state_getters (h : heap) (a b : loc) (q : angle) :
  is_target h a = true -> is_target h b = true ->
  exists h',
    Target.copy_driver_state b (VRef a) h = (Ok tt, h')
    /\ outcome (degree_getter q b h')
       = outcome (degree_getter q (if driver_angle q then a else b) h).
Proof.
  intros Ha Hb. destruct (decide (a = b)) as [->|Hne].
  - exists h. split; [now apply copy_driver_state_self|]. now destruct (driver_angle q).
  - destruct (is_target_object _ _ Hb) as [db Hdb].
    pose proof (lookup_lt_Some _ _ _ Hdb) as Hlt.
    eexists. split; [apply (copy_driver_state_run h a b db); assumption|].
    assert (Hall : forall n, n ∈ driver_state -> is_Some (source_attr h (VRef a) n))
      by (intros n Hn; now apply is_target_source).
    destruct (driver_angle q) eqn:Eq.
    + apply driver_angle_spec in Eq.
      destruct (Hall _ Eq) as [w Hw]. simpl in Hw.
      rewrite (degree_getter_attr h a q w Hw).
      rewrite (degree_getter_attr _ b q w).
      * apply math_degrees_outcome.
      * rewrite attr_insert by assumption.
        rewrite copy_run_get by assumption.
        rewrite decide_True by assumption. exact Hw.
    + assert (Hout : rad_field q ∉ driver_state).
      { intros Hin. apply driver_angle_spec in Hin. congruence. }
      destruct (is_target_attr h b (rad_field q) Hb (rad_field_is_field q)) as [w Hw].
      rewrite (degree_getter_attr h b q w Hw).
      rewrite (degree_getter_attr _ b q w).
      * apply math_degrees_outcome.
      * rewrite attr_insert by assumption.
        rewrite copy_run_get by assumption.
        rewrite decide_False by assumption.
        now rewrite <- (attr_lookup _ _ _ _ Hdb).
Qed.

Lemma copy_driver_state_getters_witness :
  exists h',
    Target.copy_driver_state 2%nat (VRef 0%nat) store0 = (Ok tt, h')
    /\ outcome (degree_getter Telaz 2%nat h')
       = outcome (degree_getter Telaz (if driver_angle Telaz then 0%nat else 2%nat) store0).
Proof. apply (copy_driver_state_getters store0 0%nat 2%nat Telaz); reflexivity. Defined.

(** X5. [copy_driver_state] is idempotent: a second call with the same source
    leaves the store as the first call left it; and copying the driver state
    of an instance onto itself changes nothing at all. *)
Theorem copy_driver_state_idempotent (h : heap) (a b : loc) :
  is_target h a = true -> is_target h b = true ->
  exists h',
    Target.copy_driver_state b (VRef a) h = (Ok tt, h')
    /\ Target.copy_driver_state b (VRef a) h' = (Ok tt, h')
    /\ (a = b -> h' = h).
Proof.
  intros Ha Hb. destruct (decide (a = b)) as [->|Hne].
  - exists h. rewrite copy_driver_state_self by assumption. auto.
  - destruct (is_target_object _ _ Hb) as [db Hdb].
    destruct (is_target_object _ _ Ha) as [da Hda].
    pose proof (lookup_lt_Some _ _ _ Hdb) as Hlt.
    assert (Hall : forall n, n ∈ driver_state -> is_Some (source_attr h (VRef a) n))
      by (intros n Hn; now apply is_target_source).
    set (src := source_attr h (VRef a)) in *.
    set (d1 := snd (copy_run src driver_state db)).
    exists (<[b := OTarget d1]> h).
    split; [apply copy_driver_state_run; assumption|].
    split; [|congruence].
    rewrite copy_driver_state_loop, copy_loop_run.
    + fold src. rewrite copy_run_id; [reflexivity|].
      intros n Hn. split; [auto|].
      unfold d1. rewrite copy_run_get by assumption. now rewrite decide_True.
    + assumption.
    + congruence.
    + simpl. now rewrite Hda.
Qed.

Lemma copy_driver_state_idempotent_witness :
  exists h',
    Target.copy_driver_state 2%nat (VRef 0%nat) store0 = (Ok tt, h')
    /\ Target.copy_driver_state 2%nat (VRef 0%nat) h' = (Ok tt, h')
    /\ (0%nat = 2%nat -> h' = store0).
Proof. apply (copy_driver_state_idempotent store0 0%nat 2%nat); reflexivity. Defined.

(** X6. [copy_driver_state] is not atomic.  When the source lacks one of the
    seven attributes (it is no instance at all, as [None] or a list, or an
    instance without that attribute) the call raises [AttributeError] at the
    first missing one, in the order of the statements; the attributes
    before it have been copied by then and stay copied, the others are as
    before, and no other object has changed. *)
Theorem copy_driver_state_partial (h : heap) (b : loc) (target : value)
    (pre post : list string) (f : string) :
  is_target h b = true ->
  valid_value h target = true -> target <> VRef b ->
  driver_state = pre ++ f :: post ->
  (forall n, n ∈ pre -> is_Some (source_attr h target n)) ->
  source_attr h target f = None ->
  exists h',
    Target.copy_driver_state b target h = (Raise AttributeError, h')
    /\ (forall n, n ∈ pre -> attr h' b n = source_attr h target n)
    /\ (forall n, n ∉ pre -> attr h' b n = attr h b n)
    /\ (forall l, l <> b -> h' !! l = h !! l).
Proof.
  intros Hb Hv Hne Hsplit Hpre Hf.
  destruct (is_target_object _ _ Hb) as [db Hdb].
  pose proof (lookup_lt_Some _ _ _ Hdb) as Hlt.
  set (src := source_attr h target) in *.
  exists (<[b := OTarget (snd (copy_run src pre db))]> h).
  split.
  { rewrite copy_driver_state_loop.
    rewrite <- (list_insert_id h b (OTarget db) Hdb) at 1.
    rewrite copy_loop_run by assumption. fold src.
    rewrite Hsplit, copy_run_app by assumption.
    simpl. now rewrite Hf. }
  split; [|split].
  - intros n Hn. rewrite attr_insert by assumption.
    rewrite copy_run_get by assumption. now rewrite decide_True.
  - intros n Hn. rewrite attr_insert by assumption.
    rewrite copy_run_get by assumption. rewrite decide_False by assumption.
    symmetry. now apply attr_lookup.
  - intros l Hl. now rewrite list_lookup_insert_ne.
Qed.

(** A store with a third object that has only two of the driver attributes. *)
Definition store1 : heap :=
  store0 ++ [OTarget [("alt_rad", VFloat 0.5); ("az_rad", VFloat 3)]].

Lemma copy_driver_state_partial_witness :
  exists h',
    Target.copy_driver_state 2%nat (VRef 4%nat) store1 = (Raise AttributeError, h')
    /\ (forall n, n ∈ ["alt_rad"; "az_rad"] ->
          attr h' 2%nat n = source_attr store1 (VRef 4%nat) n)
    /\ (forall n, n ∉ ["alt_rad"; "az_rad"] -> attr h' 2%nat n = attr store1 2%nat n)
    /\ (forall l, l <> 2%nat -> h' !! l = store1 !! l).
Proof.
  apply (copy_driver_state_partial store1 2%nat (VRef 4%nat)
           ["alt_rad"; "az_rad"]
           ["telalt_rad"; "telaz_rad"; "telrot_rad"; "ang_rad"] "rot_rad").
  - reflexivity.
  - reflexivity.
  - discriminate.
  - reflexivity.
  - intros n Hn.
    repeat (apply elem_of_cons in Hn as [->|Hn]; [simpl; eauto|]).
    inversion Hn.
  - reflexivity.
Defined.

(** ** The degree properties: values that are no numbers *)

Definition is_number (v : value) : bool :=
  match v with
  | VBool _ | VInt _ | VFloat _ => true
  | _ => false
  end.

(** The name of each degree property, as [setattr] receives it. *)
Definition prop_name (q : angle) : string :=
  match q with
  | Ra => "ra" | Dec => "dec" | Ang => "ang"
  | Alt => "alt" | Az => "az" | Rot => "rot"
  | Telalt => "telalt" | Telaz => "telaz" | Telrot => "telrot"
  end.

Lemma setattr_degree q t v : Target.setattr t (prop_name q) v = degree_setter q t v.
Proof. now destruct q. Qed.

Lemma as_double_not_number v : is_number v = false -> as_double v = Raise TypeError.
Proof. destruct v; simpl; congruence. Qed.

Lemma setattr_degree_rejects (h : heap) t q v :
  is_number v = false -> Target.setattr t (prop_name q) v h = (Raise TypeError, h).
Proof.
  intros Hv. apply as_double_not_number in Hv.
  rewrite setattr_degree, degree_setter_unfold.
  unfold math_radians, mbind, M_bind, bind, lift. now rewrite Hv.
Qed.

(** X7. A value that is no number ([None], a str, a list, a dict, an instance)
    is refused by each of the nine setters with [TypeError], also when the
    assignment goes through [setattr], and the store is left as it was; a
    getter raises [TypeError] when the radian attribute holds such a value. *)
Theorem degree_setters_reject (h : heap) (t : loc) (q : angle) (v : value) :
  is_number v = false ->
  degree_setter q t v h = (Raise TypeError, h)
  /\ Target.setattr t (prop_name q) v h = (Raise TypeError, h)
  /\ (attr h t (rad_field q) = Some v -> degree_getter q t h = (Raise TypeError, h)).
Proof.
  intros Hv. apply as_double_not_number in Hv.
  assert (Hset : degree_setter q t v h = (Raise TypeError, h)).
  { rewrite degree_setter_unfold.
    unfold math_radians, mbind, M_bind, bind, lift. now rewrite Hv. }
  split; [assumption|]. split; [now rewrite setattr_degree|].
  intros Hw. rewrite (degree_getter_attr h t q v Hw).
  unfold math_degrees, mbind, M_bind, bind, lift, outcome. now rewrite Hv.
Qed.

Lemma degree_setters_reject_witness :
  degree_setter Dec 0%nat (VStr "north") store0 = (Raise TypeError, store0)
  /\ Target.setattr 0%nat (prop_name Dec) (VStr "north") store0 = (Raise TypeError, store0)
  /\ (attr store0 0%nat (rad_field Dec) = Some (VStr "north") ->
      degree_getter Dec 0%nat store0 = (Raise TypeError, store0)).
Proof. apply (degree_setters_reject store0 0%nat Dec (VStr "north")). reflexivity. Defined.

(** ** Rounding in binary64: radians to degrees and back *)

(** The conversion to degrees of a finite number overflows. *)
Definition degrees_overflows (y : float) : bool :=
  match Prim2SF y, Prim2SF (degrees y) with
  | S754_finite _ _ _, S754_infinity _ => true
  | _, _ => false
  end.

Lemma round_trip_arith_rev (X0 Y B1 Sz B2 : Z) :
  0 < X0 -> 0 < B1 -> 0 < B2 ->
  Z.abs (Y - Zpos c_deg * X0) <= B1 ->
  (B1 * 2 ^ 53 <= Zpos c_deg * X0 \/ B1 = 2 ^ 46) ->
  Z.abs (Sz - Zpos c_rad * Y) <= B2 ->
  (B2 * 2 ^ 53 <= Zpos c_rad * Y \/ B2 = 2 ^ 104) ->
  2 ^ 51 * Z.abs (Sz - 2 ^ 105 * X0) <= 2 ^ 105 * X0 + 2 ^ 161.
Proof.
  unfold c_rad, c_deg. intros HX HB1 HB2 H1 H1' H2 H2'.
  destruct H1' as [H1'|H1'], H2' as [H2'|H2']; lia.
Qed.

Lemma round_trip_rev_no_overflow (Y0 Y Sz B2 : Z) :
  Y = 2 ^ 47 * Y0 -> 0 < Y0 <= (2 ^ 53 - 1) * 2 ^ 2045 -> 0 < B2 ->
  Z.abs (Sz - Zpos c_rad * Y) <= B2 ->
  (B2 * 2 ^ 53 <= Zpos c_rad * Y \/ B2 = 2 ^ 104) ->
  Sz < 2 ^ (1024 + 1179).
Proof.
  unfold c_rad. intros -> HY HB2 H2 H2'.
  change (2 ^ (1024 + 1179)) with (2 ^ 2203).
  destruct H2' as [H2'|H2']; lia.
Qed.

Lemma degrees_stage_no_overflow (X0 Y B1 : Z) :
  0 < X0 <= 2 ^ 2092 -> 0 < B1 ->
  Z.abs (Y - Zpos c_deg * X0) <= B1 ->
  (B1 * 2 ^ 53 <= Zpos c_deg * X0 \/ B1 = 2 ^ 46) ->
  Y < 2 ^ (1024 + 1121).
Proof.
  unfold c_deg. intros HX HB1 H1 H1'.
  change (2 ^ (1024 + 1121)) with (2 ^ 2145).
  destruct H1' as [H1'|H1']; lia.
Qed.

Lemma scaled_47 (m : positive) (e : Z) :
  -1074 <= e -> Zpos m * 2 ^ (e + 1121) = 2 ^ 47 * (Zpos m * 2 ^ (e + 1074)).
Proof.
  intros He. replace (e + 1121) with (47 + (e + 1074)) by lia.
  rewrite Z.pow_add_r by lia. ring.
Qed.

(** A number of magnitude at most [2 ^ 1018] (that is [2 ^ 2092] units of
    [2 ^ -1074]) converts to degrees without overflow. *)
Lemma degrees_no_overflow (y : float) :
  Z.abs (exact_value (Prim2SF y)) <= 2 ^ 2092 -> degrees_overflows y = false.
Proof.
  unfold degrees_overflows.
  destruct (Prim2SF y) as [s|s| |s m e] eqn:Ey; try reflexivity.
  intros Hmag.
  pose proof (finite_valid y s m e Ey) as Hb.
  destruct (bounded_canonical m e Hb) as (He & _ & _).
  pose proof (magnitude_bound m e Hb) as HX0.
  destruct (mul_const_values s m c_deg e (-47) 1121 Hb c_deg_range
              ltac:(lia) ltac:(lia)) as (Y & B1 & HB1 & Herr1 & Hunit1 & Hres1).
  replace (e + -47 + 1121) with (e + 1074) in * by lia.
  change (2 ^ (1121 - 1075)) with (2 ^ 46) in Hunit1.
  simpl exact_value in Hmag.
  set (X0 := Zpos m * 2 ^ (e + 1074)) in *.
  assert (HX : 0 < X0 <= 2 ^ 2092) by (destruct s; lia).
  rewrite degrees_SF, Ey.
  destruct Hres1 as [[_ ->]|[(a' & ey & -> & _)|[_ Hover]]]; try reflexivity.
  exfalso.
  pose proof (degrees_stage_no_overflow X0 Y B1 HX HB1 Herr1 Hunit1). lia.
Qed.

(** Radians to degrees and back returns the number within the tolerance,
    unless the conversion to degrees overflows. *)
Lemma radians_degrees_within_tolerance (y : float) :
  degrees_overflows y = false -> within_tolerance y (radians (degrees y)) = true.
Proof.
  unfold within_tolerance, degrees_overflows.
  destruct (Prim2SF y) as [s|s| |s m e] eqn:Ey.
  1-3: intros _; apply Leibniz.eqb_spec, Prim2SF_inj;
       rewrite radians_SF, degrees_SF, Ey; try destruct s; reflexivity.
  intros Hno.
  pose proof (finite_valid y s m e Ey) as Hb.
  destruct (bounded_canonical m e Hb) as (He & _ & _).
  pose proof (magnitude_bound m e Hb) as HX0.
  destruct (mul_const_values s m c_deg e (-47) 1121 Hb c_deg_range
              ltac:(lia) ltac:(lia)) as (Y & B1 & HB1 & Herr1 & Hunit1 & Hres1).
  replace (e + -47 + 1121) with (e + 1074) in * by lia.
  change (2 ^ (1121 - 1075)) with (2 ^ 46) in Hunit1.
  set (X0 := Zpos m * 2 ^ (e + 1074)) in *.
  assert (Hy : Prim2SF (degrees y)
               = SF64mul (S754_finite s m e) (S754_finite false c_deg (-47)))
    by (now rewrite degrees_SF, Ey).
  rewrite <- Hy in Hres1.
  destruct Hres1 as [[HY0 Hr1]|[(a' & ey & Hr1 & HY)|[Hr1 Hover]]].
  - (* the degrees do not underflow to zero *)
    exfalso. subst Y. unfold c_deg in *.
    destruct Hunit1 as [Hu|Hu]; lia.
  - pose proof (finite_valid _ s a' ey Hr1) as Hby.
    destruct (bounded_canonical a' ey Hby) as (Hey & _ & _).
    pose proof (magnitude_bound a' ey Hby) as HY0.
    destruct (mul_const_values s a' c_rad ey (-58) 1179 Hby c_rad_range
                ltac:(lia) ltac:(lia)) as (Sz & B2 & HB2 & Herr2 & Hunit2 & Hres2).
    replace (ey + -58 + 1179) with (ey + 1121) in * by lia.
    change (2 ^ (1179 - 1075)) with (2 ^ 104) in Hunit2.
    rewrite <- HY in Herr2, Hunit2.
    assert (Hz : Prim2SF (radians (degrees y))
                 = SF64mul (S754_finite s a' ey) (S754_finite false c_rad (-58)))
      by (now rewrite radians_SF, Hr1).
    rewrite <- Hz in Hres2.
    pose proof (round_trip_arith_rev X0 Y B1 Sz B2 ltac:(lia) HB1 HB2
                  Herr1 Hunit1 Herr2 Hunit2) as Harith.
    destruct Hres2 as [[HS0 Hr2]|[(b' & ez & Hr2 & HS)|[Hr2 Hover]]].
    + rewrite Hr2. apply Z.leb_le. simpl exact_value. fold X0.
      subst Sz. destruct s; lia.
    + rewrite Hr2. apply Z.leb_le.
      pose proof (finite_valid _ s b' ez Hr2) as Hbz.
      destruct (bounded_canonical b' ez Hbz) as (Hez & _ & _).
      rewrite (exact_value_scaled s b' ez) in HS by lia.
      simpl exact_value. fold X0.
      set (Z0 := Zpos b' * 2 ^ (ez + 1074)) in *.
      subst Sz. destruct s; lia.
    + exfalso. rewrite (scaled_47 a' ey) in HY by lia.
      pose proof (round_trip_rev_no_overflow _ Y Sz B2 HY HY0 HB2 Herr2 Hunit2). lia.
  - rewrite Hr1 in Hno. discriminate.
Qed.

(** X8. Assigning to a degree property the value that it reads
    ([t.alt = t.alt], for each of the nine): the getter returns
    [degrees y] for the radian attribute [y], the setter stores
    [radians (degrees y)] and changes nothing else; the stored radians are [y]
    within the tolerance of the two roundings unless the conversion to
    degrees overflows, which it does not for a magnitude up to [2 ^ 1018]. *)
Theorem degree_property_reassign (h : heap) (t : loc) (q : angle) (y : float) :
  is_target h t = true ->
  attr h t (rad_field q) = Some (VFloat y) ->
  exists z h' y',
    degree_getter q t h = (Ok (VFloat z), h)
    /\ degree_setter q t (VFloat z) h = (Ok tt, h')
    /\ attr h' t (rad_field q) = Some (VFloat y')
    /\ y' = radians (degrees y)
    /\ (forall name, name <> rad_field q -> attr h' t name = attr h t name)
    /\ (forall l, l <> t -> h' !! l = h !! l)
    /\ (degrees_overflows y = false -> within_tolerance y y' = true)
    /\ (Z.abs (exact_value (Prim2SF y)) <= 2 ^ 2092 -> degrees_overflows y = false).
Proof.
  intros Ht Hy.
  destruct (store_attr_spec h t (rad_field q) (VFloat (radians (degrees y))) Ht)
    as (h' & Hrun & Hv & Hother & Hframe & _).
  exists (degrees y), h', (radians (degrees y)).
  split; [now apply degree_getter_run|].
  split.
  { rewrite degree_setter_unfold.
    erewrite bind_run by (apply math_radians_run; reflexivity). assumption. }
  split; [assumption|]. split; [reflexivity|].
  split; [assumption|]. split; [assumption|].
  split; [apply radians_degrees_within_tolerance|apply degrees_no_overflow].
Qed.

Lemma degree_property_reassign_witness :
  exists z h' y',
    degree_getter Alt 0%nat store0 = (Ok (VFloat z), store0)
    /\ degree_setter Alt 0%nat (VFloat z) store0 = (Ok tt, h')
    /\ attr h' 0%nat (rad_field Alt) = Some (VFloat y')
    /\ y' = radians (degrees 1.25)
    /\ (forall name, name <> rad_field Alt -> attr h' 0%nat name = attr store0 0%nat name)
    /\ (forall l, l <> 0%nat -> h' !! l = store0 !! l)
    /\ (degrees_overflows 1.25 = false -> within_tolerance 1.25 y' = true)
    /\ (Z.abs (exact_value (Prim2SF 1.25)) <= 2 ^ 2092 -> degrees_overflows 1.25 = false).
Proof. apply (degree_property_reassign store0 0%nat Alt 1.25); reflexivity. Defined.

Example radians_degrees_examples :
  radians (degrees 1.25) = 1.25%float
  /\ radians (degrees 0x1p-1074) = 0x1p-1074%float
  /\ degrees_overflows 0x1p1018 = false
  /\ degrees_overflows 0x1p1019 = true
  /\ radians (degrees 0x1p1019) = infinity.
Proof. repeat split; reflexivity. Qed.

(** ** from_json: a payload that is no object *)

Definition is_object (j : json) : bool :=
  match j with
  | JObj _ => true
  | _ => false
  end.

(** X9. A payload that is valid JSON but no object (null, a number, a string,
    an array) has no [keys()]: [from_json] raises [AttributeError], not the
    [KeyError] of a missing field, and no object that existed before the call
    has changed. *)
Theorem from_json_not_object (h : heap) (t : loc) (j : json) :
  is_object j = false ->
  exists h',
    Target.from_json t j h = (Raise AttributeError, h')
    /\ (forall l, (l < List.length h)%nat -> h' !! l = h !! l).
Proof.
  intros Hj. destruct j as [| | | | |js|ms]; try discriminate.
  1-5: exists h; split; [reflexivity|auto].
  destruct (loads_items_extends js h) as [e He].
  assert (Hl : json_loads (JArr js) h
               = (Ok (VRef (List.length (h ++ e))),
                  (h ++ e) ++ [OList (fst (loads_items js h))])).
  { unfold json_loads. rewrite loads_arr.
    destruct (loads_items js h) as [vs h1]. simpl in He. now subst h1. }
  eexists. split.
  - rewrite from_json_unfold. erewrite bind_run by exact Hl.
    unfold Target.mandatory_fields. cbn [for_each].
    unfold mbind, M_bind, bind, check_field, mbind, M_bind, bind, dict_items.
    now rewrite lookup_new.
  - intros l Hl'. rewrite <- app_assoc. now apply lookup_app_l.
Qed.

Lemma from_json_not_object_witness :
  exists h',
    Target.from_json 0%nat (JArr [JStr "targetid"; JInt 1]) store0
      = (Raise AttributeError, h')
    /\ (forall l, (l < List.length store0)%nat -> h' !! l = store0 !! l).
Proof.
  apply (from_json_not_object store0 0%nat (JArr [JStr "targetid"; JInt 1])).
  reflexivity.
Defined.

(** ** from_json: a key that names a property *)

(** The value that [json.loads] makes of a scalar document. *)
Definition scalar_value (j : json) : option value :=
  match j with
  | JNull => Some VNone
  | JBool b => Some (VBool b)
  | JInt z => Some (VInt z)
  | JFloat f => Some (VFloat f)
  | JStr s => Some (VStr s)
  | _ => None
  end.

Lemma loads_scalar j v (h : heap) : scalar_value j = Some v -> loads j h = (v, h).
Proof. destruct j; simpl; intros [= <-]; reflexivity. Qed.

Lemma for_each_app {A} (xs ys : list A) (f : A -> M unit) : forall h : heap,
  for_each (xs ++ ys) f h
  = match for_each xs f h with
    | (Ok _, h') => for_each ys f h'
    | (Raise e, h') => (Raise e, h')
    end.
Proof.
  induction xs as [|x xs IH]; intros h; [reflexivity|].
  cbn [app for_each]. unfold mbind, M_bind, bind.
  destruct (f x h) as [[[]|e] h1]; [apply IH|reflexivity].
Qed.

Lemma loads_members_app ms1 ms2 : forall h : heap,
  loads_members (ms1 ++ ms2) h
  = (fst (loads_members ms1 h) ++ fst (loads_members ms2 (snd (loads_members ms1 h))),
     snd (loads_members ms2 (snd (loads_members ms1 h)))).
Proof.
  induction ms1 as [|[k j] ms1 IH]; intros h.
  - simpl. now destruct (loads_members ms2 h).
  - simpl. destruct (loads j h) as [v h1]. rewrite IH.
    destruct (loads_members ms1 h1) as [kvs h2]. reflexivity.
Qed.

Lemma dict_set_absent {V} (d : dict V) k v :
  dict_has d k = false -> dict_set d k v = d ++ [(k, v)].
Proof.
  unfold dict_has. induction d as [|[k0 v0] d IH]; [reflexivity|].
  simpl. destruct (String.eqb k0 k); [discriminate|].
  intros H. now rewrite IH.
Qed.

Lemma dict_of_pairs_snoc {V} (ps : dict V) k v :
  dict_of_pairs (ps ++ [(k, v)]) = dict_set (dict_of_pairs ps) k v.
Proof. unfold dict_of_pairs. now rewrite fold_left_app. Qed.

Lemma dict_has_app {V} (d1 d2 : dict V) k :
  dict_has (d1 ++ d2) k = dict_has d1 k || dict_has d2 k.
Proof. unfold dict_has. rewrite dict_get_app. now destruct (dict_get d1 k). Qed.

Lemma first_missing_app {V} (ms more : dict V) :
  first_missing ms = None -> first_missing (ms ++ more) = None.
Proof.
  unfold first_missing. intros Hf. apply find_none_intro. intros f Hin.
  apply list_elem_of_In in Hin. apply (find_none _ _ Hf) in Hin.
  rewrite dict_has_app. apply negb_false_iff in Hin. now rewrite Hin.
Qed.

Lemma plain_key_absent {V} (ms : dict V) k :
  forallb plain_key (dict_keys ms) = true -> plain_key k = false ->
  dict_has ms k = false.
Proof.
  intros Hplain Hk. destruct (dict_has ms k) eqn:E; [|reflexivity].
  apply dict_has_true, list_elem_of_In in E.
  rewrite forallb_forall in Hplain. apply Hplain in E. congruence.
Qed.

(** The attribute dictionary after the assignments of the plain keys [ms]. *)
Definition assigned (dt : dict value) (h : heap) (ms : list (string * json))
  : dict value :=
  set_all dt (dict_of_pairs (fst (loads_members ms h))).

(** A payload of plain keys followed by one more key [k] with a scalar
    value: the plain keys are assigned as without [k], then [setattr] runs
    for [k]. *)
Lemma from_json_last_run (h : heap) t dt ms k j v :
  h !! t = Some (OTarget dt) ->
  first_missing ms = None ->
  forallb plain_key (dict_keys ms) = true ->
  dict_has ms k = false ->
  scalar_value j = Some v ->
  exists ext1 ext2,
    Target.from_json t (JObj ms) h
    = (Ok tt, <[t := OTarget (assigned dt h ms)]> (h ++ ext1))
    /\ Target.from_json t (JObj (ms ++ [(k, j)])) h
       = (Target.setattr t k v;; ret tt)
           (<[t := OTarget (assigned dt h ms)]> (h ++ ext2)).
Proof.
  intros Ht Hf Hplain Hk Hj.
  destruct (from_json_ok_run h t dt ms Ht Hf Hplain) as (ext1 & _ & Hrun1).
  exists ext1.
  destruct (json_loads_obj h (ms ++ [(k, j)])) as (r & d & ext & Hl & Hr & Hd & Hle).
  exists ext. split; [exact Hrun1|].
  assert (Hitems : dict_items (VRef r) (h ++ ext) = (Ok d, h ++ ext)).
  { unfold dict_items. now rewrite Hr. }
  assert (Hdd : d = dict_of_pairs (fst (loads_members ms h)) ++ [(k, v)]).
  { subst d. rewrite loads_members_app. cbn [fst loads_members].
    rewrite (loads_scalar j v) by assumption. cbn [fst].
    rewrite dict_of_pairs_snoc. apply dict_set_absent.
    now rewrite loaded_dict_has. }
  rewrite from_json_unfold.
  erewrite bind_run by eassumption.
  erewrite bind_run.
  2:{ erewrite check_loop by eassumption.
      rewrite (find_pointwise _ (fun f => negb (dict_has (ms ++ [(k, j)]) f))).
      - pose proof (first_missing_app ms [(k, j)] Hf) as Hf'.
        unfold first_missing in Hf'. rewrite Hf'. reflexivity.
      - intros f'. rewrite Hd. now rewrite loaded_dict_has. }
  erewrite bind_run by eassumption.
  rewrite Hdd, for_each_app.
  rewrite (assign_loop_run _ _ t dt).
  - reflexivity.
  - now apply lookup_app_l_Some.
  - apply dict_of_pairs_keys_plain.
    unfold dict_keys in *. now rewrite loads_members_keys.
Qed.

(** An attribute that the plain keys do not name is as before. *)
Lemma assigned_other (h : heap) dt ms k :
  dict_has ms k = false -> dict_get (assigned dt h ms) k = dict_get dt k.
Proof.
  intros Hk. unfold assigned, set_all.
  rewrite dict_get_fold_set, dict_get_rev by apply dict_of_pairs_NoDup.
  assert (Hnone : dict_has (dict_of_pairs (fst (loads_members ms h))) k = false)
    by now rewrite loaded_dict_has.
  unfold dict_has in Hnone.
  now destruct (dict_get (dict_of_pairs (fst (loads_members ms h))) k).
Qed.

Lemma prop_name_not_plain q : plain_key (prop_name q) = false.
Proof. now destruct q. Qed.

Lemma prop_name_not_rad q q' : prop_name q <> rad_field q'.
Proof. destruct q, q'; discriminate. Qed.

(** X10. A key that names a degree property is not stored under its name:
    [setattr] hands it to the property's setter.  For a payload of plain keys
    [ms] followed by such a key with a number [x], [from_json] succeeds; the
    radian attribute of the property is [radians x], whatever [ms] gave for
    it; every other attribute is as [from_json] of [ms] alone leaves it; and
    the instance has no attribute of the property's name unless it had one
    before. *)
Theorem from_json_degree_key (h : heap) (t : loc) (ms : list (string * json))
    (q : angle) (j : json) (v : value) (x : float) :
  is_target h t = true ->
  first_missing ms = None ->
  forallb plain_key (dict_keys ms) = true ->
  scalar_value j = Some v -> as_double v = Ok x ->
  exists h1 h',
    Target.from_json t (JObj ms) h = (Ok tt, h1)
    /\ Target.from_json t (JObj (ms ++ [(prop_name q, j)])) h = (Ok tt, h')
    /\ attr h' t (rad_field q) = Some (VFloat (radians x))
    /\ (forall name, name <> rad_field q -> attr h' t name = attr h1 t name)
    /\ attr h' t (prop_name q) = attr h t (prop_name q)
    /\ (forall l, (l < List.length h)%nat -> l <> t -> h' !! l = h !! l).
Proof.
  intros Ht Hf Hplain Hj Hx.
  destruct (is_target_object _ _ Ht) as [dt Hdt].
  pose proof (lookup_lt_Some _ _ _ Hdt) as Hlt.
  pose proof (plain_key_absent ms _ Hplain (prop_name_not_plain q)) as Hk.
  destruct (from_json_last_run h t dt ms (prop_name q) j v Hdt Hf Hplain Hk Hj)
    as (ext1 & ext2 & Hrun1 & Hrun2).
  assert (Hl1 : (t < List.length (h ++ ext1))%nat) by (rewrite length_app; lia).
  assert (Hl2 : (t < List.length (h ++ ext2))%nat) by (rewrite length_app; lia).
  eexists _, _. split; [exact Hrun1|]. split.
  { rewrite Hrun2, setattr_degree, degree_setter_unfold.
    unfold mbind at 1, M_bind at 1, bind at 1.
    erewrite bind_run by (apply math_radians_run; eassumption).
    rewrite store_attr_run_ins by assumption. reflexivity. }
  rewrite !attr_insert by assumption.
  split; [apply dict_get_set_eq|]. split; [|split].
  - intros name Hne. rewrite !attr_insert by assumption.
    apply dict_get_set_ne. congruence.
  - rewrite dict_get_set_ne by (intros E; symmetry in E; now apply prop_name_not_rad in E).
    rewrite assigned_other by assumption. symmetry. now apply attr_lookup.
  - intros l Hl Hne. rewrite list_lookup_insert_ne by congruence.
    now apply lookup_app_l.
Qed.

Definition payload_plain : list (string * json) :=
  [ ("targetid", JInt 1); ("fieldid", JInt 2); ("filter", JStr "r");
    ("ra_rad", JFloat 0.5); ("dec_rad", JFloat 0.25); ("ang_rad", JFloat 0);
    ("num_exp", JInt 2); ("exp_times", JArr [JFloat 15; JFloat 15]) ].

Lemma from_json_degree_key_witness :
  exists h1 h',
    Target.from_json 2%nat (JObj payload_plain) store0 = (Ok tt, h1)
    /\ Target.from_json 2%nat (JObj (payload_plain ++ [(prop_name Ra, JFloat 90)])) store0
       = (Ok tt, h')
    /\ attr h' 2%nat (rad_field Ra) = Some (VFloat (radians 90))
    /\ (forall name, name <> rad_field Ra -> attr h' 2%nat name = attr h1 2%nat name)
    /\ attr h' 2%nat (prop_name Ra) = attr store0 2%nat (prop_name Ra)
    /\ (forall l, (l < List.length store0)%nat -> l <> 2%nat -> h' !! l = store0 !! l).
Proof.
  apply (from_json_degree_key store0 2%nat payload_plain Ra (JFloat 90) (VFloat 90) 90);
    reflexivity.
Defined.

(** X11. The key [exp_time] goes to the setter of the total exposure time: for
    a payload of plain keys [ms] followed by [exp_time] with a scalar value,
    [from_json] succeeds and the override [_exp_time] is that value, whatever
    [ms] gave for [_exp_time]; the other attributes are as [from_json] of [ms]
    alone leaves them; and unless the value is null, [exp_time] then reads
    it. *)
Theorem from_json_exp_time_key (h : heap) (t : loc) (ms : list (string * json))
    (j : json) (v : value) :
  is_target h t = true ->
  first_missing ms = None ->
  forallb plain_key (dict_keys ms) = true ->
  scalar_value j = Some v ->
  exists h1 h',
    Target.from_json t (JObj ms) h = (Ok tt, h1)
    /\ Target.from_json t (JObj (ms ++ [("exp_time", j)])) h = (Ok tt, h')
    /\ attr h' t "_exp_time" = Some v
    /\ (forall name, name <> "_exp_time" -> attr h' t name = attr h1 t name)
    /\ attr h' t "exp_time" = attr h t "exp_time"
    /\ (v <> VNone -> Target.exp_time t h' = (Ok v, h'))
    /\ (forall l, (l < List.length h)%nat -> l <> t -> h' !! l = h !! l).
Proof.
  intros Ht Hf Hplain Hj.
  destruct (is_target_object _ _ Ht) as [dt Hdt].
  pose proof (lookup_lt_Some _ _ _ Hdt) as Hlt.
  assert (Hk : dict_has ms "exp_time" = false) by now apply plain_key_absent.
  destruct (from_json_last_run h t dt ms "exp_time" j v Hdt Hf Hplain Hk Hj)
    as (ext1 & ext2 & Hrun1 & Hrun2).
  assert (Hl1 : (t < List.length (h ++ ext1))%nat) by (rewrite length_app; lia).
  assert (Hl2 : (t < List.length (h ++ ext2))%nat) by (rewrite length_app; lia).
  eexists _, _. split; [exact Hrun1|]. split.
  { rewrite Hrun2.
    change (Target.setattr t "exp_time" v) with (store_attr t "_exp_time" v).
    unfold mbind, M_bind, bind.
    rewrite store_attr_run_ins by assumption. reflexivity. }
  assert (Hv : attr (<[t := OTarget (dict_set (assigned dt h ms) "_exp_time" v)]> (h ++ ext2))
                 t "_exp_time" = Some v).
  { rewrite attr_insert by assumption. apply dict_get_set_eq. }
  split; [exact Hv|]. split; [|split; [|split]].
  - intros name Hne. rewrite !attr_insert by assumption.
    apply dict_get_set_ne. congruence.
  - rewrite attr_insert by assumption.
    rewrite dict_get_set_ne by discriminate.
    rewrite assigned_other by assumption. symmetry. now apply attr_lookup.
  - intros Hne. now apply exp_time_set_run.
  - intros l Hl Hne. rewrite list_lookup_insert_ne by congruence.
    now apply lookup_app_l.
Qed.

Lemma from_json_exp_time_key_witness :
  exists h1 h',
    Target.from_json 2%nat (JObj payload_plain) store0 = (Ok tt, h1)
    /\ Target.from_json 2%nat (JObj (payload_plain ++ [("exp_time", JFloat 45)])) store0
       = (Ok tt, h')
    /\ attr h' 2%nat "_exp_time" = Some (VFloat 45)
    /\ (forall name, name <> "_exp_time" -> attr h' 2%nat name = attr h1 2%nat name)
    /\ attr h' 2%nat "exp_time" = attr store0 2%nat "exp_time"
    /\ (VFloat 45 <> VNone -> Target.exp_time 2%nat h' = (Ok (VFloat 45), h'))
    /\ (forall l, (l < List.length store0)%nat -> l <> 2%nat -> h' !! l = store0 !! l).
Proof.
  apply (from_json_exp_time_key store0 2%nat payload_plain (JFloat 45) (VFloat 45));
    reflexivity.
Defined.

(** X12. [from_json] is not atomic once the assignments have begun.  For a
    payload of plain keys [ms] followed by a degree property with a value
    that is no number (null or a string), the setter raises [TypeError]
    after every key of [ms] has been assigned: the instance is left with
    exactly the attributes that [from_json] of [ms] alone gives it. *)
Theorem from_json_setter_failure (h : heap) (t : loc) (ms : list (string * json))
    (q : angle) (j : json) (v : value) :
  is_target h t = true ->
  first_missing ms = None ->
  forallb plain_key (dict_keys ms) = true ->
  scalar_value j = Some v -> is_number v = false ->
  exists h1 h',
    Target.from_json t (JObj ms) h = (Ok tt, h1)
    /\ Target.from_json t (JObj (ms ++ [(prop_name q, j)])) h = (Raise TypeError, h')
    /\ (forall name, attr h' t name = attr h1 t name)
    /\ (forall l, (l < List.length h)%nat -> l <> t -> h' !! l = h !! l).
Proof.
  intros Ht Hf Hplain Hj Hv.
  destruct (is_target_object _ _ Ht) as [dt Hdt].
  pose proof (lookup_lt_Some _ _ _ Hdt) as Hlt.
  pose proof (plain_key_absent ms _ Hplain (prop_name_not_plain q)) as Hk.
  destruct (from_json_last_run h t dt ms (prop_name q) j v Hdt Hf Hplain Hk Hj)
    as (ext1 & ext2 & Hrun1 & Hrun2).
  assert (Hl1 : (t < List.length (h ++ ext1))%nat) by (rewrite length_app; lia).
  assert (Hl2 : (t < List.length (h ++ ext2))%nat) by (rewrite length_app; lia).
  eexists _, _. split; [exact Hrun1|]. split.
  { rewrite Hrun2. unfold mbind, M_bind, bind.
    now rewrite setattr_degree_rejects. }
  split.
  - intros name. now rewrite !attr_insert by assumption.
  - intros l Hl Hne. rewrite list_lookup_insert_ne by congruence.
    now apply lookup_app_l.
Qed.

Lemma from_json_setter_failure_witness :
  exists h1 h',
    Target.from_json 2%nat (JObj payload_plain) store0 = (Ok tt, h1)
    /\ Target.from_json 2%nat (JObj (payload_plain ++ [(prop_name Alt, JStr "high")])) store0
       = (Raise TypeError, h')
    /\ (forall name, attr h' 2%nat name = attr h1 2%nat name)
    /\ (forall l, (l < List.length store0)%nat -> l <> 2%nat -> h' !! l = store0 !! l).
Proof.
  apply (from_json_setter_failure store0 2%nat payload_plain Alt (JStr "high")
           (VStr "high")); reflexivity.
Defined.

(** ** from_json: no check of the types *)

Definition json_is_number (j : json) : bool :=
  match j with
  | JBool _ | JInt _ | JFloat _ => true
  | _ => false
  end.

Lemma dumps_not_number n (h : heap) v j :
  json_is_number j = false -> dumps n h v = Ok (norm j) -> is_number v = false.
Proof.
  intros Hj Hd. destruct v; try reflexivity;
    destruct n; simpl in Hd; injection Hd as Hd; destruct j; discriminate.
Qed.

(** X13. [from_json] checks that the mandatory keys are present, not what they
    hold: a payload of plain keys whose (last) value for a radian attribute
    is no number (null, a string, an array, an object) is accepted and the
    value assigned; the degree property of that attribute then raises
    [TypeError] when it is read. *)
Theorem from_json_no_type_check (h : heap) (t : loc) (ms : list (string * json))
    (q : angle) (j : json) :
  is_target h t = true ->
  first_missing ms = None ->
  forallb plain_key (dict_keys ms) = true ->
  dict_get (rev ms) (rad_field q) = Some j ->
  json_is_number j = false ->
  exists h' v,
    Target.from_json t (JObj ms) h = (Ok tt, h')
    /\ attr h' t (rad_field q) = Some v
    /\ is_number v = false
    /\ degree_getter q t h' = (Raise TypeError, h').
Proof.
  intros Ht Hf Hplain Hj Hnum.
  destruct (from_json_ok_spec h t ms Ht Hf Hplain) as (h' & Hrun & Hset & _).
  destruct (Hset _ _ Hj) as (v & Hv & Hd).
  pose proof (dumps_not_number _ _ _ _ Hnum Hd) as Hn.
  exists h', v. split; [assumption|]. split; [assumption|]. split; [assumption|].
  rewrite (degree_getter_attr h' t q v Hv).
  unfold math_degrees, mbind, M_bind, bind, lift, outcome.
  now rewrite (as_double_not_number v Hn).
Qed.

Definition payload_text_angle : list (string * json) :=
  [ ("targetid", JInt 1); ("fieldid", JInt 2); ("filter", JStr "r");
    ("ra_rad", JStr "0.5"); ("dec_rad", JFloat 0.25); ("ang_rad", JFloat 0);
    ("num_exp", JInt 2); ("exp_times", JArr [JFloat 15; JFloat 15]) ].

Lemma from_json_no_type_check_witness :
  exists h' v,
    Target.from_json 2%nat (JObj payload_text_angle) store0 = (Ok tt, h')
    /\ attr h' 2%nat (rad_field Ra) = Some v
    /\ is_number v = false
    /\ degree_getter Ra 2%nat h' = (Raise TypeError, h').
Proof.
  apply (from_json_no_type_check store0 2%nat payload_text_angle Ra (JStr "0.5"));
    reflexivity.
Defined.

(** ** to_json and from_json as a copy *)

(** [to_json] of a Target of the declared data model, then [from_json] on a
    new Target: every attribute of the new instance is the same as the
    original's. *)
Lemma json_copy_run (h : heap) (t : loc) :
  is_plain_target h t = true ->
  exists ms c h1 h2,
    Target.to_json t h = (Ok (JObj ms), h)
    /\ Target.new None None None None None None None None h = (Ok c, h1)
    /\ Target.from_json c (JObj ms) h1 = (Ok tt, h2)
    /\ (forall name, same_value h (attr h t name) h2 (attr h2 c name))
    /\ (forall l, (l < List.length h)%nat -> h2 !! l = h !! l).
Proof.
  unfold is_plain_target. intros [Ht Hrest]%andb_prop.
  destruct (h !! t) as [[| |d]|] eqn:Hd; try discriminate.
  apply andb_prop in Hrest as [[Hnd Hplain]%andb_prop Hflat].
  apply nodupb_NoDup in Hnd.
  set (ms := map (fun kv => (fst kv, json_of h (snd kv))) d).
  assert (Hkeys : dict_keys ms = dict_keys d).
  { unfold ms, dict_keys. rewrite map_map. reflexivity. }
  assert (Hfields : forall name, name ∈ field_names -> name ∈ dict_keys ms).
  { intros name Hin. rewrite Hkeys.
    destruct (is_target_attr _ _ _ Ht Hin) as [v Hv].
    rewrite (attr_lookup _ _ _ _ Hd) in Hv. eauto using dict_get_in_keys. }
  set (init := init_attrs None None None None None None None
                 (VRef (S (List.length h)))).
  assert (Hc : is_target (h ++ [OTarget init; OList []]) (List.length h) = true).
  { eapply is_target_intro.
    - apply lookup_new.
    - apply init_attrs_fields.
    - reflexivity.
    - apply lookup_new2. }
  assert (Hmiss : first_missing ms = None).
  { apply find_none_intro. intros f Hf.
    apply mandatory_are_fields, Hfields, dict_has_true in Hf. now rewrite Hf. }
  assert (Hpl : forallb plain_key (dict_keys ms) = true) by now rewrite Hkeys.
  destruct (from_json_ok_spec _ _ ms Hc Hmiss Hpl) as (h2 & Hrun & Hset & Hkeep & Hframe).
  exists ms, (List.length h), (h ++ [OTarget init; OList []]), h2.
  split; [now apply to_json_flat_run|].
  split; [now apply new_run|]. split; [assumption|].
  split.
  - intros name. rewrite (attr_lookup _ _ _ _ Hd).
    destruct (dict_get d name) as [v|] eqn:Ev.
    + assert (Hj : dict_get (rev ms) name = Some (json_of h v)).
      { rewrite dict_get_rev by now rewrite Hkeys.
        unfold ms. now rewrite dict_get_map, Ev. }
      destruct (Hset name _ Hj) as (v' & Hv' & Hdump).
      rewrite Hv'. rewrite norm_flat in Hdump.
      eapply dumps_flat_inv; [|exact Hdump].
      rewrite forallb_forall in Hflat.
      apply (Hflat (name, v)). now apply dict_get_In.
    + assert (Hout : name ∉ dict_keys ms).
      { rewrite Hkeys. intros [v Hv]%dict_keys_in_get. congruence. }
      simpl. rewrite (Hkeep name Hout), attr_new.
      apply dict_get_not_in_keys. intros Hin. apply Hout, Hfields, Hin.
  - intros l Hl. rewrite Hframe.
    + now apply lookup_app_l.
    + rewrite length_app. lia.
    + lia.
Qed.

(** X14. Unlike [get_copy], the copy through JSON keeps the override of the
    exposure time: for a Target of the declared data model whose override
    is [None] or a scalar, [from_json] of its [to_json] on a new Target gives
    an instance with the same [_exp_time], whose [exp_time] reads what the
    original's reads (the same value, or the same exception), and whose
    nine degree properties read what the original's read. *)
Theorem json_copy_keeps_exp_time (h : heap) (t : loc) :
  is_plain_target h t = true ->
  (forall r, attr h t "_exp_time" <> Some (VRef r)) ->
  exists ms c h1 h2,
    Target.to_json t h = (Ok (JObj ms), h)
    /\ Target.new None None None None None None None None h = (Ok c, h1)
    /\ Target.from_json c (JObj ms) h1 = (Ok tt, h2)
    /\ attr h2 c "_exp_time" = attr h t "_exp_time"
    /\ outcome (Target.exp_time c h2) = outcome (Target.exp_time t h)
    /\ (forall q, outcome (degree_getter q c h2) = outcome (degree_getter q t h)).
Proof.
  intros Hp Hscalar.
  destruct (json_copy_run h t Hp) as (ms & c & h1 & h2 & Hjson & Hnew & Hfrom & Hsame & _).
  assert (Ht : is_target h t = true).
  { unfold is_plain_target in Hp. now apply andb_prop in Hp as [Ht _]. }
  exists ms, c, h1, h2.
  split; [assumption|]. split; [assumption|]. split; [assumption|].
  destruct (is_target_attr h t "_exp_time" Ht) as [o Ho]; [field_in|].
  assert (Ho' : attr h2 c "_exp_time" = Some o).
  { specialize (Hsame "_exp_time"). rewrite Ho in Hsame.
    destruct o; try exact Hsame. exfalso. now apply (Hscalar r). }
  split; [now rewrite Ho, Ho'|]. split.
  - destruct (is_target_exp_times _ _ Ht) as (r & xs & He & Hr).
    pose proof (Hsame "exp_times") as Hl. rewrite He in Hl. simpl in Hl.
    destruct (attr h2 c "exp_times") as [[| | | | |r']|] eqn:He'; try contradiction.
    destruct Hl as [_ Hl]. rewrite Hr in Hl. simpl in Hl.
    destruct (h2 !! r') as [[ys| |]|] eqn:Hr'; try discriminate.
    injection Hl as ->.
    assert (Hcase : o = VNone \/ o <> VNone)
      by (destruct o; (now left) || (right; discriminate)).
    destruct Hcase as [->|Hne].
    + rewrite (exp_time_unset_run h2 c r' xs), (exp_time_unset_run h t r xs) by assumption.
      reflexivity.
    + rewrite (exp_time_set_run h2 c o), (exp_time_set_run h t o) by assumption.
      reflexivity.
  - intros q.
    destruct (is_target_attr h t (rad_field q) Ht (rad_field_is_field q)) as [w Hw].
    rewrite (degree_getter_attr h t q w Hw).
    pose proof (Hsame (rad_field q)) as Hq. rewrite Hw in Hq.
    destruct w as [| | | | |r].
    1-5: rewrite (degree_getter_attr h2 c q _ Hq); apply math_degrees_outcome.
    simpl in Hq.
    destruct (attr h2 c (rad_field q)) as [[| | | | |r']|] eqn:Hq'; try contradiction.
    rewrite (degree_getter_attr h2 c q _ Hq'). reflexivity.
Qed.

Lemma json_copy_keeps_exp_time_witness :
  exists ms c h1 h2,
    Target.to_json 0%nat store0 = (Ok (JObj ms), store0)
    /\ Target.new None None None None None None None None store0 = (Ok c, h1)
    /\ Target.from_json c (JObj ms) h1 = (Ok tt, h2)
    /\ attr h2 c "_exp_time" = attr store0 0%nat "_exp_time"
    /\ outcome (Target.exp_time c h2) = outcome (Target.exp_time 0%nat store0)
    /\ (forall q, outcome (degree_getter q c h2) = outcome (degree_getter q 0%nat store0)).
Proof.
  apply (json_copy_keeps_exp_time store0 0%nat).
  - reflexivity.
  - intros r. discriminate.
Defined.

(** ** exp_time without an override *)

Lemma sum_from_ints (zs : list Z) : forall a,
  sum_from (VInt a) (map VInt zs) = Ok (VInt (a + foldr Z.add 0 zs)).
Proof.
  induction zs as [|z zs IH]; intros a; simpl.
  - now rewrite Z.add_0_r.
  - rewrite IH. do 2 f_equal. lia.
Qed.

Lemma num_add_number a b v : num_add a b = Ok v -> is_number v = true.
Proof.
  unfold num_add. destruct (is_int a), (is_int b);
    try (intros [= <-]; reflexivity);
    destruct (as_double a); simpl; try discriminate;
    destruct (as_double b); simpl; try discriminate;
    intros [= <-]; reflexivity.
Qed.

Lemma num_add_not_number a b : is_number b = false -> exists e, num_add a b = Raise e.
Proof.
  intros Hb. unfold num_add.
  assert (is_int b = None) as -> by (destruct b; try reflexivity; discriminate).
  rewrite (as_double_not_number b Hb).
  destruct (is_int a); destruct (as_double a); simpl; eauto.
Qed.

Lemma sum_from_not_number (xs : list value) x : forall acc,
  x ∈ xs -> is_number x = false -> exists e, sum_from acc xs = Raise e.
Proof.
  induction xs as [|y xs IH]; intros acc Hin Hx; [inversion Hin|].
  simpl. apply elem_of_cons in Hin as [<-|Hin].
  - destruct (num_add_not_number acc x Hx) as [e ->]. simpl. eauto.
  - destruct (num_add acc y) as [acc'|e]; simpl; [|eauto].
    now apply IH.
Qed.

(** X15. Without an override, [exp_time] of integer exposure times is their
    exact sum, an int (no conversion to float takes place); and if some
    exposure time is no number ([None], a str, a list) reading [exp_time]
    raises.  Either way the store is left as it was. *)
Theorem exp_time_of_items (h : heap) (t : loc) (xs : list value) :
  is_target h t = true ->
  attr h t "_exp_time" = Some VNone ->
  list_items h (attr h t "exp_times") = Some xs ->
  (forall zs, xs = map VInt zs ->
     Target.exp_time t h = (Ok (VInt (foldr Z.add 0 zs)), h))
  /\ (forall x, x ∈ xs -> is_number x = false ->
        exists e, Target.exp_time t h = (Raise e, h)).
Proof.
  intros Ht Ho Hxs.
  destruct (is_target_exp_times _ _ Ht) as (r & ys & He & Hr).
  assert (ys = xs) as ->.
  { rewrite He in Hxs. simpl in Hxs. rewrite Hr in Hxs. congruence. }
  rewrite (exp_time_unset_run h t r xs Ho He Hr). unfold lift. split.
  - intros zs ->. now rewrite sum_from_ints.
  - intros x Hin Hx. destruct (sum_from_not_number xs x (VInt 0) Hin Hx) as [e ->].
    eauto.
Qed.

Definition store2 : heap :=
  <[3%nat := OList [VInt 15; VInt 15; VInt 30]]> store0.

Lemma exp_time_of_items_witness :
  (forall zs, [VInt 15; VInt 15; VInt 30] = map VInt zs ->
     Target.exp_time 2%nat store2 = (Ok (VInt (foldr Z.add 0 zs)), store2))
  /\ (forall x, x ∈ [VInt 15; VInt 15; VInt 30] -> is_number x = false ->
        exists e, Target.exp_time 2%nat store2 = (Raise e, store2)).
Proof.
  apply (exp_time_of_items store2 2%nat [VInt 15; VInt 15; VInt 30]); reflexivity.
Defined.

Example exp_time_ints_example :
  Target.exp_time 2%nat store2 = (Ok (VInt 60), store2).
Proof. reflexivity. Qed.

(** ** The constructor and from_topic: arguments that are refused *)

(** What [list(x)] accepts: a list, a dict or a str. *)
Definition iterable (h : heap) (v : value) : bool :=
  match v with
  | VStr _ => true
  | VRef r =>
      match h !! r with
      | Some (OList _) | Some (ODict _) => true
      | _ => false
      end
  | _ => false
  end.

Lemma py_iter_refused (h ext : heap) v :
  valid_value h v = true -> iterable h v = false ->
  py_iter v (h ++ ext) = (Raise TypeError, h ++ ext).
Proof.
  unfold valid_value, iterable, py_iter. destruct v; try reflexivity; try discriminate.
  destruct (h !! r) as [o|] eqn:E; [|discriminate].
  rewrite (lookup_app_l_Some _ _ _ _ E). now destruct o.
Qed.

(** X16. [Target(...)] with an [exp_times] argument that cannot be iterated
    ([None], a number, an instance) raises the [TypeError] of
    [list(exp_times)]; no instance is returned, and no object that existed
    before the call has changed. *)
Theorem constructor_rejects_non_iterable (h : heap)
    (targetid fieldid band_filter ra_rad dec_rad ang_rad num_exp : option value)
    (exp_times : value) :
  valid_value h exp_times = true -> iterable h exp_times = false ->
  exists h',
    Target.new targetid fieldid band_filter ra_rad dec_rad ang_rad num_exp
               (Some exp_times) h = (Raise TypeError, h')
    /\ (forall l, (l < List.length h)%nat -> h' !! l = h !! l).
Proof.
  intros Hv Hi. eexists. split.
  - unfold Target.new. erewrite bind_run by reflexivity.
    unfold mbind at 1, M_bind at 1, bind at 1.
    unfold Target.__init__. do 7 run_store.
    unfold mbind at 1, M_bind at 1, bind at 1.
    unfold py_list. unfold mbind at 1, M_bind at 1, bind at 1.
    rewrite py_iter_refused by assumption. reflexivity.
  - intros l Hl. now apply lookup_app_l.
Qed.

Lemma constructor_rejects_non_iterable_witness :
  exists h',
    Target.new (Some (VInt 9)) None None None None None (Some (VInt 1))
               (Some (VFloat 15)) store0 = (Raise TypeError, h')
    /\ (forall l, (l < List.length store0)%nat -> h' !! l = store0 !! l).
Proof.
  apply (constructor_rejects_non_iterable store0 (Some (VInt 9)) None None None None
           None (Some (VInt 1)) (VFloat 15)); reflexivity.
Defined.

(** The first of the three angles of a topic that [math.radians] refuses,
    with its exception. *)
Definition angle_error (topic : SALPY_scheduler.targetC) : option exn :=
  match as_double (SALPY_scheduler.ra topic) with
  | Raise e => Some e
  | Ok _ =>
      match as_double (SALPY_scheduler.decl topic) with
      | Raise e => Some e
      | Ok _ =>
          match as_double (SALPY_scheduler.skyAngle topic) with
          | Raise e => Some e
          | Ok _ => None
          end
      end
  end.

(** X17. [from_topic] converts the three angles before it creates the instance:
    when one of [ra], [decl], [skyAngle] is refused by [math.radians] (a
    [None] or a str gives [TypeError]), the exception of the first such is
    raised and the store is exactly as before, nothing having been
    allocated. *)
Theorem from_topic_rejects_angle (h : heap) (topic : SALPY_scheduler.targetC) (e : exn) :
  angle_error topic = Some e ->
  Target.from_topic topic h = (Raise e, h).
Proof.
  unfold angle_error, Target.from_topic, math_radians, mbind, M_bind, bind, lift.
  intros He.
  destruct (as_double (SALPY_scheduler.ra topic)); [|now injection He as ->].
  destruct (as_double (SALPY_scheduler.decl topic)); [|now injection He as ->].
  destruct (as_double (SALPY_scheduler.skyAngle topic)); [discriminate|].
  now injection He as ->.
Qed.

Definition topic_bad : SALPY_scheduler.targetC :=
  {| SALPY_scheduler.targetId := VInt 12;
     SALPY_scheduler.filter := VStr "z";
     SALPY_scheduler.ra := VFloat 45;
     SALPY_scheduler.decl := VNone;
     SALPY_scheduler.skyAngle := VFloat 90;
     SALPY_scheduler.numExposures := VInt 2;
     SALPY_scheduler.exposureTimes := VRef 1%nat |}.

Lemma from_topic_rejects_angle_witness :
  Target.from_topic topic_bad store0 = (Raise TypeError, store0).
Proof. apply (from_topic_rejects_angle store0 topic_bad TypeError). reflexivity. Defined.

(** ** from_topic, then the degree properties *)

(** X18. The Target that [from_topic] returns reads [ra], [dec] and [ang] as the
    topic's [ra], [decl] and [skyAngle] within the tolerance of the two
    roundings, and each of the six other degree properties as [0.0]. *)
Theorem from_topic_degrees (h : heap) (topic : SALPY_scheduler.targetC) x y z xs :
  as_double (SALPY_scheduler.ra topic) = Ok x ->
  as_double (SALPY_scheduler.decl topic) = Ok y ->
  as_double (SALPY_scheduler.skyAngle topic) = Ok z ->
  py_iter (SALPY_scheduler.exposureTimes topic) h = (Ok xs, h) ->
  exists t h' x' y' z',
    Target.from_topic topic h = (Ok t, h')
    /\ Target.ra t h' = (Ok (VFloat x'), h') /\ within_tolerance x x' = true
    /\ Target.dec t h' = (Ok (VFloat y'), h') /\ within_tolerance y y' = true
    /\ Target.ang t h' = (Ok (VFloat z'), h') /\ within_tolerance z z' = true
    /\ (forall q, q <> Ra -> q <> Dec -> q <> Ang ->
          degree_getter q t h' = (Ok (VFloat 0), h')).
Proof.
  intros Hx Hy Hz Hxs.
  eexists _, _, (degrees (radians x)), (degrees (radians y)), (degrees (radians z)).
  split; [eapply from_topic_run; eassumption|].
  split; [apply (degree_getter_run _ _ Ra); now rewrite attr_new|].
  split; [apply degrees_radians_within_tolerance|].
  split; [apply (degree_getter_run _ _ Dec); now rewrite attr_new|].
  split; [apply degrees_radians_within_tolerance|].
  split; [apply (degree_getter_run _ _ Ang); now rewrite attr_new|].
  split; [apply degrees_radians_within_tolerance|].
  intros q H1 H2 H3.
  change (VFloat 0) with (VFloat (degrees 0)).
  apply degree_getter_run. rewrite attr_new.
  destruct q; try reflexivity; contradiction.
Qed.

Lemma from_topic_degrees_witness :
  exists t h' x' y' z',
    Target.from_topic topic0 store0 = (Ok t, h')
    /\ Target.ra t h' = (Ok (VFloat x'), h') /\ within_tolerance 45 x' = true
    /\ Target.dec t h' = (Ok (VFloat y'), h') /\ within_tolerance (-30) y' = true
    /\ Target.ang t h' = (Ok (VFloat z'), h') /\ within_tolerance 90 z' = true
    /\ (forall q, q <> Ra -> q <> Dec -> q <> Ang ->
          degree_getter q t h' = (Ok (VFloat 0), h')).
Proof.
  apply (from_topic_degrees store0 topic0 45 (-30) 90 [VFloat 15; VFloat 15]);
    reflexivity.
Defined.

(** ** The JSON of a new Target *)

Definition scalar_arg (a : option value) : bool :=
  match a with
  | Some v => scalar v
  | None => true
  end.

Lemma json_of_scalar_value (h : heap) v : scalar v = true -> json_of h v = json_of_scalar v.
Proof. destruct v; try reflexivity. discriminate. Qed.

Lemma flat_scalar (h : heap) v : scalar v = true -> flat_value h v = true.
Proof. destruct v; try reflexivity. discriminate. Qed.

Lemma scalar_default a v : scalar_arg a = true -> scalar v = true -> scalar (default v a) = true.
Proof. destruct a; simpl; auto. Qed.

(** X19. [to_json] of a Target as the constructor leaves it, for scalar arguments
    and scalar exposure times [xs]: an object of twenty-two members in the
    order of the assignments of [__init__], with the arguments (or their
    defaults) first, [exp_times] the array of [xs], [_exp_time] null, twelve
    times [0.0], and an empty note. *)
Theorem new_to_json (h : heap)
    (targetid fieldid band_filter ra_rad dec_rad ang_rad num_exp exp_times : option value)
    (xs : list value) :
  arg_items h exp_times = Ok xs -> forallb scalar xs = true ->
  forallb scalar_arg [targetid; fieldid; band_filter; ra_rad; dec_rad; ang_rad; num_exp]
    = true ->
  exists t h',
    Target.new targetid fieldid band_filter ra_rad dec_rad ang_rad num_exp exp_times h
      = (Ok t, h')
    /\ Target.to_json t h'
       = (Ok (JObj
            [ ("targetid", json_of_scalar (default (VInt 0) targetid));
              ("fieldid", json_of_scalar (default (VInt 0) fieldid));
              ("filter", json_of_scalar (default (VStr "") band_filter));
              ("ra_rad", json_of_scalar (default (VFloat 0) ra_rad));
              ("dec_rad", json_of_scalar (default (VFloat 0) dec_rad));
              ("ang_rad", json_of_scalar (default (VFloat 0) ang_rad));
              ("num_exp", json_of_scalar (default (VInt 0) num_exp));
              ("exp_times", JArr (map json_of_scalar xs));
              ("_exp_time", JNull);
              ("time", JFloat 0); ("airmass", JFloat 0);
              ("sky_brightness", JFloat 0); ("cloud", JFloat 0);
              ("seeing", JFloat 0);
              ("alt_rad", JFloat 0); ("az_rad", JFloat 0); ("rot_rad", JFloat 0);
              ("telalt_rad", JFloat 0); ("telaz_rad", JFloat 0);
              ("telrot_rad", JFloat 0);
              ("slewtime", JFloat 0); ("note", JStr "") ]), h').
Proof.
  intros Hxs Hsc Hargs.
  cbn [forallb] in Hargs.
  repeat (apply andb_prop in Hargs as [? Hargs]).
  eexists _, _. split; [apply new_run; eassumption|].
  pose proof (lookup_new2 h) as Hl.
  erewrite to_json_flat_run; [|apply lookup_new|].
  - unfold init_attrs. cbn [map fst snd].
    rewrite !json_of_scalar_value by (try reflexivity; now apply scalar_default).
    cbn [json_of]. rewrite Hl. reflexivity.
  - unfold init_attrs. cbn [forallb snd].
    rewrite !flat_scalar by (now apply scalar_default).
    cbn [flat_value]. now rewrite Hl, Hsc.
Qed.

Lemma new_to_json_witness :
  exists t h',
    Target.new (Some (VInt 9)) None (Some (VStr "i")) None None None (Some (VInt 2))
               (Some (VRef 1%nat)) store0 = (Ok t, h')
    /\ Target.to_json t h'
       = (Ok (JObj
            [ ("targetid", json_of_scalar (default (VInt 0) (Some (VInt 9))));
              ("fieldid", json_of_scalar (default (VInt 0) None));
              ("filter", json_of_scalar (default (VStr "") (Some (VStr "i"))));
              ("ra_rad", json_of_scalar (default (VFloat 0) None));
              ("dec_rad", json_of_scalar (default (VFloat 0) None));
              ("ang_rad", json_of_scalar (default (VFloat 0) None));
              ("num_exp", json_of_scalar (default (VInt 0) (Some (VInt 2))));
              ("exp_times", JArr (map json_of_scalar [VFloat 15; VFloat 15]));
              ("_exp_time", JNull);
              ("time", JFloat 0); ("airmass", JFloat 0);
              ("sky_brightness", JFloat 0); ("cloud", JFloat 0);
              ("seeing", JFloat 0);
              ("alt_rad", JFloat 0); ("az_rad", JFloat 0); ("rot_rad", JFloat 0);
              ("telalt_rad", JFloat 0); ("telaz_rad", JFloat 0);
              ("telrot_rad", JFloat 0);
              ("slewtime", JFloat 0); ("note", JStr "") ]), h').
Proof.
  apply (new_to_json store0 (Some (VInt 9)) None (Some (VStr "i")) None None None
           (Some (VInt 2)) (Some (VRef 1%nat)) [VFloat 15; VFloat 15]); reflexivity.
Defined.

(** ** from_json, then to_json *)

Lemma rmap_mono {A B} (f g : A -> result B) (xs : list A) : forall ys,
  (forall x y, f x = Ok y -> g x = Ok y) ->
  rmap f xs = Ok ys -> rmap g xs = Ok ys.
Proof.
  induction xs as [|x xs IH]; intros ys Hfg; simpl; [auto|].
  destruct (f x) as [y|] eqn:Ex; simpl; [|discriminate].
  destruct (rmap f xs) as [ys'|] eqn:Exs; simpl; [|discriminate].
  intros [= <-]. now rewrite (Hfg _ _ Ex), (IH ys' Hfg eq_refl).
Qed.

(** A deeper bound on the nesting does not change what [json.dumps] returns. *)
Lemma dumps_mono (h : heap) (n : nat) : forall m v j,
  (n <= m)%nat -> dumps n h v = Ok j -> dumps m h v = Ok j.
Proof.
  induction n as [|n IH]; intros m v j Hle Hd.
  - destruct v; try (destruct m; exact Hd). discriminate.
  - destruct m as [|m]; [lia|].
    destruct v; try exact Hd.
    simpl in Hd |- *. destruct (h !! r) as [[xs|d|d]|]; try discriminate.
    + destruct (rmap (dumps n h) xs) as [js|] eqn:E; simpl in Hd; [|discriminate].
      rewrite (rmap_mono (dumps n h) (dumps m h) xs js); [exact Hd| |exact E].
      intros x y Hx. apply (IH m); [lia|exact Hx].
    + destruct (rmap _ d) as [kjs|] eqn:E; simpl in Hd; [|discriminate].
      erewrite (rmap_mono _ _ _ kjs); [exact Hd| |exact E].
      intros [k x] y. simpl.
      destruct (dumps n h x) as [jx|] eqn:Ex; simpl; [|discriminate].
      intros [= <-]. rewrite (IH m x jx) by (lia || assumption). reflexivity.
Qed.

(** [json.loads] allocates at least one object for each level of nesting. *)
Lemma loads_depth j : forall h : heap,
  (List.length h + depth j <= List.length (snd (loads j h)))%nat.
Proof.
  induction j as [| | | | |js IH|ms IH] using json_ind; intros h;
    try (simpl; lia).
  - rewrite loads_arr.
    assert (Hitems : forall h : heap,
              (List.length h + foldr (fun j n => Nat.max (depth j) n) O js
               <= List.length (snd (loads_items js h)))%nat).
    { clear h. induction IH as [|j js Hj _ IHjs]; intros h; [simpl; lia|].
      simpl. specialize (Hj h). destruct (loads j h) as [v h1]. simpl in Hj.
      specialize (IHjs h1). destruct (loads_items js h1) as [vs h2]. simpl in *. lia. }
    specialize (Hitems h). destruct (loads_items js h) as [vs h1].
    simpl in *. rewrite length_app. simpl. lia.
  - rewrite loads_obj.
    assert (Hmem : forall h : heap,
              (List.length h + foldr (fun kv n => Nat.max (depth (snd kv)) n) O ms
               <= List.length (snd (loads_members ms h)))%nat).
    { clear h. induction IH as [|[k j] ms Hj _ IHms]; intros h; [simpl; lia|].
      simpl in *. specialize (Hj h). destruct (loads j h) as [v h1]. simpl in Hj.
      specialize (IHms h1). destruct (loads_members ms h1) as [kvs h2]. simpl in *. lia. }
    specialize (Hmem h). destruct (loads_members ms h) as [kvs h1].
    simpl in *. rewrite length_app. simpl. lia.
Qed.

Lemma set_all_NoDup (d items : dict value) :
  NoDup (dict_keys d) -> NoDup (dict_keys (set_all d items)).
Proof.
  unfold set_all. revert d.
  induction items as [|[k v] items IH]; intros d Hd; [assumption|].
  simpl. apply IH. now apply dict_set_NoDup.
Qed.

Lemma In_dict_get {V} (d : dict V) k v :
  NoDup (dict_keys d) -> In (k, v) d -> dict_get d k = Some v.
Proof.
  induction d as [|[k0 v0] d IH]; intros Hd Hin; [inversion Hin|].
  apply NoDup_cons in Hd as [Hk0 Hd]. simpl.
  destruct Hin as [[= -> ->]|Hin].
  - now rewrite String.eqb_refl.
  - destruct (String.eqb k0 k) eqn:E; [|auto].
    apply String.eqb_eq in E. subst k0. exfalso. apply Hk0.
    unfold dict_keys. apply list_elem_of_In, in_map_iff. now exists (k, v).
Qed.

Lemma dict_get_map_key {V W} (g : string -> V -> W) (d : dict V) k :
  dict_get (map (fun kv => (fst kv, g (fst kv) (snd kv))) d) k = (g k <$> dict_get d k).
Proof.
  induction d as [|[k0 v0] d IH]; [reflexivity|].
  simpl. destruct (String.eqb k0 k) eqn:E; [|exact IH].
  apply String.eqb_eq in E. now subst k0.
Qed.

Lemma dict_get_rev_none {V} (d : dict V) k :
  dict_has d k = false -> dict_get (rev d) k = None.
Proof.
  intros Hk. apply dict_get_not_in_keys. intros Hin.
  unfold dict_keys in Hin. rewrite map_rev in Hin.
  apply list_elem_of_In, in_rev, list_elem_of_In in Hin.
  apply dict_has_true in Hin. congruence.
Qed.

Lemma dict_get_rev_some {V} (d : dict V) k :
  dict_has d k = true -> is_Some (dict_get (rev d) k).
Proof.
  intros Hk. apply dict_keys_in_get. apply dict_has_true in Hk.
  unfold dict_keys in *. rewrite map_rev.
  apply list_elem_of_In, in_rev. rewrite rev_involutive. now apply list_elem_of_In.
Qed.

(** The member that [to_json] writes for the attribute [k] with value [v]
    after [from_json] of [ms]: the payload's when it names [k], the JSON of
    the earlier value otherwise. *)
Definition member_after (h : heap) (ms : list (string * json)) (k : string) (v : value)
  : json :=
  match dict_get (rev ms) k with
  | Some j => norm j
  | None => json_of h v
  end.

(** X20. Decoding, then encoding.  For a Target of the declared data model and a
    payload of plain keys with every mandatory key, [to_json] after
    [from_json] succeeds; each key of the payload comes back with the
    payload's (last) value for it, nested values included, and each other
    attribute with the JSON of the value it had. *)
Theorem from_json_to_json (h : heap) (t : loc) (ms : list (string * json)) :
  is_plain_target h t = true ->
  first_missing ms = None ->
  forallb plain_key (dict_keys ms) = true ->
  exists h' out,
    Target.from_json t (JObj ms) h = (Ok tt, h')
    /\ Target.to_json t h' = (Ok (JObj out), h')
    /\ (forall k j, dict_get (rev ms) k = Some j -> dict_get out k = Some (norm j))
    /\ (forall k, k ∉ dict_keys ms -> dict_get out k = (json_of h <$> attr h t k)).
Proof.
  unfold is_plain_target. intros [Ht Hrest]%andb_prop Hf Hplain.
  destruct (h !! t) as [[| |dt]|] eqn:Hdt; try discriminate.
  apply andb_prop in Hrest as [[Hnd _]%andb_prop Hflat].
  apply nodupb_NoDup in Hnd.
  pose proof (lookup_lt_Some _ _ _ Hdt) as Hlt.
  destruct (from_json_ok_run h t dt ms Hdt Hf Hplain) as (ext & Hext & Hrun).
  destruct (from_json_ok_spec h t ms Ht Hf Hplain) as (h' & Hrun' & Hset & Hkeep & Hframe).
  rewrite Hrun in Hrun'. injection Hrun' as Hh'.
  fold (assigned dt h ms) in Hh'. set (d2 := assigned dt h ms) in *.
  assert (Hlt' : (t < List.length (h ++ ext))%nat) by (rewrite length_app; lia).
  assert (Hd2 : h' !! t = Some (OTarget d2)).
  { subst h'. now apply list_lookup_insert_eq. }
  assert (Hnd2 : NoDup (dict_keys d2)) by now apply set_all_NoDup.
  assert (Hdepth : (depth (JObj ms) <= List.length h')%nat).
  { pose proof (loads_depth (JObj ms) h) as Hd. rewrite Hext in Hd.
    subst h'. rewrite length_insert. lia. }
  assert (Hlen : exists n, List.length h' = S n).
  { destruct (List.length h') eqn:E; [|eauto].
    subst h'. rewrite length_insert in E. lia. }
  destruct Hlen as [n Hn].
  set (G := fun kv : string * value => (fst kv, member_after h ms (fst kv) (snd kv))).
  assert (Hall : Forall (fun kv => rbind (dumps (List.length h') h' (snd kv))
                                     (fun j => Ok (fst kv, j)) = Ok (G kv)) d2).
  { apply Forall_forall. intros [k v] Hin. apply list_elem_of_In in Hin.
    pose proof (In_dict_get d2 k v Hnd2 Hin) as Hget.
    unfold G, member_after. simpl.
    destruct (dict_has ms k) eqn:Ek.
    - destruct (dict_get_rev_some ms k Ek) as [j Hj]. rewrite Hj.
      destruct (Hset k j Hj) as (v' & Hv' & Hd).
      rewrite (attr_lookup _ _ _ _ Hd2), Hget in Hv'. injection Hv' as <-.
      now rewrite (dumps_mono h' _ _ _ _ Hdepth Hd).
    - rewrite (dict_get_rev_none ms k Ek).
      assert (Hout : k ∉ dict_keys ms) by (intros Hk%dict_has_true; congruence).
      pose proof (Hkeep k Hout) as Hk.
      rewrite (attr_lookup _ _ _ _ Hd2), Hget, (attr_lookup _ _ _ _ Hdt) in Hk.
      symmetry in Hk. apply dict_get_In in Hk.
      rewrite forallb_forall in Hflat. specialize (Hflat _ Hk). simpl in Hflat.
      assert (Hsame : flat_value h' v = true /\ json_of h' v = json_of h v).
      { destruct v as [| | | | |r]; try (split; reflexivity).
        simpl in Hflat |- *.
        destruct (h !! r) as [[xs| |]|] eqn:Er; try discriminate.
        rewrite Hframe, Er by (eauto using lookup_lt_Some; congruence). auto. }
      destruct Hsame as [Hfl Hjs].
      now rewrite Hn, (dumps_flat n h' v Hfl), Hjs. }
  exists h', (map G d2).
  split; [rewrite Hrun; f_equal; exact Hh'|]. split.
  { unfold Target.to_json. erewrite bind_run by (unfold vars; rewrite Hd2; reflexivity).
    unfold json_dumps_dict, dumps_dict. now rewrite (rmap_ok _ G d2 Hall). }
  split.
  - intros k j Hj. unfold G. rewrite (dict_get_map_key (member_after h ms)).
    destruct (Hset k j Hj) as (v' & Hv' & _).
    rewrite (attr_lookup _ _ _ _ Hd2) in Hv'. rewrite Hv'. simpl.
    unfold member_after. now rewrite Hj.
  - intros k Hk. unfold G. rewrite (dict_get_map_key (member_after h ms)).
    pose proof (Hkeep k Hk) as Hk'. rewrite (attr_lookup _ _ _ _ Hd2) in Hk'.
    rewrite Hk'. destruct (attr h t k) as [v|]; [|reflexivity]. simpl.
    unfold member_after. rewrite dict_get_rev_none; [reflexivity|].
    destruct (dict_has ms k) eqn:E; [|reflexivity].
    apply dict_has_true in E. contradiction.
Qed.

Lemma from_json_to_json_witness :
  exists h' out,
    Target.from_json 2%nat (JObj payload_extra) store0 = (Ok tt, h')
    /\ Target.to_json 2%nat h' = (Ok (JObj out), h')
    /\ (forall k j, dict_get (rev payload_extra) k = Some j ->
          dict_get out k = Some (norm j))
    /\ (forall k, k ∉ dict_keys payload_extra ->
          dict_get out k = (json_of store0 <$> attr store0 2%nat k)).
Proof. apply (from_json_to_json store0 2%nat payload_extra); reflexivity. Defined.
